(** * img-to-pdf: layout calculator and document assembly

    A shallow embedding of [ImageToPDFConverter] (the converter class of the
    repository): the page-format table, [calculateOptimalLayout],
    [getImageFiles]'s ordering, [getImageDimensions], [compressImages] and
    [createPDF].

    JavaScript numbers are IEEE-754 binary64 values.  The layout code is
    written over an interface of number operations ([JsNumber]) whose
    instance is [float], Rocq's primitive binary64 floats: the arithmetic
    the program performs, rounding included.  What a double is worth as a
    rational number ([Float64.value]) is used to state bounds only.

    The file system, image-size, sharp and PDFKit are outside the program:
    each of their calls is a field of [Host] that says whether the call
    throws and what it returns.  A run of [createPDF] threads a [World]
    (entries of the scratch directory, [console.warn] log, pages of the
    document, directories created) through a state-and-exception monad.
    [console.log] output and the byte sizes used only for it are left
    out. *)

From Stdlib Require Import ZArith QArith Qpower Lqa Lia Bool List String Ascii.
From Stdlib Require Import Sorting.Sorted Sorting.Permutation.
From Stdlib Require Uint63 OrderedTypeEx.
From Stdlib Require Import Floats.
Import ListNotations.
Local Open Scope string_scope.
Local Open Scope Z_scope.

Set Implicit Arguments.

(** ** Numbers *)

(** The operations the layout code applies to numbers.  [nfalsy] is the test
    behind [x || 0]; [nundefined] is what a missing property ([undefined])
    becomes when it meets an arithmetic operator; [ncents n] is the decimal
    literal [n/100] (every literal of the program has at most two decimal
    places). *)
Class JsNumber (num : Type) := {
  nadd : num -> num -> num;
  nsub : num -> num -> num;
  nmul : num -> num -> num;
  ndiv : num -> num -> num;
  nmin : num -> num -> num;
  nmax : num -> num -> num;
  nfalsy : num -> bool;
  nundefined : num;
  ncents : Z -> num
}.

Module Float64.

(** [Math.min]: NaN if either argument is NaN, [-0] below [+0]. *)
Definition Math_min (a b : float) : float :=
  if (is_nan a || is_nan b)%bool then nan
  else if PrimFloat.ltb a b then a
  else if PrimFloat.ltb b a then b
  else if get_sign a then a else b.

(** [Math.max]: NaN if either argument is NaN, [+0] above [-0]. *)
Definition Math_max (a b : float) : float :=
  if (is_nan a || is_nan b)%bool then nan
  else if PrimFloat.ltb b a then a
  else if PrimFloat.ltb a b then b
  else if get_sign a then b else a.

(** Falsy numbers are [0], [-0] and NaN. *)
Definition falsy (a : float) : bool := (is_zero a || is_nan a)%bool.

(** A literal with two decimal places: the double nearest to [n/100].
    Both [n] and [100] are exact doubles for the literals of the program
    and binary64 division is correctly rounded. *)
Definition cents (n : Z) : float :=
  let m := of_uint63 (Uint63.of_Z (Z.abs n)) in
  let q := div m (of_uint63 (Uint63.of_Z 100)) in
  if n <? 0 then opp q else q.

#[global] Instance number : JsNumber float := {|
  nadd := add; nsub := sub; nmul := mul; ndiv := div;
  nmin := Math_min; nmax := Math_max;
  nfalsy := falsy;
  nundefined := nan;
  ncents := cents
|}.

(** The rational number a finite double stands for: sign, integer mantissa
    and binary exponent as [Prim2SF] gives them.  Infinities and NaN, which
    stand for no number, are given 0. *)
Definition SF2Q (f : spec_float) : Q :=
  match f with
  | S754_finite s m e =>
      let v := (inject_Z (Zpos m) * 2 ^ e)%Q in
      if s then (- v)%Q else v
  | _ => 0%Q
  end.

Definition value (f : float) : Q := SF2Q (Prim2SF f).

(** Half the distance between 1 and the next double: 2^-53, the largest
    relative error of one correctly rounded operation. *)
Definition u : Q := 1 # 9007199254740992.

(** A double between 2^-k and 2^k. *)
Definition within (k : Z) (f : float) : Prop :=
  (2 ^ (- k) <= value f /\ value f <= 2 ^ k)%Q.

(** What a shift record of the rounding algorithm ([SpecFloat]) says about
    the number [x] it stands for: its integer part, and where [x] lies
    between that integer and the next (on it, below the middle, at the
    middle, above the middle). *)
Definition denotes (mrs : shr_record) (x : Q) : Prop :=
  let m := inject_Z (shr_m mrs) in
  match shr_r mrs, shr_s mrs with
  | false, false => (x == m)%Q
  | false, true => (m < x /\ x < m + (1#2))%Q
  | true, false => (x == m + (1#2))%Q
  | true, true => (m + (1#2) < x /\ x < m + 1)%Q
  end.

End Float64.


(** ** Data model *)

(** A property read that may yield [undefined]. *)
Inductive jsval (num : Type) : Type :=
| JUndefined : jsval num
| JNum (n : num) : jsval num.
Arguments JUndefined {num}.

Section Converter.

Context {num : Type} {N : JsNumber num}.

(** [ToNumber] as applied by the arithmetic operators. *)
Definition toNumber (v : jsval num) : num :=
  match v with
  | JUndefined => nundefined
  | JNum n => n
  end.

Record PageFormat := { pf_width : num; pf_height : num }.

Record CustomMargin := {
  top : num; bottom : num; left : num; right : num
}.

Record ImageDimensions := { dim_width : num; dim_height : num }.

Record LayoutInfo := {
  width : num;
  height : num;
  x : num;
  y : num;
  pageWidth : jsval num;
  pageHeight : jsval num;
  fillMode : string
}.

(** The fields of [Config] read by the embedded methods.  [cfg_fillMode]
    is typed by a union of four literals in the source, but is filled from
    JSON at run time: any string can arrive.  [cfg_customMargin] is [None]
    when the property is absent. *)
Record Config := {
  cfg_supportedFormats : list string;
  cfg_pageSize : string;
  cfg_margin : num;
  cfg_backgroundColor : string;
  cfg_minimumMargin : num;
  cfg_fillMode : string;
  cfg_customMargin : option CustomMargin;
  cfg_preCompressImages : bool
}.

(** *** The page-format table

    [this.pageFormats] is an object literal with four own properties. *)
Definition pageFormats : list (string * PageFormat) :=
  [ ("A4",     {| pf_width := ncents 59528;  pf_height := ncents 84189 |});
    ("A3",     {| pf_width := ncents 84189;  pf_height := ncents 119055 |});
    ("Letter", {| pf_width := ncents 61200;  pf_height := ncents 79200 |});
    ("Legal",  {| pf_width := ncents 61200;  pf_height := ncents 100800 |}) ].

Fixpoint own_property (k : string) (o : list (string * PageFormat))
  : option PageFormat :=
  match o with
  | [] => None
  | (k', v) :: o' => if String.eqb k k' then Some v else own_property k o'
  end.

(** An object literal inherits from [Object.prototype]; [o[k]] finds these
    members when [k] is not an own property.  All of them are functions,
    except [__proto__], which reads as [Object.prototype] itself. *)
Definition Object_prototype : list string :=
  [ "constructor"; "hasOwnProperty"; "isPrototypeOf";
    "propertyIsEnumerable"; "toLocaleString"; "toString"; "valueOf";
    "__defineGetter__"; "__defineSetter__"; "__lookupGetter__";
    "__lookupSetter__"; "__proto__" ].

Inductive PageEntry : Type :=
| OwnFormat (p : PageFormat)
| Inherited (k : string).

(** [this.pageFormats[pageFormat]]; [None] is [undefined]. *)
Definition pageFormats_get (k : string) : option PageEntry :=
  match own_property k pageFormats with
  | Some p => Some (OwnFormat p)
  | None =>
      if existsb (String.eqb k) Object_prototype
      then Some (Inherited k) else None
  end.

(** [page.width] and [page.height]: an inherited member has neither. *)
Definition entry_width (e : PageEntry) : jsval num :=
  match e with
  | OwnFormat p => JNum (pf_width p)
  | Inherited _ => JUndefined
  end.

Definition entry_height (e : PageEntry) : jsval num :=
  match e with
  | OwnFormat p => JNum (pf_height p)
  | Inherited _ => JUndefined
  end.

(** *** calculateOptimalLayout *)

Inductive JsError : Type := Error (message : string).

Definition zero : num := ncents 0.
Definition two : num := ncents 200.
Definition ten : num := ncents 1000.

Definition default_customMargin : CustomMargin :=
  {| top := ten; bottom := ten; left := zero; right := zero |}.

(** [this.config.minimumMargin || 0] *)
Definition effective_margin (c : Config) : num :=
  if nfalsy (cfg_minimumMargin c) then zero else cfg_minimumMargin c.

(** [this.config.customMargin || { top: 10, bottom: 10, left: 0, right: 0 }] *)
Definition effective_customMargin (c : Config) : CustomMargin :=
  match cfg_customMargin c with
  | Some m => m
  | None => default_customMargin
  end.

(** The usable area under a uniform margin: [page.width - margin * 2] and
    [page.height - margin * 2]. *)
Definition usableWidth (c : Config) (p : PageFormat) : num :=
  nsub (pf_width p) (nmul (effective_margin c) two).

Definition usableHeight (c : Config) (p : PageFormat) : num :=
  nsub (pf_height p) (nmul (effective_margin c) two).

Definition calculateOptimalLayout (c : Config)
    (imgWidth imgHeight : num) (pageFormat : string)
  : JsError + LayoutInfo :=
  match pageFormats_get pageFormat with
  | None => inl (Error ("不支援的頁面格式: " ++ pageFormat))
  | Some page =>
      let page_width := toNumber (entry_width page) in
      let page_height := toNumber (entry_height page) in
      let margin := effective_margin c in
      let '(finalWidth, finalHeight, x, y) :=
        if String.eqb (cfg_fillMode c) "custom" then
          let customMargin := effective_customMargin c in
          let pageWidth :=
            nsub (nsub page_width (left customMargin)) (right customMargin) in
          let pageHeight :=
            nsub (nsub page_height (top customMargin)) (bottom customMargin) in
          (pageWidth, pageHeight, left customMargin, top customMargin)
        else if String.eqb (cfg_fillMode c) "stretch" then
          let pageWidth := nsub page_width (nmul margin two) in
          let pageHeight := nsub page_height (nmul margin two) in
          (pageWidth, pageHeight, margin, margin)
        else if String.eqb (cfg_fillMode c) "crop" then
          let pageWidth := nsub page_width (nmul margin two) in
          let pageHeight := nsub page_height (nmul margin two) in
          let scaleWidth := ndiv pageWidth imgWidth in
          let scaleHeight := ndiv pageHeight imgHeight in
          let scale := nmax scaleWidth scaleHeight in
          let finalWidth := nmul imgWidth scale in
          let finalHeight := nmul imgHeight scale in
          (finalWidth, finalHeight,
           nadd margin (ndiv (nsub pageWidth finalWidth) two),
           nadd margin (ndiv (nsub pageHeight finalHeight) two))
        else
          (* case "fit": default: *)
          let pageWidth := nsub page_width (nmul margin two) in
          let pageHeight := nsub page_height (nmul margin two) in
          let scaleW := ndiv pageWidth imgWidth in
          let scaleH := ndiv pageHeight imgHeight in
          let scaleMin := nmin scaleW scaleH in
          let finalWidth := nmul imgWidth scaleMin in
          let finalHeight := nmul imgHeight scaleMin in
          (finalWidth, finalHeight,
           nadd margin (ndiv (nsub pageWidth finalWidth) two),
           nadd margin (ndiv (nsub pageHeight finalHeight) two))
      in
      inr {| width := finalWidth;
             height := finalHeight;
             x := x;
             y := y;
             pageWidth := entry_width page;
             pageHeight := entry_height page;
             fillMode := cfg_fillMode c |}
  end.

End Converter.

Arguments PageFormat : clear implicits.
Arguments CustomMargin : clear implicits.
Arguments ImageDimensions : clear implicits.
Arguments LayoutInfo : clear implicits.
Arguments Config : clear implicits.
Arguments PageEntry : clear implicits.

(** ** Ordering of a group: the comparator of [getImageFiles] *)

Module Ordering.

(** [\d] without the unicode flag: the ten ASCII digits. *)
Definition is_digit (c : ascii) : bool :=
  ((48 <=? nat_of_ascii c)%nat && (nat_of_ascii c <=? 57)%nat)%bool.

Fixpoint take_digits (s : string) : string :=
  match s with
  | EmptyString => EmptyString
  | String c s' => if is_digit c then String c (take_digits s') else EmptyString
  end.

(** [name.match(/\d+/)?.[0]]: the leftmost, longest run of digits;
    [None] when the name has no digit. *)
Fixpoint first_digits (s : string) : option string :=
  match s with
  | EmptyString => None
  | String c s' =>
      if is_digit c then Some (String c (take_digits s')) else first_digits s'
  end.

(** The integer written by a run of digits. *)
Fixpoint digits_value (acc : Z) (s : string) : Z :=
  match s with
  | EmptyString => acc
  | String c s' => digits_value (10 * acc + (Z.of_nat (nat_of_ascii c) - 48)) s'
  end.

(** The Number value of a non-negative integer: itself below [2^53],
    otherwise rounded to 53 significant bits (ties to even); [2^1024]
    stands for [Infinity]. *)
Definition to_double (n : Z) : Z :=
  if n <? 2 ^ 53 then n
  else
    let e := Z.log2 n - 52 in
    let q := n / 2 ^ e in
    let r := n mod 2 ^ e in
    let half := 2 ^ (e - 1) in
    let q' :=
      if r <? half then q
      else if half <? r then q + 1
      else if Z.even q then q else q + 1 in
    Z.min (q' * 2 ^ e) (2 ^ 1024).

(** [parseInt] on a string of digits. *)
Definition parseInt (s : string) : Z := to_double (digits_value 0 s).

(** [parseInt(name.match(/\d+/)?.[0] || "0")] *)
Definition numeric_key (name : string) : Z :=
  parseInt (match first_digits name with
            | Some d => d
            | None => "0"
            end).

(** The first integer embedded in a name, as written: the integer of the
    first run of digits, 0 for a name without digits. *)
Definition first_integer (name : string) : Z :=
  digits_value 0 (match first_digits name with
                  | Some d => d
                  | None => "0"
                  end).

Section Sort.

Variable A : Type.
(** A comparator: negative, zero or positive. *)
Variable compareFn : A -> A -> Z.

Fixpoint insert (a : A) (l : list A) : list A :=
  match l with
  | [] => [a]
  | b :: l' => if compareFn a b <=? 0 then a :: l else b :: insert a l'
  end.

(** [a] may stay in front of [b]: the comparator is not positive. *)
Definition precedes (a b : A) : Prop := compareFn a b <= 0.

(** [Array.prototype.sort(compareFn)].  The sort is stable, and for a
    consistent comparator every stable sort returns the same array;
    insertion from the right is the simplest of them. *)
Definition Array_sort (l : list A) : list A := fold_right insert [] l.

End Sort.

End Ordering.

(** ** Files, pages and the outside world *)

Record ImageFile := {
  name : string;
  fullPath : string;
  stats_size : Z;
  originalPath : option string;
  compressed : option bool
}.

Inductive Warning : Type :=
| WarnDimensions (imagePath : string)
| WarnCompress (imagePath : string)
| WarnSkip (imageName : string) (e : JsError)
| WarnCleanup (e : JsError).

(** What becomes of the promise of [createPDF].  [Unsettled e]: the
    [finish] handler threw [e] before it reached [resolve]; nothing catches
    an exception thrown by an event handler, so the promise is neither
    resolved nor rejected. *)
Inductive Outcome : Type :=
| Resolved (outputPath : string)
| Rejected (e : JsError)
| Unsettled (e : JsError).

(** The page sizes PDFKit knows.  [addPage] looks the size up by its
    upper-cased name and throws a TypeError when it finds none. *)
Module PDFKit.

Definition SIZES : list string :=
  [ "4A0"; "2A0"; "A0"; "A1"; "A2"; "A3"; "A4"; "A5"; "A6"; "A7"; "A8"; "A9";
    "A10"; "B0"; "B1"; "B2"; "B3"; "B4"; "B5"; "B6"; "B7"; "B8"; "B9"; "B10";
    "C0"; "C1"; "C2"; "C3"; "C4"; "C5"; "C6"; "C7"; "C8"; "C9"; "C10";
    "RA0"; "RA1"; "RA2"; "RA3"; "RA4";
    "SRA0"; "SRA1"; "SRA2"; "SRA3"; "SRA4";
    "EXECUTIVE"; "FOLIO"; "LEGAL"; "LETTER"; "TABLOID" ].

Definition upper (c : ascii) : ascii :=
  let n := nat_of_ascii c in
  if ((97 <=? n)%nat && (n <=? 122)%nat)%bool then ascii_of_nat (n - 32) else c.

(** [toUpperCase] on the names that reach [addPage]: they have passed the
    guard of [calculateOptimalLayout], so they are ASCII. *)
Fixpoint toUpperCase (s : string) : string :=
  match s with
  | EmptyString => EmptyString
  | String c s' => String (upper c) (toUpperCase s')
  end.

Definition known (size : string) : bool :=
  existsb (String.eqb (toUpperCase size)) SIZES.

Definition unknown_size : JsError :=
  Error "Cannot read properties of undefined (reading '0')".

End PDFKit.

Section Assembly.

Context {num : Type} {N : JsNumber num}.

(** What the program asks of Node, image-size, sharp and PDFKit.  A
    [None] or [Some e] result is the call throwing.  [scratch_index] is
    the place [readdirSync] gives a new entry among the entries of the
    scratch directory (the order of a listing is the file system's), and
    [stream_error] the error event of the write stream opened on a path. *)
Record Host := {
  dirname : string;
  path_join : string -> string -> string;
  path_extname : string -> string;
  path_basename : string -> string -> string;
  toLowerCase : string -> string;
  localeCompare : string -> string -> Z;
  readdirSync : string -> option (list string);
  statSync : string -> option Z;
  mkdirSync_error : option JsError;
  unlinkSync_error : string -> option JsError;
  rmdirSync_error : option JsError;
  scratch_index : string -> list string -> nat;
  sizeOf : string -> option (ImageDimensions num);
  sharp_error : string -> option JsError;
  image_error : string -> option JsError;
  stream_error : string -> option JsError
}.

Variable host : Host.
Variable config : Config num.

(** *** getImageFiles *)

(** The comparator passed to [sort]: the sign of [numA - numB] is the sign
    of the difference of the two values. *)
Definition compareImages (a b : ImageFile) : Z :=
  let numA := Ordering.numeric_key (name a) in
  let numB := Ordering.numeric_key (name b) in
  if negb (numA =? numB) then numA - numB
  else localeCompare host (name a) (name b).

(** The order of a group: smaller numeric key first, and for equal keys
    [localeCompare] decides. *)
Definition name_order (a b : ImageFile) : Prop :=
  Ordering.numeric_key (name a) < Ordering.numeric_key (name b) \/
  (Ordering.numeric_key (name a) = Ordering.numeric_key (name b) /\
   localeCompare host (name a) (name b) <= 0).

(** The same order on the integers as they are written in the names. *)
Definition integer_order (a b : ImageFile) : Prop :=
  Ordering.first_integer (name a) < Ordering.first_integer (name b) \/
  (Ordering.first_integer (name a) = Ordering.first_integer (name b) /\
   localeCompare host (name a) (name b) <= 0).

Definition supported (file : string) : bool :=
  let ext := toLowerCase host (path_extname host file) in
  existsb (String.eqb ext) (cfg_supportedFormats config).

(** [files.map(...)]: [statSync] throws on the first file it cannot read. *)
Fixpoint stat_all (dir : string) (files : list string) : option (list ImageFile) :=
  match files with
  | [] => Some []
  | file :: rest =>
      match statSync host (path_join host dir file) with
      | None => None
      | Some size =>
          match stat_all dir rest with
          | None => None
          | Some l =>
              Some ({| name := file;
                       fullPath := path_join host dir file;
                       stats_size := size;
                       originalPath := None;
                       compressed := None |} :: l)
          end
      end
  end.

Definition getImageFiles (dir : string) : list ImageFile :=
  match readdirSync host dir with
  | None => []
  | Some files =>
      match stat_all dir (filter supported files) with
      | None => []
      | Some imageFiles => Ordering.Array_sort compareImages imageFiles
      end
  end.

(** *** The document and the scratch directory *)

Record Placement := {
  img_path : string;
  img_x : num;
  img_y : num;
  img_width : num;
  img_height : num
}.

Record Page := {
  page_size : string;
  page_fill : option (jsval num * jsval num * string);
  page_image : option Placement
}.

(** [scratch] lists the entries of the temporary directory as
    [readdirSync] returns them, [None] when the directory does not exist;
    [warnings] collects [console.warn], oldest first; [document] is the
    sequence of pages written so far; [made] lists the output directories
    created by [mkdirSync], oldest first. *)
Record World := {
  scratch : option (list string);
  warnings : list Warning;
  document : list Page;
  made : list string
}.

Definition M (A : Type) : Type := World -> (JsError + A) * World.

Definition ret {A : Type} (a : A) : M A := fun w => (inr a, w).

Definition throw {A : Type} (e : JsError) : M A := fun w => (inl e, w).

Definition bind {A B : Type} (m : M A) (k : A -> M B) : M B :=
  fun w =>
    match m w with
    | (inl e, w') => (inl e, w')
    | (inr a, w') => k a w'
    end.

Definition try_catch {A : Type} (m : M A) (handler : JsError -> M A) : M A :=
  fun w =>
    match m w with
    | (inl e, w') => handler e w'
    | (inr a, w') => (inr a, w')
    end.

Notation "x <- m ;; k" := (bind m (fun x => k))
  (at level 61, m at next level, right associativity).
Notation "m ;;; k" := (bind m (fun _ => k))
  (at level 61, right associativity).

(** [array.forEach((element, index) => ...)]: an exception leaves the loop. *)
Fixpoint forEach {A : Type} (f : A -> nat -> M unit) (l : list A) (index : nat)
  : M unit :=
  match l with
  | [] => ret tt
  | a :: l' => f a index ;;; forEach f l' (S index)
  end.

Definition warn (m : Warning) : M unit :=
  fun w => (inr tt, {| scratch := scratch w;
                       warnings := (warnings w ++ [m])%list;
                       document := document w;
                       made := made w |}).

Definition set_scratch (s : option (list string)) : M unit :=
  fun w => (inr tt, {| scratch := s;
                       warnings := warnings w;
                       document := document w;
                       made := made w |}).

Definition set_document (d : list Page) : M unit :=
  fun w => (inr tt, {| scratch := scratch w;
                       warnings := warnings w;
                       document := d;
                       made := made w |}).

Definition set_made (l : list string) : M unit :=
  fun w => (inr tt, {| scratch := scratch w;
                       warnings := warnings w;
                       document := document w;
                       made := l |}).

Definition get_scratch : M (option (list string)) :=
  fun w => (inr (scratch w), w).

Definition get_document : M (list Page) :=
  fun w => (inr (document w), w).

Definition get_made : M (list string) :=
  fun w => (inr (made w), w).

(** A host call that either throws or returns. *)
Definition host_call {A : Type} (r : option A) (e : JsError) : M A :=
  match r with
  | Some a => ret a
  | None => throw e
  end.

Definition fails (r : option JsError) : M unit :=
  match r with
  | Some e => throw e
  | None => ret tt
  end.

(** *** getImageDimensions *)

Definition fallback_dimensions : ImageDimensions num :=
  {| dim_width := ncents 80000; dim_height := ncents 60000 |}.

Definition getImageDimensions (imagePath : string) : M (ImageDimensions num) :=
  match sizeOf host imagePath with
  | Some dimensions => ret dimensions
  | None => warn (WarnDimensions imagePath) ;;; ret fallback_dimensions
  end.

(** *** compressImage and compressImages *)

Definition ENOENT : JsError := Error "ENOENT".

(** [a] put at index [i] of [l] (at the end when [i] is too large). *)
Definition insert_at {A : Type} (i : nat) (a : A) (l : list A) : list A :=
  (firstn i l ++ a :: skipn i l)%list.

(** [sharp(...).jpeg(...).toFile(outputPath)]: on success the entry is in
    the scratch directory, an existing file being overwritten and a new one
    listed where the file system puts it. *)
Definition sharp_toFile (imagePath entry : string) : M unit :=
  fails (sharp_error host imagePath) ;;;
  s <- get_scratch ;;
  match s with
  | None => throw ENOENT
  | Some entries =>
      if existsb (String.eqb entry) entries then ret tt
      else set_scratch
             (Some (insert_at (scratch_index host entry entries) entry entries))
  end.

Definition compressImage (imagePath tempDir : string) : M string :=
  try_catch
    (let ext := toLowerCase host (path_extname host imagePath) in
     let basename := path_basename host imagePath ext in
     let entry := basename ++ "_compressed.jpg" in
     let outputPath := path_join host tempDir entry in
     _ <- host_call (statSync host imagePath) ENOENT ;;
     _ <- getImageDimensions imagePath ;;
     sharp_toFile imagePath entry ;;;
     ret outputPath)
    (fun _ => warn (WarnCompress imagePath) ;;; ret imagePath).

Fixpoint compressImages (images : list ImageFile) (tempDir : string)
  : M (list ImageFile) :=
  match images with
  | [] => ret []
  | image :: rest =>
      first <-
        (if cfg_preCompressImages config then
           compressedPath <- compressImage (fullPath image) tempDir ;;
           ret {| name := name image;
                  fullPath := compressedPath;
                  stats_size := stats_size image;
                  originalPath := Some (fullPath image);
                  compressed :=
                    Some (negb (String.eqb compressedPath (fullPath image))) |}
         else ret image) ;;
      others <- compressImages rest tempDir ;;
      ret (first :: others)
  end.

(** *** PDFKit *)

Fixpoint on_last_page (f : Page -> Page) (d : list Page) : list Page :=
  match d with
  | [] => []
  | [p] => [f p]
  | p :: d' => p :: on_last_page f d'
  end.

Definition doc_addPage (size : string) : M unit :=
  if PDFKit.known size then
    d <- get_document ;;
    set_document (d ++ [{| page_size := size;
                           page_fill := None;
                           page_image := None |}])%list
  else throw PDFKit.unknown_size.

Definition doc_rect_fill (w h : jsval num) (color : string) : M unit :=
  d <- get_document ;;
  set_document
    (on_last_page (fun p => {| page_size := page_size p;
                               page_fill := Some (w, h, color);
                               page_image := page_image p |}) d).

Definition doc_image (path : string) (x y w h : num) : M unit :=
  fails (image_error host path) ;;;
  d <- get_document ;;
  set_document
    (on_last_page (fun p => {| page_size := page_size p;
                               page_fill := page_fill p;
                               page_image :=
                                 Some {| img_path := path;
                                         img_x := x; img_y := y;
                                         img_width := w;
                                         img_height := h |} |}) d).

(** *** createPDF *)

(** The body of the [forEach] callback, inside its [try]. *)
Definition composePage (imageFile : ImageFile) : M unit :=
  imgDimensions <- getImageDimensions (fullPath imageFile) ;;
  match calculateOptimalLayout config (dim_width imgDimensions)
          (dim_height imgDimensions) (cfg_pageSize config) with
  | inl e => throw e
  | inr layout =>
      doc_addPage (cfg_pageSize config) ;;;
      doc_rect_fill (pageWidth layout) (pageHeight layout)
        (cfg_backgroundColor config) ;;;
      doc_image (fullPath imageFile) (x layout) (y layout)
        (width layout) (height layout)
  end.

Definition placeImage (imageFile : ImageFile) (index : nat) : M unit :=
  try_catch (composePage imageFile)
    (fun imageError => warn (WarnSkip (name imageFile) imageError)).

(** [tempFiles.forEach((file) => fs.unlinkSync(path.join(tempDir, file)))] *)
Fixpoint unlinkAll (tempDir : string) (tempFiles : list string) : M unit :=
  match tempFiles with
  | [] => ret tt
  | file :: rest =>
      fails (unlinkSync_error host (path_join host tempDir file)) ;;;
      set_scratch (Some rest) ;;;
      unlinkAll tempDir rest
  end.

(** The [try] block of the [finish] handler. *)
Definition cleanup (tempDir : string) : M unit :=
  s <- get_scratch ;;
  match s with
  | None => ret tt
  | Some tempFiles =>
      unlinkAll tempDir tempFiles ;;;
      fails (rmdirSync_error host) ;;;
      set_scratch None
  end.

(** [path.join(__dirname, "temp_compressed")] *)
Definition tempDir : string := path_join host (dirname host) "temp_compressed".

(** The executor of the promise, up to [doc.end()]. *)
Definition assemble (images : list ImageFile) : M unit :=
  s <- get_scratch ;;
  (match s with
   | Some _ => ret tt
   | None => fails (mkdirSync_error host) ;;; set_scratch (Some [])
   end) ;;;
  compressedImages <- compressImages images tempDir ;;
  set_document [] ;;;
  forEach placeImage compressedImages 0.

(** The promise is rejected when the executor throws or the stream reports
    an error.  Otherwise the [finish] handler runs: the cleanup inside its
    [try], then [fs.statSync(outputPath)] outside of it, then [resolve]; the
    promise is resolved unless that [statSync] throws (as it does when the
    output file is no longer there, for one when the cleanup has deleted
    it), in which case it stays unsettled. *)
Definition createPDF (images : list ImageFile) (outputPath folderName : string)
  : World -> Outcome * World :=
  fun w0 =>
    match assemble images w0 with
    | (inl error, w1) => (Rejected error, w1)
    | (inr _, w1) =>
        match stream_error host outputPath with
        | Some error => (Rejected error, w1)
        | None =>
            let '(_, w2) :=
              try_catch (cleanup tempDir)
                (fun cleanupError => warn (WarnCleanup cleanupError)) w1 in
            match statSync host outputPath with
            | Some stats => (Resolved outputPath, w2)
            | None => (Unsettled ENOENT, w2)
            end
        end
    end.

(** *** Vocabulary for the properties of [createPDF] *)

(** The dimensions [getImageDimensions] returns for a path. *)
Definition probed_dimensions (imagePath : string) : ImageDimensions num :=
  match sizeOf host imagePath with
  | Some dimensions => dimensions
  | None => fallback_dimensions
  end.

(** The path [compressImage] writes to. *)
Definition compressedPath (imagePath tempDir : string) : string :=
  path_join host tempDir
    (path_basename host imagePath (toLowerCase host (path_extname host imagePath))
     ++ "_compressed.jpg").

(** [c] is the working copy of [image]: same name, and the path either of
    the original or of its compressed copy. *)
Definition working_copy (tempDir : string) (image c : ImageFile) : Prop :=
  name c = name image /\
  (fullPath c = fullPath image \/
   fullPath c = compressedPath (fullPath image) tempDir).

(** [page] is the page composed for the working copy [c] on the page format
    [p]: filled over the whole page with the background colour, and either
    left without image because [doc.image] threw, or carrying the image at
    the rectangle computed from the probed (or fallback) dimensions. *)
Definition page_for (p : PageFormat num) (c : ImageFile) (page : Page) : Prop :=
  page_size page = cfg_pageSize config /\
  page_fill page =
    Some (JNum (pf_width p), JNum (pf_height p), cfg_backgroundColor config) /\
  exists layout,
    calculateOptimalLayout config
      (dim_width (probed_dimensions (fullPath c)))
      (dim_height (probed_dimensions (fullPath c)))
      (cfg_pageSize config) = inr layout /\
    match image_error host (fullPath c) with
    | Some _ => page_image page = None
    | None =>
        page_image page =
          Some {| img_path := fullPath c;
                  img_x := x layout; img_y := y layout;
                  img_width := width layout; img_height := height layout |}
    end.

(** The images skipped by the [catch] of the page loop, oldest first. *)
Fixpoint skipped (ws : list Warning) : list (string * JsError) :=
  match ws with
  | [] => []
  | WarnSkip imageName e :: ws' => (imageName, e) :: skipped ws'
  | _ :: ws' => skipped ws'
  end.

(** A computation that creates no output directory. *)
Definition keeps_made {A : Type} (m : M A) : Prop :=
  forall w, made (snd (m w)) = made w.

(** A step that leaves the document and the skip log alone and does not
    remove the scratch directory. *)
Definition quiet (w w' : World) : Prop :=
  document w' = document w /\
  skipped (warnings w') = skipped (warnings w) /\
  (scratch w <> None -> scratch w' <> None).

End Assembly.

(** ** Relabelling and sample values *)

Definition with_fillMode {num : Type} (mode : string) (c : Config num) : Config num :=
  {| cfg_supportedFormats := cfg_supportedFormats c;
     cfg_pageSize := cfg_pageSize c;
     cfg_margin := cfg_margin c;
     cfg_backgroundColor := cfg_backgroundColor c;
     cfg_minimumMargin := cfg_minimumMargin c;
     cfg_fillMode := mode;
     cfg_customMargin := cfg_customMargin c;
     cfg_preCompressImages := cfg_preCompressImages c |}.

Definition relabel {num : Type} (mode : string) (r : LayoutInfo num) : LayoutInfo num :=
  {| width := width r;
     height := height r;
     x := x r;
     y := y r;
     pageWidth := pageWidth r;
     pageHeight := pageHeight r;
     fillMode := mode |}.

Module Samples.

Definition image (file : string) : ImageFile :=
  {| name := file;
     fullPath := "/photos/" ++ file;
     stats_size := 1024;
     originalPath := None;
     compressed := None |}.

(** Comparison by code units, standing for a collation. *)
Definition codeUnitCompare (a b : string) : Z :=
  match String.compare a b with
  | Lt => -1
  | Eq => 0
  | Gt => 1
  end.

(** [defaultConfig] of config.ts, with a chosen page size, fill mode and
    minimum margin. *)
Definition config {num : Type} {N : JsNumber num}
    (pageSize mode : string) (minimumMargin : num) : Config num :=
  {| cfg_supportedFormats := [".jpg"; ".jpeg"; ".png"; ".gif"; ".bmp"; ".webp"];
     cfg_pageSize := pageSize;
     cfg_margin := ncents 0;
     cfg_backgroundColor := "#FFFFFF";
     cfg_minimumMargin := minimumMargin;
     cfg_fillMode := mode;
     cfg_customMargin :=
       Some {| top := ncents 1500; bottom := ncents 1500;
               left := ncents 0; right := ncents 0 |};
     cfg_preCompressImages := true |}.

(** POSIX paths for the sample host. *)
Fixpoint has_slash (s : string) : bool :=
  match s with
  | EmptyString => false
  | String c s' => (Ascii.eqb c "/" || has_slash s')%bool
  end.

Fixpoint after_last_slash (s : string) : string :=
  match s with
  | EmptyString => EmptyString
  | String c s' =>
      if has_slash s' then after_last_slash s'
      else if Ascii.eqb c "/" then s' else s
  end.

Fixpoint strip_slashes (s : string) : string :=
  match s with
  | EmptyString => EmptyString
  | String c s' =>
      match strip_slashes s' with
      | EmptyString => if Ascii.eqb c "/" then EmptyString else String c EmptyString
      | t => String c t
      end
  end.

(** The last component of a path, trailing slashes apart. *)
Definition last_component (p : string) : string :=
  after_last_slash (strip_slashes p).

Fixpoint from_last_dot (s : string) : string :=
  match s with
  | EmptyString => EmptyString
  | String c s' =>
      match from_last_dot s' with
      | EmptyString => if Ascii.eqb c "." then s else EmptyString
      | e => e
      end
  end.

(** [path.extname]: the last component from its last dot on; a dot that
    starts the component starts no extension. *)
Definition extname (p : string) : string :=
  match last_component p with
  | String "."%char rest =>
      if String.eqb rest "." then EmptyString else from_last_dot rest
  | b => from_last_dot b
  end.

Definition basename (p ext : string) : string :=
  let b := last_component p in
  let n := (String.length b - String.length ext)%nat in
  if String.eqb (String.substring n (String.length ext) b) ext
  then String.substring 0 n b else b.

(** The index at which a file system that lists names in code-unit order
    lists a new entry. *)
Definition sorted_index (entry : string) (entries : list string) : nat :=
  List.length
    (filter (fun e => match String.compare e entry with Lt => true | _ => false end)
       entries).

Definition lower (c : ascii) : ascii :=
  let n := nat_of_ascii c in
  if ((65 <=? n)%nat && (n <=? 90)%nat)%bool then ascii_of_nat (n + 32) else c.

Fixpoint lowercase (s : string) : string :=
  match s with
  | EmptyString => EmptyString
  | String c s' => String (lower c) (lowercase s')
  end.

(** U+00E9, and U+0301, the combining accent that makes it out of an e. *)
Definition e_acute : string :=
  String (ascii_of_nat 195) (String (ascii_of_nat 169) EmptyString).

Definition combining_acute : string :=
  String (ascii_of_nat 204) (String (ascii_of_nat 129) EmptyString).

(** The composed form of the names used in the samples: an e followed by
    the combining accent becomes U+00E9. *)
Fixpoint compose (s : string) : string :=
  match s with
  | EmptyString => EmptyString
  | String c s' =>
      match s' with
      | String c1 (String c2 rest) =>
          if (Ascii.eqb c "e" && Ascii.eqb c1 (ascii_of_nat 204) &&
              Ascii.eqb c2 (ascii_of_nat 129))%bool
          then e_acute ++ compose rest
          else String c (compose s')
      | _ => String c (compose s')
      end
  end.

(** A collation under which canonically equivalent names compare equal, as
    they do for [localeCompare]. *)
Definition canonicalCompare (a b : string) : Z :=
  codeUnitCompare (compose a) (compose b).

(** A host on which every call succeeds unless told otherwise. *)
Definition host {num : Type} {N : JsNumber num}
    (listing : list string)
    (sizeOf : string -> option (ImageDimensions num))
    (image_error unlinkSync_error : string -> option JsError) : Host :=
  {| dirname := "/app/dist";
     path_join := fun a b => a ++ "/" ++ b;
     path_extname := extname;
     path_basename := basename;
     toLowerCase := lowercase;
     localeCompare := codeUnitCompare;
     readdirSync := fun _ => Some listing;
     statSync := fun _ => Some 1024;
     mkdirSync_error := None;
     unlinkSync_error := unlinkSync_error;
     rmdirSync_error := None;
     scratch_index := sorted_index;
     sizeOf := sizeOf;
     sharp_error := fun _ => None;
     image_error := image_error;
     stream_error := fun _ => None |}.

(** Before a build: no scratch directory, nothing logged, no document. *)
Definition world {num : Type} : @World num :=
  {| scratch := None; warnings := []; document := []; made := [] |}.

End Samples.


(** ** Vocabulary for further properties *)

(** Every character of [s] passes the test [f]. *)
Fixpoint all_chars (f : ascii -> bool) (s : string) : bool :=
  match s with
  | EmptyString => true
  | String c s' => (f c && all_chars f s')%bool
  end.

(** [s] is empty or starts with a character that is not a digit. *)
Definition no_leading_digit (s : string) : bool :=
  match s with
  | EmptyString => true
  | String c _ => negb (Ordering.is_digit c)
  end.

(** [a] and [b] are of the same rank for a comparator: neither has to come
    after the other. *)
Definition same_rank {A : Type} (compareFn : A -> A -> Z) (a b : A) : bool :=
  ((compareFn a b <=? 0) && (compareFn b a <=? 0))%bool.

(** A host that differs from [h] in the file-system calls only. *)
Definition host_with_fs {num : Type} (h : @Host num)
    (readdir : string -> option (list string)) (stat : string -> option Z)
    (mkdir rmdir stream : option JsError) (sharp : string -> option JsError)
  : @Host num :=
  {| dirname := dirname h;
     path_join := path_join h;
     path_extname := path_extname h;
     path_basename := path_basename h;
     toLowerCase := toLowerCase h;
     localeCompare := localeCompare h;
     readdirSync := readdir;
     statSync := stat;
     mkdirSync_error := mkdir;
     unlinkSync_error := unlinkSync_error h;
     rmdirSync_error := rmdir;
     scratch_index := scratch_index h;
     sizeOf := sizeOf h;
     sharp_error := sharp;
     image_error := image_error h;
     stream_error := fun _ => stream |}.

(** A host that differs from [h] in its collation only. *)
Definition host_with_collation {num : Type} (h : @Host num)
    (compare : string -> string -> Z) : @Host num :=
  {| dirname := dirname h;
     path_join := path_join h;
     path_extname := path_extname h;
     path_basename := path_basename h;
     toLowerCase := toLowerCase h;
     localeCompare := compare;
     readdirSync := readdirSync h;
     statSync := statSync h;
     mkdirSync_error := mkdirSync_error h;
     unlinkSync_error := unlinkSync_error h;
     rmdirSync_error := rmdirSync_error h;
     scratch_index := scratch_index h;
     sizeOf := sizeOf h;
     sharp_error := sharp_error h;
     image_error := image_error h;
     stream_error := stream_error h |}.

(** A host that differs from [h] in the error events of the output streams
    and in [statSync] only. *)
Definition host_with_output {num : Type} (h : @Host num)
    (stat : string -> option Z) (stream : string -> option JsError)
  : @Host num :=
  {| dirname := dirname h;
     path_join := path_join h;
     path_extname := path_extname h;
     path_basename := path_basename h;
     toLowerCase := toLowerCase h;
     localeCompare := localeCompare h;
     readdirSync := readdirSync h;
     statSync := stat;
     mkdirSync_error := mkdirSync_error h;
     unlinkSync_error := unlinkSync_error h;
     rmdirSync_error := rmdirSync_error h;
     scratch_index := scratch_index h;
     sizeOf := sizeOf h;
     sharp_error := sharp_error h;
     image_error := image_error h;
     stream_error := stream |}.

Section CleanupVocabulary.

Context {num : Type}.
Variable host : @Host num.

(** The entries left by the deletion loop: everything from the first entry
    that [unlinkSync] refuses. *)
Fixpoint undeleted (dir : string) (files : list string) : list string :=
  match files with
  | [] => []
  | file :: rest =>
      match unlinkSync_error host (path_join host dir file) with
      | Some _ => files
      | None => undeleted dir rest
      end
  end.

(** The error that ends the cleanup, if any: the one of the first refused
    deletion, else the one of [rmdirSync]. *)
Definition cleanup_failure (dir : string) (files : list string) : option JsError :=
  match undeleted dir files with
  | file :: _ => unlinkSync_error host (path_join host dir file)
  | [] => rmdirSync_error host
  end.

(** What the page loop logs for a working copy when the page format is
    registered. *)
Definition placement_failure (c : ImageFile) : list (string * JsError) :=
  match image_error host (fullPath c) with
  | Some e => [(name c, e)]
  | None => []
  end.

(** What probing a path adds to the log. *)
Definition probe_log (imagePath : string) : list Warning :=
  match sizeOf host imagePath with
  | Some _ => []
  | None => [WarnDimensions imagePath]
  end.

End CleanupVocabulary.

(** ** Plain objects used as maps, [scanDirectories] and [run] *)

Module JsObject.

(** A canonical array index: 0, or digits without leading zero, at most
    2^32 - 2.  Such keys are listed first by [Object.keys]. *)
Definition array_index (k : string) : option Z :=
  match k with
  | EmptyString => None
  | String c _ =>
      if (all_chars Ordering.is_digit k &&
          (String.eqb k "0" || negb (Ascii.eqb c "0")))%bool
      then
        let v := Ordering.digits_value 0 k in
        if v <=? 2 ^ 32 - 2 then Some v else None
      else None
  end.

Section Object.

Variable V : Type.

(** The own enumerable properties of an object created by [{}], in the
    order of [Object.keys] and [Object.entries]: array indices in ascending
    order, then the other keys in the order of their creation. *)
Definition object : Type := list (string * V).

Definition get (k : string) (o : object) : option V :=
  match find (fun e => String.eqb k (fst e)) o with
  | Some e => Some (snd e)
  | None => None
  end.

Definition has (k : string) (o : object) : bool :=
  existsb (fun e => String.eqb k (fst e)) o.

Fixpoint replace (k : string) (v : V) (o : object) : object :=
  match o with
  | [] => []
  | (k', v') :: o' =>
      if String.eqb k k' then (k', v) :: o' else (k', v') :: replace k v o'
  end.

Fixpoint insert_index (i : Z) (k : string) (v : V) (o : object) : object :=
  match o with
  | [] => [(k, v)]
  | (k', v') :: o' =>
      match array_index k' with
      | Some i' => if i <? i' then (k, v) :: o else (k', v') :: insert_index i k v o'
      | None => (k, v) :: o
      end
  end.

(** [o[k] = v].  Assigning to [__proto__] runs the setter inherited from
    [Object.prototype]: with an object for [v] it changes the prototype and
    creates no own property. *)
Definition set (k : string) (v : V) (o : object) : object :=
  if String.eqb k "__proto__" then o
  else if has k o then replace k v o
  else
    match array_index k with
    | Some i => insert_index i k v o
    | None => (o ++ [(k, v)])%list
    end.

End Object.

End JsObject.

Record DirectoryInfo := {
  dir_path : string;
  dir_images : list ImageFile;
  dir_count : nat
}.

(** How [run] ends when it does not throw.  [Interrupted]: a build was
    left unsettled, so the [await] of the loop never returns and the groups
    that follow are not built. *)
Inductive RunResult : Type :=
| NothingToDo
| Processed (outcomes : list (string * Outcome)) (successCount totalCount : nat)
| Interrupted (outcomes : list (string * Outcome)).

Section Batch.

Context {num : Type} {N : JsNumber num}.
Variable host : @Host num.
Variable config : Config num.

(** [stats.isDirectory()] for a path that [statSync] accepts. *)
Variable isDirectory : string -> bool.

(** The test of the loop: a directory whose group is not empty. *)
Definition has_images (path : string) : bool :=
  (isDirectory path &&
   match getImageFiles host config path with [] => false | _ => true end)%bool.

(** [fs.existsSync], the failure of [fs.mkdirSync] on the output directory,
    and the first ten characters of [new Date().toISOString()]. *)
Variable existsSync : string -> bool.
Variable mkdir_output_error : option JsError.
Variable today : string.

(** [this.config.sourceDir] and [this.config.outputDir]. *)
Variable sourceDir : string.
Variable outputDir : string.

Definition group (path : string) (images : list ImageFile) : DirectoryInfo :=
  {| dir_path := path; dir_images := images; dir_count := List.length images |}.

(** The [for] loop of [scanDirectories]; the flag is false when [statSync]
    threw, which ends the [try] block with the directories found so far. *)
Fixpoint scanItems (rootDir : string) (items : list string)
    (directories : JsObject.object DirectoryInfo)
  : JsObject.object DirectoryInfo * bool :=
  match items with
  | [] => (directories, true)
  | item :: rest =>
      let fullPath := path_join host rootDir item in
      match statSync host fullPath with
      | None => (directories, false)
      | Some _ =>
          scanItems rootDir rest
            (if isDirectory fullPath then
               match getImageFiles host config fullPath with
               | [] => directories
               | images => JsObject.set item (group fullPath images) directories
               end
             else directories)
      end
  end.

Definition scanDirectories (rootDir : string) : JsObject.object DirectoryInfo :=
  match readdirSync host rootDir with
  | None => []
  | Some items =>
      match scanItems rootDir items [] with
      | (directories, false) => directories
      | (directories, true) =>
          match getImageFiles host config rootDir with
          | [] => directories
          | rootImages => JsObject.set "_root" (group rootDir rootImages) directories
          end
      end
  end.

Definition outputPath_of (folderName : string) : string :=
  let displayName := if String.eqb folderName "_root" then "root" else folderName in
  path_join host outputDir (displayName ++ "_" ++ today ++ ".pdf").

(** The loop of [run] over [Object.entries(directories)]: a rejected
    [createPDF] is caught and the loop goes on; an unsettled one ends it. *)
Fixpoint runGroups (groups : list (string * DirectoryInfo)) (w : World)
  : list (string * Outcome) * World :=
  match groups with
  | [] => ([], w)
  | (folderName, folderInfo) :: rest =>
      let displayName :=
        if String.eqb folderName "_root" then "root" else folderName in
      let '(outcome, w1) :=
        createPDF host config (dir_images folderInfo)
          (outputPath_of folderName) displayName w in
      match outcome with
      | Unsettled _ => ([(outputPath_of folderName, outcome)], w1)
      | _ =>
          let '(outcomes, w2) := runGroups rest w1 in
          ((outputPath_of folderName, outcome) :: outcomes, w2)
      end
  end.

Definition resolved (o : string * Outcome) : bool :=
  match snd o with
  | Resolved _ => true
  | _ => false
  end.

Definition settled (o : string * Outcome) : bool :=
  match snd o with
  | Unsettled _ => false
  | _ => true
  end.

(** [mkdirSync(outputDir, { recursive: true })] when the directory is
    missing. *)
Definition ensure_outputDir : @M num unit :=
  if existsSync outputDir then ret tt
  else
    bind (fails mkdir_output_error)
      (fun _ => bind get_made
                  (fun l => set_made (l ++ [outputDir])%list)).

Definition run (w : World) : (JsError + RunResult) * World :=
  if negb (existsSync sourceDir) then (inr NothingToDo, w)
  else
    match ensure_outputDir w with
    | (inl e, w0) => (inl e, w0)
    | (inr _, w0) =>
        match scanDirectories sourceDir with
        | [] => (inr NothingToDo, w0)
        | directories =>
            let '(outcomes, w') := runGroups directories w0 in
            (inr (if forallb settled outcomes
                  then Processed outcomes
                         (List.length (filter resolved outcomes))
                         (List.length directories)
                  else Interrupted outcomes), w')
        end
    end.

End Batch.

(** The order of [Object.keys]: an array index comes before the array
    indices that are not smaller and before any other key; two other keys
    come in any order. *)
Definition key_order (k1 k2 : string) : Prop :=
  match JsObject.array_index k1, JsObject.array_index k2 with
  | Some i, Some j => i <= j
  | Some _, None => True
  | None, Some _ => False
  | None, None => True
  end.

(** The outcome of a build when the scratch directory is available:
    rejected with the error of the output stream, else decided by the
    [statSync] of the output file at the end of the [finish] handler. *)
Definition finish_outcome {num : Type} (host : @Host num) (outputPath : string)
  : Outcome :=
  match stream_error host outputPath with
  | Some e => Rejected e
  | None =>
      match statSync host outputPath with
      | Some _ => Resolved outputPath
      | None => Unsettled ENOENT
      end
  end.

(** The outcomes a loop gets to see: up to the first unsettled one. *)
Fixpoint until_unsettled (outcomes : list (string * Outcome))
  : list (string * Outcome) :=
  match outcomes with
  | [] => []
  | o :: rest => if settled o then o :: until_unsettled rest else [o]
  end.

Definition with_preCompressImages {num : Type} (b : bool) (c : Config num)
  : Config num :=
  {| cfg_supportedFormats := cfg_supportedFormats c;
     cfg_pageSize := cfg_pageSize c;
     cfg_margin := cfg_margin c;
     cfg_backgroundColor := cfg_backgroundColor c;
     cfg_minimumMargin := cfg_minimumMargin c;
     cfg_fillMode := cfg_fillMode c;
     cfg_customMargin := cfg_customMargin c;
     cfg_preCompressImages := b |}.

Module Tree.

(** A source directory /src with a sub-directory scans (two images), a
    sub-directory 2024 (one image), an empty sub-directory empty, a text
    file and one image of its own. *)
Definition listing (dir : string) : option (list string) :=
  if String.eqb dir "/src" then Some ["scans"; "2024"; "empty"; "notes.txt"; "cover.png"]
  else if String.eqb dir "/src/scans" then Some ["2.jpg"; "1.jpg"]
  else if String.eqb dir "/src/2024" then Some ["a.jpg"]
  else if String.eqb dir "/src/empty" then Some []
  else None.

Definition isDirectory (path : string) : bool :=
  existsb (String.eqb path) ["/src"; "/src/scans"; "/src/2024"; "/src/empty"].

Definition existsSync (path : string) : bool :=
  existsb (String.eqb path) ["/src"; "/out"].

Definition host (stat : string -> option Z) (stream : option JsError)
  : @Host float :=
  host_with_fs
    (Samples.host [] (fun _ => None) (fun _ => None) (fun _ => None))
    listing stat None None stream (fun _ => None).

Definition config : Config float :=
  Samples.config "A4" "fit" (Float64.cents 0).

End Tree.


(** ** Merging configurations (cli.ts) *)

Module Cli.

(** The options [parseArgs] fills that [mergeConfigs] reads; [None] is
    [undefined]. *)
Record CLIOptions := {
  cli_sourceDir : option string;
  cli_outputDir : option string
}.

(** A string that may be missing, under [if (...)]: truthy when present and
    not empty. *)
Definition truthy (s : option string) : option string :=
  match s with
  | Some EmptyString => None
  | _ => s
  end.

Section Merge.

(** The values of a configuration object, and how a string sits among
    them. *)
Variable V : Type.
Variable str : string -> V.

(** [Object.assign(target, source)]: every own property of [source], in
    order, is assigned to [target]. *)
Definition Object_assign (target source : JsObject.object V)
  : JsObject.object V :=
  fold_left (fun t e => JsObject.set (fst e) (snd e) t) source target.

Definition assign_if (k : string) (s : option string) (o : JsObject.object V)
  : JsObject.object V :=
  match truthy s with
  | Some v => JsObject.set k (str v) o
  | None => o
  end.

(** [loadFromEnv], reading [process.env] through [env]. *)
Definition loadFromEnv (env : string -> option string) : JsObject.object V :=
  assign_if "outputDir" (env "IMG_TO_PDF_OUTPUT_DIR")
    (assign_if "sourceDir" (env "IMG_TO_PDF_SOURCE_DIR") []).

(** [mergeConfigs]; [{ ...baseConfig }] has the own properties of
    [baseConfig], in the same order. *)
Definition mergeConfigs (baseConfig envConfig fileConfig : JsObject.object V)
    (cliOptions : CLIOptions) : JsObject.object V :=
  let merged := baseConfig in
  let merged := Object_assign merged envConfig in
  let merged := Object_assign merged fileConfig in
  let merged := assign_if "sourceDir" (cli_sourceDir cliOptions) merged in
  assign_if "outputDir" (cli_outputDir cliOptions) merged.

(** What the command line says about a key. *)
Definition cli_value (cliOptions : CLIOptions) (k : string) : option V :=
  if String.eqb k "sourceDir"
  then option_map str (truthy (cli_sourceDir cliOptions))
  else if String.eqb k "outputDir"
  then option_map str (truthy (cli_outputDir cliOptions))
  else None.

(** The first value that is present. *)
Definition or_else (a b : option V) : option V :=
  match a with
  | Some v => Some v
  | None => b
  end.

End Merge.

(** Values of the settings used in sample configurations. *)
Inductive value : Type :=
| Str (s : string)
| Flag (b : bool)
| Num (n : Z).

End Cli.

(** ** Properties of the layout calculator *)

Section LayoutFacts.

Context {num : Type} {N : JsNumber num}.

Lemma pageFormats_get_own (k : string) (p : PageFormat num) :
  own_property k pageFormats = Some p ->
  pageFormats_get k = Some (OwnFormat p).
Proof.
  unfold pageFormats_get. intros ->. reflexivity.
Qed.

Lemma own_property_names (k : string) (p : PageFormat num) :
  own_property k pageFormats = Some p ->
  In k ["A4"; "A3"; "Letter"; "Legal"].
Proof.
  unfold pageFormats. cbn [own_property].
  repeat match goal with
         | |- context [String.eqb k ?s] =>
             destruct (String.eqb_spec k s) as [->|_]; [cbn; tauto|]
         end.
  discriminate.
Qed.

Lemma calculateOptimalLayout_unknown (c : Config num) (w h : num) (k : string) :
  pageFormats_get k = None ->
  calculateOptimalLayout c w h k = inl (Error ("不支援的頁面格式: " ++ k)).
Proof.
  unfold calculateOptimalLayout. intros ->. reflexivity.
Qed.

Lemma pageFormats_get_inherited (k : string) :
  In k Object_prototype -> pageFormats_get k = Some (Inherited k).
Proof.
  cbn. intros H. decompose [or] H; subst; try reflexivity. contradiction.
Qed.

Lemma pageFormats_get_undefined (k : string) :
  ~ In k ["A4"; "A3"; "Letter"; "Legal"] -> ~ In k Object_prototype ->
  pageFormats_get k = None.
Proof.
  intros Hown Hproto. unfold pageFormats_get.
  destruct (own_property k pageFormats) as [p|] eqn:E.
  - elim Hown. exact (own_property_names _ E).
  - destruct (existsb (String.eqb k) Object_prototype) eqn:E'; [|reflexivity].
    apply existsb_exists in E'. destruct E' as [k' [Hin Hk']].
    apply String.eqb_eq in Hk'. subst k'. contradiction.
Qed.

Lemma fit_equation (c : Config num) (w h : num) (k : string) (p : PageFormat num) :
  cfg_fillMode c = "fit" ->
  own_property k pageFormats = Some p ->
  calculateOptimalLayout c w h k =
  let scaleMin := nmin (ndiv (usableWidth c p) w) (ndiv (usableHeight c p) h) in
  inr {| width := nmul w scaleMin;
         height := nmul h scaleMin;
         x := nadd (effective_margin c)
                (ndiv (nsub (usableWidth c p) (nmul w scaleMin)) two);
         y := nadd (effective_margin c)
                (ndiv (nsub (usableHeight c p) (nmul h scaleMin)) two);
         pageWidth := JNum (pf_width p);
         pageHeight := JNum (pf_height p);
         fillMode := "fit" |}.
Proof.
  intros Hfit Hk. unfold calculateOptimalLayout.
  rewrite (pageFormats_get_own _ Hk), Hfit. reflexivity.
Qed.

Lemma crop_equation (c : Config num) (w h : num) (k : string) (p : PageFormat num) :
  cfg_fillMode c = "crop" ->
  own_property k pageFormats = Some p ->
  calculateOptimalLayout c w h k =
  let scale := nmax (ndiv (usableWidth c p) w) (ndiv (usableHeight c p) h) in
  inr {| width := nmul w scale;
         height := nmul h scale;
         x := nadd (effective_margin c)
                (ndiv (nsub (usableWidth c p) (nmul w scale)) two);
         y := nadd (effective_margin c)
                (ndiv (nsub (usableHeight c p) (nmul h scale)) two);
         pageWidth := JNum (pf_width p);
         pageHeight := JNum (pf_height p);
         fillMode := "crop" |}.
Proof.
  intros Hcrop Hk. unfold calculateOptimalLayout.
  rewrite (pageFormats_get_own _ Hk), Hcrop. reflexivity.
Qed.

Lemma calculateOptimalLayout_registered (c : Config num) (w h : num)
    (k : string) (p : PageFormat num) :
  own_property k pageFormats = Some p ->
  exists r, calculateOptimalLayout c w h k = inr r /\
            pageWidth r = JNum (pf_width p) /\
            pageHeight r = JNum (pf_height p) /\
            fillMode r = cfg_fillMode c.
Proof.
  intros Hk. unfold calculateOptimalLayout.
  rewrite (pageFormats_get_own _ Hk).
  repeat match goal with
         | |- context [if ?b then _ else _] => destruct b
         end;
    eexists; repeat split; reflexivity.
Qed.

End LayoutFacts.

Set Warnings "-inexact-float".

(** The entries of the table are the doubles the literals of the source
    denote. *)
Lemma pageFormats_binary64 :
  @pageFormats float _ =
  [ ("A4",     {| pf_width := 595.28%float; pf_height := 841.89%float |});
    ("A3",     {| pf_width := 841.89%float; pf_height := 1190.55%float |});
    ("Letter", {| pf_width := 612%float;    pf_height := 792%float |});
    ("Legal",  {| pf_width := 612%float;    pf_height := 1008%float |}) ].
Proof. vm_compute. reflexivity. Qed.

Set Warnings "inexact-float".

(** ** Rounding in binary64

    The operations of [float] are specified by [SpecFloat]: the exact
    result, rounded to nearest with ties to even.  For results in the
    normal range this bounds the relative error of a product and of a
    quotient by [u] = 2^-53. *)

Unset Implicit Arguments.

Section Rounding.

Import Float64.

(** [iter_pos] is iteration. *)
Lemma iter_pos_nat {A : Type} (f : A -> A) (p : positive) (x : A) :
  iter_pos f p x = Nat.iter (Pos.to_nat p) f x.
Proof.
  revert x. induction p as [p IH|p IH|]; intros x; cbn [iter_pos].
  - rewrite !IH, Pos2Nat.inj_xI.
    replace (S (2 * Pos.to_nat p))%nat with (Pos.to_nat p + S (Pos.to_nat p))%nat by lia.
    rewrite Nat.iter_add. f_equal. rewrite Nat.iter_succ_r. reflexivity.
  - rewrite !IH, Pos2Nat.inj_xO.
    replace (2 * Pos.to_nat p)%nat with (Pos.to_nat p + Pos.to_nat p)%nat by lia.
    rewrite Nat.iter_add. reflexivity.
  - reflexivity.
Qed.

Lemma inject_Z_xO (p : positive) :
  (inject_Z (Zpos p~0) == 2 * inject_Z (Zpos p))%Q.
Proof. change (Zpos p~0) with (2 * Zpos p). rewrite inject_Z_mult. reflexivity. Qed.

Lemma inject_Z_xI (p : positive) :
  (inject_Z (Zpos p~1) == 2 * inject_Z (Zpos p) + 1)%Q.
Proof.
  change (Zpos p~1) with (2 * Zpos p + 1). rewrite inject_Z_plus, inject_Z_mult. reflexivity.
Qed.

Lemma shr_1_m (mrs : shr_record) :
  0 <= shr_m mrs -> shr_m (shr_1 mrs) = shr_m mrs / 2.
Proof.
  destruct mrs as [m r s]. cbn [shr_m shr_1]. intros Hm.
  destruct m as [|p|p]; [reflexivity| |lia].
  destruct p as [p|p|]; cbn [shr_m].
  - rewrite Pos2Z.inj_xI. apply Z.div_unique with 1; lia.
  - rewrite Pos2Z.inj_xO. apply Z.div_unique with 0; lia.
  - reflexivity.
Qed.

Ltac half_cases :=
  match goal with
  | |- (_ < _ /\ _ < _)%Q =>
      split; [apply Qlt_shift_div_l|apply Qlt_shift_div_r]; lra
  | |- (_ == _)%Q => field_simplify_eq; lra
  end.

Lemma shr_1_denotes (mrs : shr_record) (x : Q) :
  0 <= shr_m mrs -> denotes mrs x -> denotes (shr_1 mrs) (x / 2).
Proof.
  destruct mrs as [m r s]. cbn [shr_m]. intros Hm.
  unfold denotes. cbn [shr_m shr_r shr_s shr_1].
  destruct m as [|p|p]; [| |lia].
  - cbn [shr_m shr_r shr_s]. change (inject_Z 0) with 0%Q.
    destruct r, s; cbn [orb]; intros H; half_cases.
  - destruct p as [p|p|]; cbn [shr_m shr_r shr_s].
    + pose proof (inject_Z_xI p) as E.
      destruct r, s; cbn [orb]; intros H; half_cases.
    + pose proof (inject_Z_xO p) as E.
      destruct r, s; cbn [orb]; intros H; half_cases.
    + change (inject_Z 1) with 1%Q. change (inject_Z 0) with 0%Q.
      destruct r, s; cbn [orb]; intros H; half_cases.
Qed.

(** Powers of two in Q *)
Lemma Qpow2_pos (k : Z) : (0 < 2 ^ k)%Q.
Proof. apply Qpower_0_lt. reflexivity. Qed.

Lemma Qpow2_add (a b : Z) : (2 ^ (a + b) == 2 ^ a * 2 ^ b)%Q.
Proof. apply Qpower_plus. discriminate. Qed.

Lemma Qpow2_succ (a : Z) : (2 ^ (a + 1) == 2 * 2 ^ a)%Q.
Proof. rewrite Qpow2_add. change (2 ^ 1)%Q with 2%Q. ring. Qed.

Lemma Qpow2_sub (a b : Z) : (2 ^ (a - b) == 2 ^ a / 2 ^ b)%Q.
Proof.
  unfold Z.sub. rewrite Qpow2_add, Qpower_opp. reflexivity.
Qed.

Lemma Qpow2_le (a b : Z) : a <= b -> (2 ^ a <= 2 ^ b)%Q.
Proof. intros H. apply Qpower_le_compat_l; [exact H|lra]. Qed.

Lemma Qpow2_lt (a b : Z) : a < b -> (2 ^ a < 2 ^ b)%Q.
Proof. intros H. apply Qpower_lt_compat_l; [exact H|lra]. Qed.

Lemma Qpow2_lt_inv (a b : Z) : (2 ^ a < 2 ^ b)%Q -> a < b.
Proof. intros H. apply Qpower_lt_compat_l_inv with (q := 2%Q); [exact H|lra]. Qed.

Lemma Qpow2_le_inv (a b : Z) : (2 ^ a <= 2 ^ b)%Q -> a <= b.
Proof. intros H. apply Qpower_le_compat_l_inv with (q := 2%Q); [exact H|lra]. Qed.

Lemma Qpow2_Z (k : Z) : 0 <= k -> (inject_Z (2 ^ k) == 2 ^ k)%Q.
Proof. intros H. rewrite Zpower_Qpower by exact H. reflexivity. Qed.

Lemma denotes_ext (mrs : shr_record) (x y : Q) :
  (x == y)%Q -> denotes mrs x -> denotes mrs y.
Proof.
  intros E. unfold denotes. destruct (shr_r mrs), (shr_s mrs); rewrite E; auto.
Qed.

Lemma shr_iter_denotes (n : nat) (mrs : shr_record) (x : Q) :
  0 <= shr_m mrs -> denotes mrs x ->
  denotes (Nat.iter n shr_1 mrs) (x / 2 ^ Z.of_nat n) /\
  shr_m (Nat.iter n shr_1 mrs) = shr_m mrs / 2 ^ Z.of_nat n.
Proof.
  intros Hm Hx. induction n as [|n [IHd IHm]].
  - change (Nat.iter 0 shr_1 mrs) with mrs. change (2 ^ Z.of_nat 0)%Q with 1%Q.
    change (2 ^ Z.of_nat 0) with 1. rewrite Z.div_1_r. split; [|reflexivity].
    apply (denotes_ext mrs x); [field|exact Hx].
  - rewrite Nat.iter_succ.
    assert (H0 : 0 <= shr_m (Nat.iter n shr_1 mrs)).
    { rewrite IHm. apply Z.div_pos; [exact Hm|]. apply Z.pow_pos_nonneg; lia. }
    split.
    + pose proof (shr_1_denotes _ _ H0 IHd) as H.
      assert (E : (x / 2 ^ Z.of_nat n / 2 == x / 2 ^ Z.of_nat (S n))%Q).
      { rewrite Nat2Z.inj_succ. unfold Z.succ. rewrite Qpow2_succ.
        field. pose proof (Qpow2_pos (Z.of_nat n)). lra. }
      exact (denotes_ext _ _ _ E H).
    + rewrite (shr_1_m _ H0), IHm, Nat2Z.inj_succ, Z.pow_succ_r by lia.
      rewrite Z.div_div by (try apply Z.pow_pos_nonneg; lia).
      f_equal. lia.
Qed.

Lemma round_denotes (mrs : shr_record) (x : Q) :
  denotes mrs x ->
  let z := round_nearest_even (shr_m mrs) (loc_of_shr_record mrs) in
  (z = shr_m mrs \/ z = shr_m mrs + 1) /\
  (inject_Z z - (1#2) <= x /\ x <= inject_Z z + (1#2))%Q.
Proof.
  destruct mrs as [m r s]. unfold denotes. cbn [shr_m shr_r shr_s].
  destruct r, s; cbn [loc_of_shr_record round_nearest_even]; intros H.
  - split; [right; reflexivity|]. rewrite inject_Z_plus.
    change (inject_Z 1) with 1%Q. lra.
  - destruct (Z.even m).
    + split; [left; reflexivity|]. lra.
    + split; [right; reflexivity|]. rewrite inject_Z_plus.
      change (inject_Z 1) with 1%Q. lra.
  - split; [left; reflexivity|]. lra.
  - split; [left; reflexivity|]. lra.
Qed.

(** Number of binary digits *)
Lemma digits2_pos_log2 (p : positive) :
  Zpos (digits2_pos p) = Z.log2 (Zpos p) + 1.
Proof.
  induction p as [p IH|p IH|]; cbn [digits2_pos].
  - rewrite Pos2Z.inj_succ, IH, Pos2Z.inj_xI, Z.log2_succ_double by lia. lia.
  - rewrite Pos2Z.inj_succ, IH, Pos2Z.inj_xO, Z.log2_double by lia. lia.
  - reflexivity.
Qed.

Lemma Zdigits2_bounds (m : Z) :
  0 < m -> 2 ^ (Zdigits2 m - 1) <= m < 2 ^ Zdigits2 m.
Proof.
  intros Hm. destruct m as [|p|p]; try lia. cbn [Zdigits2].
  rewrite digits2_pos_log2.
  pose proof (Z.log2_spec (Zpos p) ltac:(lia)) as H.
  replace (Z.log2 (Z.pos p) + 1 - 1) with (Z.log2 (Z.pos p)) by lia.
  replace (Z.log2 (Z.pos p) + 1) with (Z.succ (Z.log2 (Z.pos p))) by lia.
  exact H.
Qed.

Lemma Zdigits2_unique (m k : Z) :
  0 < k -> 2 ^ (k - 1) <= m < 2 ^ k -> Zdigits2 m = k.
Proof.
  intros Hk H.
  assert (Hm : 0 < m).
  { pose proof (Z.pow_pos_nonneg 2 (k - 1)). lia. }
  destruct m as [|p|p]; try lia. cbn [Zdigits2].
  rewrite digits2_pos_log2.
  rewrite (Z.log2_unique (Zpos p) (k - 1)); [lia|lia|].
  replace (Z.succ (k - 1)) with k by lia. exact H.
Qed.

Lemma fexp_normal (e : Z) : -1074 <= e - 53 -> fexp prec emax e = e - 53.
Proof. unfold fexp, SpecFloat.emin, prec, emax. lia. Qed.

Lemma shr_m_of_loc (m : Z) (l : location) : shr_m (shr_record_of_loc m l) = m.
Proof. destruct l as [|[| |]]; reflexivity. Qed.

Lemma denotes_lower (mrs : shr_record) (x : Q) :
  denotes mrs x -> (inject_Z (shr_m mrs) <= x)%Q.
Proof.
  unfold denotes. destruct (shr_r mrs), (shr_s mrs); intros H; lra.
Qed.

Lemma shr_denotes (mrs : shr_record) (e n : Z) (x : Q) :
  0 <= shr_m mrs -> 0 <= n -> denotes mrs x ->
  denotes (fst (shr mrs e n)) (x / 2 ^ n) /\
  shr_m (fst (shr mrs e n)) = shr_m mrs / 2 ^ n /\
  snd (shr mrs e n) = e + n.
Proof.
  intros Hm Hn Hx. destruct n as [|p|p]; [| |lia].
  - cbn [shr fst snd]. change (2 ^ 0)%Q with 1%Q. rewrite Z.div_1_r, Z.add_0_r.
    split; [|split; reflexivity].
    apply (denotes_ext mrs x); [field|exact Hx].
  - cbn [shr fst snd]. rewrite iter_pos_nat.
    destruct (shr_iter_denotes (Pos.to_nat p) mrs x Hm Hx) as [D M].
    rewrite positive_nat_Z in D, M. auto.
Qed.

Lemma binary_round_aux_normal (sx : bool) (mx ex : Z) (lx : location) (x : Q) :
  0 < mx -> 53 <= Zdigits2 mx ->
  denotes (shr_record_of_loc mx lx) x ->
  -1021 <= Zdigits2 mx + ex <= 1023 ->
  exists m e,
    binary_round_aux prec emax sx mx ex lx = S754_finite sx m e /\
    ((1 - u) * (x * 2 ^ ex) <= inject_Z (Zpos m) * 2 ^ e /\
     inject_Z (Zpos m) * 2 ^ e <= (1 + u) * (x * 2 ^ ex))%Q.
Proof.
  intros Hmx Hd Hx Hrange.
  pose proof (Zdigits2_bounds mx Hmx) as Hb.
  set (d := Zdigits2 mx) in *. set (n := d - 53).
  assert (Hn : 0 <= n) by (unfold n; lia).
  unfold binary_round_aux, shr_fexp. fold d.
  rewrite fexp_normal by lia.
  replace (d + ex - 53 - ex) with n by (unfold n; lia).
  destruct (shr_denotes (shr_record_of_loc mx lx) ex n x
              ltac:(rewrite shr_m_of_loc; lia) Hn Hx) as (D1 & M1 & E1).
  destruct (shr (shr_record_of_loc mx lx) ex n) as [rec1 e1].
  cbn [fst snd] in D1, M1, E1. rewrite shr_m_of_loc in M1.
  assert (Hm1 : 2 ^ 52 <= shr_m rec1 < 2 ^ 53).
  { rewrite M1. split.
    - apply Z.div_le_lower_bound; [apply Z.pow_pos_nonneg; lia|].
      rewrite <- Z.pow_add_r by lia.
      replace (n + 52) with (d - 1) by (unfold n; lia). lia.
    - apply Z.div_lt_upper_bound; [apply Z.pow_pos_nonneg; lia|].
      rewrite <- Z.pow_add_r by lia.
      replace (n + 53) with d by (unfold n; lia). lia. }
  destruct (round_denotes rec1 _ D1) as (Hz & Hlo & Hhi).
  pose proof (denotes_lower _ _ D1) as Hy.
  set (y := (x / 2 ^ n)%Q) in *.
  set (z := round_nearest_even (shr_m rec1) (loc_of_shr_record rec1)) in *.
  assert (HX : (x * 2 ^ ex == y * 2 ^ e1)%Q).
  { unfold y. rewrite E1, Qpow2_add. field.
    pose proof (Qpow2_pos n). lra. }
  assert (Hy52 : (4503599627370496 <= y)%Q).
  { eapply Qle_trans; [|exact Hy].
    change 4503599627370496%Q with (inject_Z (2 ^ 52)).
    rewrite <- Zle_Qle. exact (proj1 Hm1). }
  assert (Hzy : ((1 - u) * y <= inject_Z z /\ inject_Z z <= (1 + u) * y)%Q).
  { unfold u. lra. }
  assert (Hzr : 2 ^ 52 <= z <= 2 ^ 53) by lia.
  assert (He1 : -1074 <= e1 <= 970) by (unfold n in E1; lia).
  assert (Hscale : forall v : Q,
             ((1 - u) * y <= v /\ v <= (1 + u) * y ->
              (1 - u) * (x * 2 ^ ex) <= v * 2 ^ e1 /\
              v * 2 ^ e1 <= (1 + u) * (x * 2 ^ ex))%Q).
  { intros v [Hv1 Hv2]. rewrite HX. pose proof (Qpow2_pos e1) as Hp.
    split.
    - rewrite Qmult_assoc. apply Qmult_le_compat_r; [exact Hv1|lra].
    - rewrite Qmult_assoc. apply Qmult_le_compat_r; [exact Hv2|lra]. }
  destruct (Z.eq_dec z (2 ^ 53)) as [Hcarry|Hno].
  - (* the rounded mantissa is 2^53: one more shift *)
    rewrite Hcarry. change (Zdigits2 (2 ^ 53)) with 54.
    rewrite fexp_normal by lia.
    replace (54 + e1 - 53 - e1) with 1 by lia.
    cbn [shr_record_of_loc shr iter_pos]. 
    change (shr_1 {| shr_m := 2 ^ 53; shr_r := false; shr_s := false |})
      with {| shr_m := 2 ^ 52; shr_r := false; shr_s := false |}.
    cbn [shr_m]. change (2 ^ 52) with (Zpos 4503599627370496).
    cbv iota beta.
    replace (e1 + 1 <=? emax - prec) with true
      by (symmetry; apply Z.leb_le; unfold emax, prec; lia).
    eexists; eexists. split; [reflexivity|].
    assert (E : (inject_Z (Zpos 4503599627370496) * 2 ^ (e1 + 1)
                 == inject_Z z * 2 ^ e1)%Q).
    { rewrite Hcarry, Qpow2_succ. 
      change (inject_Z (2 ^ 53)) with (2 * inject_Z (Zpos 4503599627370496))%Q.
      ring. }
    rewrite E. apply Hscale. exact Hzy.
  - assert (Hd53 : Zdigits2 z = 53) by (apply Zdigits2_unique; lia).
    rewrite Hd53, fexp_normal by lia.
    replace (53 + e1 - 53 - e1) with 0 by lia.
    cbn [shr_record_of_loc shr shr_m].
    destruct z as [|pz|pz] eqn:Ez; try lia.
    replace (e1 <=? emax - prec) with true
      by (symmetry; apply Z.leb_le; unfold emax, prec; lia).
    eexists; eexists. split; [reflexivity|].
    apply Hscale. exact Hzy.
Qed.

(** Doubles of the normal range *)
Lemma value_normal (f : float) :
  (2 ^ (-1022) <= value f)%Q ->
  exists m e,
    Prim2SF f = S754_finite false m e /\
    2 ^ 52 <= Zpos m < 2 ^ 53 /\ -1074 <= e <= 971 /\
    (value f == inject_Z (Zpos m) * 2 ^ e)%Q.
Proof.
  intros H. pose proof (Prim2SF_valid f) as Hv. unfold value in *.
  pose proof (Qpow2_pos (-1022)) as Hp.
  destruct (Prim2SF f) as [s|s| |s m e]; cbn [SF2Q] in H; try lra.
  destruct s.
  { pose proof (Qpow2_pos e).
    assert (0 < inject_Z (Zpos m) * 2 ^ e)%Q.
    { apply Qmult_lt_0_compat; [|assumption]. 
      change 0%Q with (inject_Z 0). rewrite <- Zlt_Qlt. lia. }
    cbv zeta in H. lra. }
  cbv zeta in H. cbn [SF2Q]. cbv zeta.
  cbn [valid_binary] in Hv. unfold bounded, canonical_mantissa in Hv.
  apply andb_true_iff in Hv. destruct Hv as [Hc He].
  apply Z.eqb_eq in Hc. apply Z.leb_le in He.
  pose proof (Zdigits2_bounds (Zpos m) ltac:(lia)) as Hb. cbn [Zdigits2] in Hb.
  set (d := Zpos (digits2_pos m)) in *.
  assert (Hde : -1022 < d + e).
  { apply Qpow2_lt_inv. eapply Qle_lt_trans; [exact H|].
    rewrite Qpow2_add. apply Qmult_lt_compat_r; [apply Qpow2_pos|].
    rewrite <- Qpow2_Z by (unfold d; lia). rewrite <- Zlt_Qlt. lia. }
  rewrite fexp_normal in Hc by lia.
  assert (d = 53) by lia.
  exists m, e. split; [reflexivity|].
  replace (d - 1) with 52 in Hb by lia. replace d with 53 in Hb by lia.
  split; [exact Hb|]. unfold emax, prec in He. split; [lia|reflexivity].
Qed.

Lemma finite_value (s : bool) (m : positive) (e : Z) :
  (SF2Q (S754_finite s m e) ==
   (if s then -1 else 1) * (inject_Z (Zpos m) * 2 ^ e))%Q.
Proof. cbn. destruct s; ring. Qed.

Lemma Qpow2_digits (m : Z) (e : Z) :
  0 < m ->
  (2 ^ (Zdigits2 m - 1 + e) <= inject_Z m * 2 ^ e /\
   inject_Z m * 2 ^ e < 2 ^ (Zdigits2 m + e))%Q.
Proof.
  intros Hm. pose proof (Zdigits2_bounds m Hm) as [H1 H2].
  assert (Hd : 0 < Zdigits2 m) by (destruct m; cbn; lia).
  rewrite !Qpow2_add. split.
  - apply Qmult_le_compat_r; [|apply Qlt_le_weak, Qpow2_pos].
    rewrite <- Qpow2_Z by lia. rewrite <- Zle_Qle. exact H1.
  - apply Qmult_lt_compat_r; [apply Qpow2_pos|].
    rewrite <- Qpow2_Z by lia. rewrite <- Zlt_Qlt. exact H2.
Qed.

Lemma denotes_exact (m : Z) : denotes (shr_record_of_loc m loc_Exact) (inject_Z m).
Proof. unfold denotes. cbn. reflexivity. Qed.

(** The product of two doubles is the exact product, rounded: when it lies
    in the normal range, the relative error is at most [u]. *)
Lemma mul_rounding (a b : float) :
  (2 ^ (-1022) <= value a)%Q -> (2 ^ (-1022) <= value b)%Q ->
  (2 ^ (-1021) <= value a * value b)%Q -> (value a * value b < 2 ^ 1023)%Q ->
  ((1 - u) * (value a * value b) <= value (a * b) /\
   value (a * b) <= (1 + u) * (value a * value b))%Q.
Proof.
  intros Ha Hb Hlo Hhi.
  destruct (value_normal a Ha) as (ma & ea & Ea & Hma & Hea & Va).
  destruct (value_normal b Hb) as (mb & eb & Eb & Hmb & Heb & Vb).
  assert (Hprod : (value a * value b ==
                   inject_Z (Zpos (ma * mb)) * 2 ^ (ea + eb))%Q).
  { rewrite Va, Vb, Pos2Z.inj_mul, inject_Z_mult, Qpow2_add. ring. }
  rewrite Hprod in Hlo, Hhi |- *.
  unfold value. rewrite mul_spec, Ea, Eb.
  unfold SF64mul. cbn [SFmul xorb].
  pose proof (Qpow2_digits (Zpos (ma * mb)) (ea + eb) ltac:(lia)) as [D1 D2].
  assert (Hd : 53 <= Zdigits2 (Zpos (ma * mb))).
  { pose proof (Zdigits2_bounds (Zpos (ma * mb)) ltac:(lia)) as [_ H2].
    destruct (Z.le_gt_cases 53 (Zdigits2 (Zpos (ma * mb)))) as [Hle|Hgt];
      [exact Hle|].
    pose proof (Z.pow_le_mono_r 2 (Zdigits2 (Zpos (ma * mb))) 52
                  ltac:(lia) ltac:(lia)) as Hpow.
    rewrite Pos2Z.inj_mul in H2, Hpow.
    assert (2 ^ 52 * 2 ^ 52 <= Zpos ma * Zpos mb)
      by (apply Z.mul_le_mono_nonneg; lia).
    change (2 ^ 52) with 4503599627370496 in *. lia. }
  assert (Hrange : -1021 <= Zdigits2 (Zpos (ma * mb)) + (ea + eb) <= 1023).
  { split.
    - assert (-1021 < Zdigits2 (Zpos (ma * mb)) + (ea + eb)); [|lia].
      apply Qpow2_lt_inv. eapply Qle_lt_trans; [exact Hlo|exact D2].
    - assert (Zdigits2 (Zpos (ma * mb)) - 1 + (ea + eb) < 1023); [|lia].
      apply Qpow2_lt_inv. eapply Qle_lt_trans; [exact D1|exact Hhi]. }
  destruct (binary_round_aux_normal false (Zpos (ma * mb)) (ea + eb) loc_Exact
              (inject_Z (Zpos (ma * mb))) ltac:(lia) Hd
              (denotes_exact _) Hrange) as (m & e & -> & H).
  cbn [SF2Q]. cbv zeta. exact H.
Qed.

(** Where a remainder puts the exact quotient *)
Lemma new_location_denotes (nb q r : Z) :
  0 < nb -> 0 <= r < nb ->
  denotes (shr_record_of_loc q (new_location nb r))
    (inject_Z q + inject_Z r / inject_Z nb).
Proof.
  intros Hnb Hr.
  assert (Hnb' : (0 < inject_Z nb)%Q)
    by (change 0%Q with (inject_Z 0); rewrite <- Zlt_Qlt; exact Hnb).
  assert (Hr0 : r <> 0 -> (0 < inject_Z r / inject_Z nb)%Q).
  { intros H. apply Qlt_shift_div_l; [exact Hnb'|]. rewrite Qmult_0_l.
    change 0%Q with (inject_Z 0). rewrite <- Zlt_Qlt. lia. }
  assert (Hr1 : (inject_Z r / inject_Z nb < 1)%Q).
  { apply Qlt_shift_div_r; [exact Hnb'|]. rewrite Qmult_1_l.
    rewrite <- Zlt_Qlt. lia. }
  assert (Hlt : 2 * r < nb -> (inject_Z r / inject_Z nb < 1 # 2)%Q).
  { intros H. apply Qlt_shift_div_r; [exact Hnb'|].
    assert (inject_Z (2 * r) < inject_Z nb)%Q by (rewrite <- Zlt_Qlt; exact H).
    rewrite inject_Z_mult in H0. change (inject_Z 2) with 2%Q in H0. lra. }
  assert (Hgt : nb < 2 * r -> (1 # 2 < inject_Z r / inject_Z nb)%Q).
  { intros H. apply Qlt_shift_div_l; [exact Hnb'|].
    assert (inject_Z nb < inject_Z (2 * r))%Q by (rewrite <- Zlt_Qlt; exact H).
    rewrite inject_Z_mult in H0. change (inject_Z 2) with 2%Q in H0. lra. }
  assert (Heq : 2 * r = nb -> (inject_Z r / inject_Z nb == 1 # 2)%Q).
  { intros H. rewrite <- H, inject_Z_mult. change (inject_Z 2) with 2%Q.
    field. intros E. rewrite <- H, inject_Z_mult in Hnb'.
    change (inject_Z 2) with 2%Q in Hnb'. lra. }
  unfold new_location.
  destruct (Z.even nb) eqn:Ev.
  - unfold new_location_even.
    destruct (Z.eqb_spec r 0) as [->|Hne].
    + unfold denotes. cbn. change (inject_Z 0) with 0%Q. field. lra.
    + specialize (Hr0 Hne).
      destruct (Z.compare_spec (2 * r) nb) as [H|H|H];
        unfold denotes; cbn [shr_record_of_loc shr_m shr_r shr_s].
      * rewrite (Heq H). reflexivity.
      * specialize (Hlt H). lra.
      * specialize (Hgt H). lra.
  - unfold new_location_odd.
    destruct (Z.eqb_spec r 0) as [->|Hne].
    + unfold denotes. cbn. change (inject_Z 0) with 0%Q. field. lra.
    + specialize (Hr0 Hne).
      assert (Hodd : 2 * r <> nb).
      { intros E. rewrite <- E, Z.even_mul in Ev. discriminate. }
      destruct (Z.compare_spec (2 * r + 1) nb) as [H|H|H];
        unfold denotes; cbn [shr_record_of_loc shr_m shr_r shr_s].
      * specialize (Hlt ltac:(lia)). lra.
      * specialize (Hlt ltac:(lia)). lra.
      * specialize (Hgt ltac:(lia)). lra.
Qed.

(** The quotient of two doubles is the exact quotient, rounded. *)
Lemma div_rounding (a b : float) :
  (2 ^ (-1022) <= value a)%Q -> (2 ^ (-1022) <= value b)%Q ->
  (2 ^ (-1021) <= value a / value b)%Q -> (value a / value b < 2 ^ 1023)%Q ->
  ((1 - u) * (value a / value b) <= value (a / b) /\
   value (a / b) <= (1 + u) * (value a / value b))%Q.
Proof.
  intros Ha Hb Hlo Hhi.
  destruct (value_normal a Ha) as (ma & ea & Ea & Hma & Hea & Va).
  destruct (value_normal b Hb) as (mb & eb & Eb & Hmb & Heb & Vb).
  set (q := Zpos ma * 2 ^ 53 / Zpos mb).
  set (r := (Zpos ma * 2 ^ 53) mod Zpos mb).
  set (ez := ea - eb - 53).
  pose proof (Z.div_mod (Zpos ma * 2 ^ 53) (Zpos mb) ltac:(lia)) as Hdm.
  pose proof (Z.mod_pos_bound (Zpos ma * 2 ^ 53) (Zpos mb) ltac:(lia)) as Hrb.
  fold q r in Hdm, Hrb.
  assert (Hmb' : (0 < inject_Z (Zpos mb))%Q)
    by (change 0%Q with (inject_Z 0); rewrite <- Zlt_Qlt; lia).
  set (x := (inject_Z q + inject_Z r / inject_Z (Zpos mb))%Q).
  assert (Hx : (x == inject_Z (Zpos ma) * 2 ^ 53 / inject_Z (Zpos mb))%Q).
  { unfold x. 
    assert (E : (inject_Z (Zpos ma) * 2 ^ 53 ==
                 inject_Z (Zpos mb) * inject_Z q + inject_Z r)%Q).
    { rewrite <- (Qpow2_Z 53) by lia.
      rewrite <- !inject_Z_mult, <- inject_Z_plus, <- Hdm. reflexivity. }
    rewrite E. field. lra. }
  assert (Hquot : (value a / value b == x * 2 ^ ez)%Q).
  { rewrite Hx, Va, Vb. unfold ez. rewrite !Qpow2_sub.
    field. pose proof (Qpow2_pos eb). pose proof (Qpow2_pos 53).
    repeat split; lra. }
  rewrite Hquot in Hlo, Hhi |- *.
  assert (Hq : 2 ^ 52 <= q).
  { unfold q. apply Z.div_le_lower_bound; [lia|].
    change (2 ^ 52) with 4503599627370496 in *.
    change (2 ^ 53) with 9007199254740992 in *. nia. }
  assert (Hxq : (inject_Z q <= x /\ x < inject_Z q + 1)%Q).
  { unfold x. split.
    - assert (0 <= inject_Z r / inject_Z (Zpos mb))%Q; [|lra].
      apply Qle_shift_div_l; [exact Hmb'|]. rewrite Qmult_0_l.
      change 0%Q with (inject_Z 0). rewrite <- Zle_Qle. lia.
    - assert (inject_Z r / inject_Z (Zpos mb) < 1)%Q; [|lra].
      apply Qlt_shift_div_r; [exact Hmb'|]. rewrite Qmult_1_l.
      rewrite <- Zlt_Qlt. lia. }
  pose proof (Zdigits2_bounds q ltac:(lia)) as Hdq.
  assert (Hd : 53 <= Zdigits2 q).
  { destruct (Z.le_gt_cases 53 (Zdigits2 q)) as [Hle|Hgt]; [exact Hle|].
    pose proof (Z.pow_le_mono_r 2 (Zdigits2 q) 52 ltac:(lia) ltac:(lia)). lia. }
  assert (Hrange : -1021 <= Zdigits2 q + ez <= 1023).
  { pose proof (Qpow2_pos ez) as Hp. split.
    - assert (-1021 < Zdigits2 q + ez); [|lia].
      apply Qpow2_lt_inv. eapply Qle_lt_trans; [exact Hlo|].
      rewrite Qpow2_add. apply Qmult_lt_compat_r; [exact Hp|].
      eapply Qlt_le_trans; [exact (proj2 Hxq)|].
      rewrite <- Qpow2_Z by lia.
      change 1%Q with (inject_Z 1). rewrite <- inject_Z_plus, <- Zle_Qle. lia.
    - assert (Zdigits2 q - 1 + ez < 1023); [|lia].
      apply Qpow2_lt_inv. eapply Qle_lt_trans; [|exact Hhi].
      rewrite Qpow2_add. apply Qmult_le_compat_r; [|lra].
      eapply Qle_trans; [|exact (proj1 Hxq)].
      rewrite <- Qpow2_Z by lia. rewrite <- Zle_Qle. lia. }
  assert (Hee : -1021 <= ea - eb).
  { assert (-1021 < ea - eb + 1); [|lia].
    apply Qpow2_lt_inv. eapply Qle_lt_trans; [exact Hlo|].
    unfold ez. replace (ea - eb + 1) with (54 + (ea - eb - 53)) by lia.
    rewrite (Qpow2_add 54). apply Qmult_lt_compat_r; [apply Qpow2_pos|].
    eapply Qlt_le_trans; [exact (proj2 Hxq)|].
    rewrite <- Qpow2_Z by lia.
    change 1%Q with (inject_Z 1). rewrite <- inject_Z_plus, <- Zle_Qle.
    assert (q < 2 ^ 54); [|lia].
    unfold q. apply Z.div_lt_upper_bound; [lia|].
    change (2 ^ 52) with 4503599627370496 in *.
    change (2 ^ 53) with 9007199254740992 in *.
    change (2 ^ 54) with 18014398509481984. nia. }
  unfold value. rewrite div_spec, Ea, Eb.
  unfold SF64div. cbn [SFdiv xorb].
  assert (Hcore : SFdiv_core_binary prec emax (Zpos ma) ea (Zpos mb) eb =
                  (q, ez, new_location (Zpos mb) r)).
  { unfold SFdiv_core_binary.
    rewrite (Zdigits2_unique (Zpos ma) 53) by lia.
    rewrite (Zdigits2_unique (Zpos mb) 53) by lia.
    replace (53 + ea - (53 + eb)) with (ea - eb) by lia.
    rewrite fexp_normal by lia.
    rewrite Z.min_l by lia. fold ez.
    replace (ea - eb - ez) with 53 by (unfold ez; lia).
    rewrite Z.shiftl_mul_pow2 by lia.
    unfold q, r, Z.div, Z.modulo.
    destruct (Z.div_eucl (Zpos ma * 2 ^ 53) (Zpos mb)) as [q' r'].
    reflexivity. }
  rewrite Hcore.
  destruct (binary_round_aux_normal false q ez (new_location (Zpos mb) r) x
              ltac:(lia) Hd
              (new_location_denotes (Zpos mb) q r ltac:(lia) Hrb) Hrange)
    as (m & e & -> & H).
  cbn [SF2Q]. cbv zeta. exact H.
Qed.

Lemma is_nan_normal (f : float) :
  (2 ^ (-1022) <= value f)%Q -> is_nan f = false.
Proof.
  intros H. destruct (value_normal f H) as (m & e & E & _).
  unfold is_nan. rewrite eqb_spec, E. unfold SFeqb, SFcompare.
  rewrite Z.compare_refl, Pos.compare_cont_refl. reflexivity.
Qed.

Lemma ltb_normal (a b : float) :
  (2 ^ (-1022) <= value a)%Q -> (2 ^ (-1022) <= value b)%Q ->
  if PrimFloat.ltb a b then (value a < value b)%Q else (value b <= value a)%Q.
Proof.
  intros Ha Hb.
  destruct (value_normal a Ha) as (ma & ea & Ea & Hma & Hea & Va).
  destruct (value_normal b Hb) as (mb & eb & Eb & Hmb & Heb & Vb).
  rewrite ltb_spec, Ea, Eb. unfold SFltb, SFcompare.
  assert (Hexp : forall (m1 m2 : positive) (e1 e2 : Z),
             2 ^ 52 <= Zpos m1 < 2 ^ 53 -> 2 ^ 52 <= Zpos m2 < 2 ^ 53 ->
             e1 < e2 ->
             (inject_Z (Zpos m1) * 2 ^ e1 < inject_Z (Zpos m2) * 2 ^ e2)%Q).
  { intros m1 m2 e1 e2 H1 H2 He.
    apply Qlt_le_trans with (inject_Z (2 ^ 53) * 2 ^ e1)%Q.
    - apply Qmult_lt_compat_r; [apply Qpow2_pos|]. rewrite <- Zlt_Qlt. lia.
    - apply Qle_trans with (inject_Z (2 ^ 52) * 2 ^ (e1 + 1))%Q.
      + rewrite Qpow2_succ. change (inject_Z (2 ^ 53)) with (2 * inject_Z (2 ^ 52))%Q.
        apply Qle_lteq. right. ring.
      + apply Qle_trans with (inject_Z (2 ^ 52) * 2 ^ e2)%Q.
        * apply Qmult_le_l; [reflexivity|]. apply Qpow2_le. lia.
        * apply Qmult_le_compat_r; [|apply Qlt_le_weak, Qpow2_pos].
          rewrite <- Zle_Qle. lia. }
  destruct (Z.compare_spec ea eb) as [He|He|He].
  - subst eb. change (Pos.compare_cont Eq ma mb) with (Pos.compare ma mb).
    destruct (Pos.compare_spec ma mb) as [Hm|Hm|Hm]; rewrite Va, Vb.
    + subst mb. apply Qle_refl.
    + apply Qmult_lt_compat_r; [apply Qpow2_pos|]. rewrite <- Zlt_Qlt. lia.
    + apply Qmult_le_compat_r; [|apply Qlt_le_weak, Qpow2_pos].
      rewrite <- Zle_Qle. lia.
  - rewrite Va, Vb. apply Hexp; assumption.
  - rewrite Va, Vb. apply Qlt_le_weak. apply Hexp; assumption.
Qed.

Lemma Math_min_normal (a b : float) :
  (2 ^ (-1022) <= value a)%Q -> (2 ^ (-1022) <= value b)%Q ->
  (Math_min a b = a \/ Math_min a b = b) /\
  (value (Math_min a b) <= value a /\ value (Math_min a b) <= value b)%Q.
Proof.
  intros Ha Hb. unfold Math_min.
  rewrite (is_nan_normal a Ha), (is_nan_normal b Hb). cbn [orb].
  pose proof (ltb_normal a b Ha Hb) as Hab.
  pose proof (ltb_normal b a Hb Ha) as Hba.
  destruct (PrimFloat.ltb a b).
  - split; [left; reflexivity|]. lra.
  - destruct (PrimFloat.ltb b a).
    + split; [right; reflexivity|]. lra.
    + destruct (get_sign a).
      * split; [left; reflexivity|]. lra.
      * split; [right; reflexivity|]. lra.
Qed.

Lemma Math_max_normal (a b : float) :
  (2 ^ (-1022) <= value a)%Q -> (2 ^ (-1022) <= value b)%Q ->
  (Math_max a b = a \/ Math_max a b = b) /\
  (value a <= value (Math_max a b) /\ value b <= value (Math_max a b))%Q.
Proof.
  intros Ha Hb. unfold Math_max.
  rewrite (is_nan_normal a Ha), (is_nan_normal b Hb). cbn [orb].
  pose proof (ltb_normal a b Ha Hb) as Hab.
  pose proof (ltb_normal b a Hb Ha) as Hba.
  destruct (PrimFloat.ltb b a).
  - split; [left; reflexivity|]. lra.
  - destruct (PrimFloat.ltb a b).
    + split; [right; reflexivity|]. lra.
    + destruct (get_sign a).
      * split; [right; reflexivity|]. lra.
      * split; [left; reflexivity|]. lra.
Qed.

Lemma within_normal (k : Z) (f : float) :
  k <= 1022 -> within k f -> (2 ^ (-1022) <= value f)%Q.
Proof.
  intros Hk [H _]. eapply Qle_trans; [|exact H]. apply Qpow2_le. lia.
Qed.

Lemma within_pos (k : Z) (f : float) : within k f -> (0 < value f)%Q.
Proof.
  intros [H _]. eapply Qlt_le_trans; [apply (Qpow2_pos (- k))|exact H].
Qed.

Lemma u_bounds : (0 < u /\ 1 # 2 <= 1 - u /\ 1 + u <= 2)%Q.
Proof. unfold u. repeat split; reflexivity || discriminate. Qed.

(** A product of doubles within range: its relative error and its range. *)
Lemma mul_within (j k : Z) (a b : float) :
  0 <= j -> 0 <= k -> j + k <= 1020 ->
  within j a -> within k b ->
  ((1 - u) * (value a * value b) <= value (a * b) /\
   value (a * b) <= (1 + u) * (value a * value b))%Q /\
  within (j + k + 1) (a * b).
Proof.
  intros Hj Hk Hjk Ha Hb.
  pose proof (within_pos _ _ Ha) as Pa. pose proof (within_pos _ _ Hb) as Pb.
  destruct Ha as [La Ua], Hb as [Lb Ub].
  assert (Lab : (2 ^ (- (j + k)) <= value a * value b)%Q).
  { replace (- (j + k)) with (- j + - k) by lia. rewrite Qpow2_add.
    apply Qmult_le_compat_nonneg; split;
      (apply Qlt_le_weak, Qpow2_pos) || assumption. }
  assert (Uab : (value a * value b <= 2 ^ (j + k))%Q).
  { rewrite Qpow2_add.
    apply Qmult_le_compat_nonneg; split; (apply Qlt_le_weak; assumption) || assumption. }
  assert (H : ((1 - u) * (value a * value b) <= value (a * b) /\
               value (a * b) <= (1 + u) * (value a * value b))%Q).
  { apply mul_rounding.
    - eapply Qle_trans; [|exact La]. apply Qpow2_le. lia.
    - eapply Qle_trans; [|exact Lb]. apply Qpow2_le. lia.
    - eapply Qle_trans; [|exact Lab]. apply Qpow2_le. lia.
    - eapply Qle_lt_trans; [exact Uab|]. apply Qpow2_lt. lia. }
  split; [exact H|].
  pose proof u_bounds as (U0 & U1 & U2).
  pose proof (Qpow2_pos (- (j + k))) as P1.
  split.
  - replace (- (j + k + 1)) with (- (j + k) - 1) by lia.
    rewrite Qpow2_sub. change (2 ^ 1)%Q with 2%Q.
    apply Qle_trans with ((1 # 2) * (value a * value b))%Q;
      [|apply Qle_trans with ((1 - u) * (value a * value b))%Q; [|exact (proj1 H)]].
    + unfold Qdiv. rewrite Qmult_comm. apply Qmult_le_l; [reflexivity|exact Lab].
    + apply Qmult_le_compat_r; [exact U1|lra].
  - rewrite Qpow2_succ.
    apply Qle_trans with ((1 + u) * (value a * value b))%Q; [exact (proj2 H)|].
    apply Qle_trans with (2 * (value a * value b))%Q.
    + apply Qmult_le_compat_r; [exact U2|lra].
    + apply Qmult_le_l; [reflexivity|exact Uab].
Qed.

(** A quotient of doubles within range. *)
Lemma div_within (j k : Z) (a b : float) :
  0 <= j -> 0 <= k -> j + k <= 1020 ->
  within j a -> within k b ->
  ((1 - u) * value a <= value (a / b) * value b /\
   value (a / b) * value b <= (1 + u) * value a)%Q /\
  within (j + k + 1) (a / b).
Proof.
  intros Hj Hk Hjk Ha Hb.
  pose proof (within_pos _ _ Ha) as Pa. pose proof (within_pos _ _ Hb) as Pb.
  destruct Ha as [La Ua], Hb as [Lb Ub].
  assert (Pi : (0 < / value b)%Q) by (apply Qinv_lt_0_compat; exact Pb).
  assert (Li : (2 ^ (- k) <= / value b)%Q).
  { rewrite Qpower_opp. apply Qle_shift_inv_l; [exact Pb|].
    rewrite Qmult_comm. apply Qle_shift_div_r; [apply Qpow2_pos|].
    rewrite Qmult_1_l. exact Ub. }
  assert (Ui : (/ value b <= 2 ^ k)%Q).
  { apply Qle_shift_inv_r; [exact Pb|].
    apply Qle_trans with (2 ^ k * 2 ^ (- k))%Q.
    - rewrite <- Qpow2_add. replace (k + - k) with 0 by lia. apply Qle_refl.
    - apply Qmult_le_l; [apply Qpow2_pos|exact Lb]. }
  assert (Lab : (2 ^ (- (j + k)) <= value a / value b)%Q).
  { replace (- (j + k)) with (- j + - k) by lia. rewrite Qpow2_add.
    apply Qmult_le_compat_nonneg; split;
      (apply Qlt_le_weak, Qpow2_pos) || assumption. }
  assert (Uab : (value a / value b <= 2 ^ (j + k))%Q).
  { rewrite Qpow2_add.
    apply Qmult_le_compat_nonneg; split; (apply Qlt_le_weak; assumption) || assumption. }
  assert (H : ((1 - u) * (value a / value b) <= value (a / b) /\
               value (a / b) <= (1 + u) * (value a / value b))%Q).
  { apply div_rounding.
    - eapply Qle_trans; [|exact La]. apply Qpow2_le. lia.
    - eapply Qle_trans; [|exact Lb]. apply Qpow2_le. lia.
    - eapply Qle_trans; [|exact Lab]. apply Qpow2_le. lia.
    - eapply Qle_lt_trans; [exact Uab|]. apply Qpow2_lt. lia. }
  pose proof u_bounds as (U0 & U1 & U2).
  assert (Hc : (value a / value b * value b == value a)%Q) by (field; lra).
  split; [split|split].
  - apply Qle_trans with ((1 - u) * (value a / value b) * value b)%Q.
    + rewrite <- Qmult_assoc, Hc. apply Qle_refl.
    + apply Qmult_le_compat_r; [exact (proj1 H)|lra].
  - apply Qle_trans with ((1 + u) * (value a / value b) * value b)%Q.
    + apply Qmult_le_compat_r; [exact (proj2 H)|lra].
    + rewrite <- Qmult_assoc, Hc. apply Qle_refl.
  - replace (- (j + k + 1)) with (- (j + k) - 1) by lia.
    rewrite Qpow2_sub. change (2 ^ 1)%Q with 2%Q.
    pose proof (Qpow2_pos (- (j + k))) as P1.
    apply Qle_trans with ((1 # 2) * (value a / value b))%Q;
      [|apply Qle_trans with ((1 - u) * (value a / value b))%Q; [|exact (proj1 H)]].
    + unfold Qdiv at 1. rewrite Qmult_comm. apply Qmult_le_l; [reflexivity|exact Lab].
    + apply Qmult_le_compat_r; [exact U1|]. eapply Qle_trans; [|exact Lab]. lra.
  - rewrite Qpow2_succ.
    apply Qle_trans with ((1 + u) * (value a / value b))%Q; [exact (proj2 H)|].
    apply Qle_trans with (2 * (value a / value b))%Q.
    + apply Qmult_le_compat_r; [exact U2|]. 
      pose proof (Qpow2_pos (- (j + k))) as P1. eapply Qle_trans; [|exact Lab]. lra.
    + apply Qmult_le_l; [reflexivity|exact Uab].
Qed.

Lemma within_weaken (j k : Z) (f : float) : j <= k -> within j f -> within k f.
Proof.
  intros H [L U]. split.
  - eapply Qle_trans; [|exact L]. apply Qpow2_le. lia.
  - eapply Qle_trans; [exact U|]. apply Qpow2_le. lia.
Qed.

(** Fit: the image scaled by the smaller of the two quotients. *)
Lemma fit_values (w h uw uh : float) :
  within 250 w -> within 250 h -> within 250 uw -> within 250 uh ->
  let s := Math_min (uw / w) (uh / h) in
  (value (w * s) <= (1 + u) * (1 + u) * value uw /\
   value (h * s) <= (1 + u) * (1 + u) * value uh /\
   (1 - u) * (value (w * s) * value h) <= (1 + u) * (value (h * s) * value w) /\
   (1 - u) * (value (h * s) * value w) <= (1 + u) * (value (w * s) * value h))%Q.
Proof.
  intros Hw Hh Huw Huh s.
  pose proof (within_pos _ _ Hw) as Pw. pose proof (within_pos _ _ Hh) as Ph.
  pose proof u_bounds as (U0 & U1 & U2).
  destruct (div_within 250 250 uw w ltac:(lia) ltac:(lia) ltac:(lia) Huw Hw)
    as [[X1 X2] Rx].
  destruct (div_within 250 250 uh h ltac:(lia) ltac:(lia) ltac:(lia) Huh Hh)
    as [[Y1 Y2] Ry].
  change (250 + 250 + 1) with 501 in Rx, Ry.
  destruct (Math_min_normal (uw / w) (uh / h)
              (within_normal 501 _ ltac:(lia) Rx)
              (within_normal 501 _ ltac:(lia) Ry))
    as [Hs [Sx Sy]].
  fold s in Hs, Sx, Sy.
  assert (Rs : within 501 s) by (destruct Hs as [-> | ->]; assumption).
  pose proof (within_pos _ _ Rs) as Ps.
  destruct (mul_within 250 501 w s ltac:(lia) ltac:(lia) ltac:(lia) Hw Rs)
    as [[A1 A2] _].
  destruct (mul_within 250 501 h s ltac:(lia) ltac:(lia) ltac:(lia) Hh Rs)
    as [[B1 B2] _].
  assert (Wx : (value w * value s <= value (uw / w) * value w)%Q).
  { rewrite (Qmult_comm (value (uw / w))). apply Qmult_le_l; assumption. }
  assert (Hy : (value h * value s <= value (uh / h) * value h)%Q).
  { rewrite (Qmult_comm (value (uh / h))). apply Qmult_le_l; assumption. }
  assert (AH : (value (w * s) * value h <= (1 + u) * (value w * value s) * value h)%Q)
    by (apply Qmult_le_compat_r; lra).
  assert (AH' : ((1 - u) * (value w * value s) * value h <= value (w * s) * value h)%Q)
    by (apply Qmult_le_compat_r; lra).
  assert (BW : (value (h * s) * value w <= (1 + u) * (value h * value s) * value w)%Q)
    by (apply Qmult_le_compat_r; lra).
  assert (BW' : ((1 - u) * (value h * value s) * value w <= value (h * s) * value w)%Q)
    by (apply Qmult_le_compat_r; lra).
  set (A := value (w * s)) in *. set (B := value (h * s)) in *.
  set (P := (value w * value s * value h)%Q).
  assert (E1 : ((1 + u) * (value w * value s) * value h == (1 + u) * P)%Q)
    by (unfold P; ring).
  assert (E2 : ((1 - u) * (value w * value s) * value h == (1 - u) * P)%Q)
    by (unfold P; ring).
  assert (E3 : ((1 + u) * (value h * value s) * value w == (1 + u) * P)%Q)
    by (unfold P; ring).
  assert (E4 : ((1 - u) * (value h * value s) * value w == (1 - u) * P)%Q)
    by (unfold P; ring).
  rewrite E1 in AH. rewrite E2 in AH'. rewrite E3 in BW. rewrite E4 in BW'.
  assert (PP : (0 <= P)%Q).
  { unfold P. apply Qlt_le_weak.
    repeat apply Qmult_lt_0_compat; assumption. }
  clearbody A B P. unfold u in *. repeat split.
  - lra.
  - lra.
  - lra.
  - lra.
Qed.

(** Crop: the image scaled by the larger of the two quotients. *)
Lemma crop_values (w h uw uh : float) :
  within 250 w -> within 250 h -> within 250 uw -> within 250 uh ->
  let s := Math_max (uw / w) (uh / h) in
  ((1 - u) * (1 - u) * value uw <= value (w * s) /\
   (1 - u) * (1 - u) * value uh <= value (h * s) /\
   (1 - u) * (value (w * s) * value h) <= (1 + u) * (value (h * s) * value w) /\
   (1 - u) * (value (h * s) * value w) <= (1 + u) * (value (w * s) * value h))%Q.
Proof.
  intros Hw Hh Huw Huh s.
  pose proof (within_pos _ _ Hw) as Pw. pose proof (within_pos _ _ Hh) as Ph.
  pose proof u_bounds as (U0 & U1 & U2).
  destruct (div_within 250 250 uw w ltac:(lia) ltac:(lia) ltac:(lia) Huw Hw)
    as [[X1 X2] Rx].
  destruct (div_within 250 250 uh h ltac:(lia) ltac:(lia) ltac:(lia) Huh Hh)
    as [[Y1 Y2] Ry].
  change (250 + 250 + 1) with 501 in Rx, Ry.
  destruct (Math_max_normal (uw / w) (uh / h)
              (within_normal 501 _ ltac:(lia) Rx)
              (within_normal 501 _ ltac:(lia) Ry))
    as [Hs [Sx Sy]].
  fold s in Hs, Sx, Sy.
  assert (Rs : within 501 s) by (destruct Hs as [-> | ->]; assumption).
  pose proof (within_pos _ _ Rs) as Ps.
  destruct (mul_within 250 501 w s ltac:(lia) ltac:(lia) ltac:(lia) Hw Rs)
    as [[A1 A2] _].
  destruct (mul_within 250 501 h s ltac:(lia) ltac:(lia) ltac:(lia) Hh Rs)
    as [[B1 B2] _].
  assert (Wx : (value (uw / w) * value w <= value w * value s)%Q).
  { rewrite (Qmult_comm (value (uw / w))). apply Qmult_le_l; assumption. }
  assert (Hy : (value (uh / h) * value h <= value h * value s)%Q).
  { rewrite (Qmult_comm (value (uh / h))). apply Qmult_le_l; assumption. }
  assert (AH : (value (w * s) * value h <= (1 + u) * (value w * value s) * value h)%Q)
    by (apply Qmult_le_compat_r; lra).
  assert (AH' : ((1 - u) * (value w * value s) * value h <= value (w * s) * value h)%Q)
    by (apply Qmult_le_compat_r; lra).
  assert (BW : (value (h * s) * value w <= (1 + u) * (value h * value s) * value w)%Q)
    by (apply Qmult_le_compat_r; lra).
  assert (BW' : ((1 - u) * (value h * value s) * value w <= value (h * s) * value w)%Q)
    by (apply Qmult_le_compat_r; lra).
  set (A := value (w * s)) in *. set (B := value (h * s)) in *.
  set (P := (value w * value s * value h)%Q).
  assert (E1 : ((1 + u) * (value w * value s) * value h == (1 + u) * P)%Q)
    by (unfold P; ring).
  assert (E2 : ((1 - u) * (value w * value s) * value h == (1 - u) * P)%Q)
    by (unfold P; ring).
  assert (E3 : ((1 + u) * (value h * value s) * value w == (1 + u) * P)%Q)
    by (unfold P; ring).
  assert (E4 : ((1 - u) * (value h * value s) * value w == (1 - u) * P)%Q)
    by (unfold P; ring).
  rewrite E1 in AH. rewrite E2 in AH'. rewrite E3 in BW. rewrite E4 in BW'.
  assert (PP : (0 <= P)%Q).
  { unfold P. apply Qlt_le_weak.
    repeat apply Qmult_lt_0_compat; assumption. }
  clearbody A B P. unfold u in *. repeat split; lra.
Qed.

(** The scaled width and height are positive, hence finite. *)
Lemma fit_positive (w h uw uh : float) :
  within 250 w -> within 250 h -> within 250 uw -> within 250 uh ->
  let s := Math_min (uw / w) (uh / h) in
  (0 < value (w * s) /\ 0 < value (h * s))%Q.
Proof.
  intros Hw Hh Huw Huh s.
  destruct (div_within 250 250 uw w ltac:(lia) ltac:(lia) ltac:(lia) Huw Hw)
    as [_ Rx].
  destruct (div_within 250 250 uh h ltac:(lia) ltac:(lia) ltac:(lia) Huh Hh)
    as [_ Ry].
  change (250 + 250 + 1) with 501 in Rx, Ry.
  destruct (Math_min_normal (uw / w) (uh / h)
              (within_normal 501 _ ltac:(lia) Rx)
              (within_normal 501 _ ltac:(lia) Ry))
    as [Hs _].
  fold s in Hs.
  assert (Rs : within 501 s) by (destruct Hs as [-> | ->]; assumption).
  destruct (mul_within 250 501 w s ltac:(lia) ltac:(lia) ltac:(lia) Hw Rs)
    as [_ Rw].
  destruct (mul_within 250 501 h s ltac:(lia) ltac:(lia) ltac:(lia) Hh Rs)
    as [_ Rh].
  split; [exact (within_pos _ _ Rw)|exact (within_pos _ _ Rh)].
Qed.

Lemma crop_positive (w h uw uh : float) :
  within 250 w -> within 250 h -> within 250 uw -> within 250 uh ->
  let s := Math_max (uw / w) (uh / h) in
  (0 < value (w * s) /\ 0 < value (h * s))%Q.
Proof.
  intros Hw Hh Huw Huh s.
  destruct (div_within 250 250 uw w ltac:(lia) ltac:(lia) ltac:(lia) Huw Hw)
    as [_ Rx].
  destruct (div_within 250 250 uh h ltac:(lia) ltac:(lia) ltac:(lia) Huh Hh)
    as [_ Ry].
  change (250 + 250 + 1) with 501 in Rx, Ry.
  destruct (Math_max_normal (uw / w) (uh / h)
              (within_normal 501 _ ltac:(lia) Rx)
              (within_normal 501 _ ltac:(lia) Ry))
    as [Hs _].
  fold s in Hs.
  assert (Rs : within 501 s) by (destruct Hs as [-> | ->]; assumption).
  destruct (mul_within 250 501 w s ltac:(lia) ltac:(lia) ltac:(lia) Hw Rs)
    as [_ Rw].
  destruct (mul_within 250 501 h s ltac:(lia) ltac:(lia) ltac:(lia) Hh Rs)
    as [_ Rh].
  split; [exact (within_pos _ _ Rw)|exact (within_pos _ _ Rh)].
Qed.

Lemma fit_touches (w h uw uh : float) :
  within 250 w -> within 250 h -> within 250 uw -> within 250 uh ->
  let s := Math_min (uw / w) (uh / h) in
  ((1 - u) * (1 - u) * value uw <= value (w * s) \/
   (1 - u) * (1 - u) * value uh <= value (h * s))%Q.
Proof.
  intros Hw Hh Huw Huh s.
  pose proof u_bounds as (U0 & U1 & U2).
  destruct (div_within 250 250 uw w ltac:(lia) ltac:(lia) ltac:(lia) Huw Hw)
    as [[X1 X2] Rx].
  destruct (div_within 250 250 uh h ltac:(lia) ltac:(lia) ltac:(lia) Huh Hh)
    as [[Y1 Y2] Ry].
  change (250 + 250 + 1) with 501 in Rx, Ry.
  destruct (Math_min_normal (uw / w) (uh / h)
              (within_normal 501 _ ltac:(lia) Rx)
              (within_normal 501 _ ltac:(lia) Ry))
    as [[E|E] _]; unfold s; rewrite E.
  - left.
    destruct (mul_within 250 501 w (uw / w) ltac:(lia) ltac:(lia) ltac:(lia) Hw Rx)
      as [[A1 _] _].
    rewrite (Qmult_comm (value w)) in A1. unfold u in *. lra.
  - right.
    destruct (mul_within 250 501 h (uh / h) ltac:(lia) ltac:(lia) ltac:(lia) Hh Ry)
      as [[B1 _] _].
    rewrite (Qmult_comm (value h)) in B1. unfold u in *. lra.
Qed.

Lemma crop_touches (w h uw uh : float) :
  within 250 w -> within 250 h -> within 250 uw -> within 250 uh ->
  let s := Math_max (uw / w) (uh / h) in
  (value (w * s) <= (1 + u) * (1 + u) * value uw \/
   value (h * s) <= (1 + u) * (1 + u) * value uh)%Q.
Proof.
  intros Hw Hh Huw Huh s.
  pose proof u_bounds as (U0 & U1 & U2).
  destruct (div_within 250 250 uw w ltac:(lia) ltac:(lia) ltac:(lia) Huw Hw)
    as [[X1 X2] Rx].
  destruct (div_within 250 250 uh h ltac:(lia) ltac:(lia) ltac:(lia) Huh Hh)
    as [[Y1 Y2] Ry].
  change (250 + 250 + 1) with 501 in Rx, Ry.
  destruct (Math_max_normal (uw / w) (uh / h)
              (within_normal 501 _ ltac:(lia) Rx)
              (within_normal 501 _ ltac:(lia) Ry))
    as [[E|E] _]; unfold s; rewrite E.
  - left.
    destruct (mul_within 250 501 w (uw / w) ltac:(lia) ltac:(lia) ltac:(lia) Hw Rx)
      as [[_ A2] _].
    rewrite (Qmult_comm (value w)) in A2. unfold u in *. lra.
  - right.
    destruct (mul_within 250 501 h (uh / h) ltac:(lia) ltac:(lia) ltac:(lia) Hh Ry)
      as [[_ B2] _].
    rewrite (Qmult_comm (value h)) in B2. unfold u in *. lra.
Qed.

End Rounding.

Set Implicit Arguments.

Section LayoutTheorems.

Context {num : Type} {N : JsNumber num}.

(** C8.  Whatever the fill mode, the margins and the image dimensions, the
    [pageWidth] and [pageHeight] of the layout returned for a registered
    page format are the width and height stored in the page-format table,
    not the usable area. *)
Theorem calculateOptimalLayout_echoes_page (c : Config num) (w h : num)
    (k : string) (p : PageFormat num) :
  own_property k pageFormats = Some p ->
  exists r, calculateOptimalLayout c w h k = inr r /\
            pageWidth r = JNum (pf_width p) /\
            pageHeight r = JNum (pf_height p).
Proof.
  intros Hk.
  destruct (calculateOptimalLayout_registered c w h k Hk) as (r & Hr & Hw & Hh & _).
  exists r. auto.
Qed.

(** C3.  For a registered page format and any image dimensions.  In
    stretch mode the uniform margin is the [minimumMargin] setting (0 when
    that is 0 or NaN; the [margin] setting is not read): the rectangle is
    the page minus twice that margin in each direction, placed at
    (margin, margin).  In custom mode the margins are the [customMargin]
    setting (top 10, bottom 10, left 0, right 0 when it is absent): the
    rectangle is the page minus the left and right, respectively top and
    bottom, margins, placed at (left, top). *)
Theorem stretch_and_custom_fill_usable_area (c : Config num) (w h : num)
    (k : string) (p : PageFormat num) :
  own_property k pageFormats = Some p ->
  (cfg_fillMode c = "stretch" ->
   let margin :=
     if nfalsy (cfg_minimumMargin c) then ncents 0 else cfg_minimumMargin c in
   exists r, calculateOptimalLayout c w h k = inr r /\
     width r = nsub (pf_width p) (nmul margin (ncents 200)) /\
     height r = nsub (pf_height p) (nmul margin (ncents 200)) /\
     x r = margin /\
     y r = margin) /\
  (cfg_fillMode c = "custom" ->
   let m :=
     match cfg_customMargin c with
     | Some m => m
     | None => {| top := ncents 1000; bottom := ncents 1000;
                  left := ncents 0; right := ncents 0 |}
     end in
   exists r, calculateOptimalLayout c w h k = inr r /\
     width r = nsub (nsub (pf_width p) (left m)) (right m) /\
     height r = nsub (nsub (pf_height p) (top m)) (bottom m) /\
     x r = left m /\
     y r = top m).
Proof.
  intros Hk. unfold calculateOptimalLayout.
  rewrite (pageFormats_get_own _ Hk). split.
  - intros ->. cbn. eexists. split; [reflexivity|]. cbn. auto.
  - intros ->. cbn. eexists. split; [reflexivity|]. cbn. auto.
Qed.

(** C10.  A fill mode other than "custom", "stretch" and "crop" takes the
    branch of "fit": the call fails on the same page formats and otherwise
    returns the layout of fit mode, the [fillMode] field repeating the
    configured string.  That layout is, for a registered page format: the
    image scaled by the smaller of usableWidth / imgWidth and
    usableHeight / imgHeight (the usable area being the page minus twice
    the [minimumMargin] setting), placed at margin + (usable - final) / 2
    in each direction. *)
Theorem default_fill_mode_is_fit (c : Config num) (w h : num) (k mode : string) :
  mode <> "custom" -> mode <> "stretch" -> mode <> "crop" ->
  calculateOptimalLayout (with_fillMode mode c) w h k =
    match calculateOptimalLayout (with_fillMode "fit" c) w h k with
    | inl e => inl e
    | inr r => inr (relabel mode r)
    end /\
  forall p : PageFormat num,
    own_property k pageFormats = Some p ->
    let margin :=
      if nfalsy (cfg_minimumMargin c) then ncents 0 else cfg_minimumMargin c in
    let usableW := nsub (pf_width p) (nmul margin (ncents 200)) in
    let usableH := nsub (pf_height p) (nmul margin (ncents 200)) in
    let scale := nmin (ndiv usableW w) (ndiv usableH h) in
    calculateOptimalLayout (with_fillMode mode c) w h k =
      inr {| width := nmul w scale;
             height := nmul h scale;
             x := nadd margin (ndiv (nsub usableW (nmul w scale)) (ncents 200));
             y := nadd margin (ndiv (nsub usableH (nmul h scale)) (ncents 200));
             pageWidth := JNum (pf_width p);
             pageHeight := JNum (pf_height p);
             fillMode := mode |}.
Proof.
  intros Hc Hs Hr.
  apply String.eqb_neq in Hc, Hs, Hr. split.
  - unfold calculateOptimalLayout.
    destruct (pageFormats_get k) as [page|]; [|reflexivity].
    cbn [cfg_fillMode with_fillMode]. rewrite Hc, Hs, Hr. reflexivity.
  - intros p Hk. unfold calculateOptimalLayout.
    rewrite (pageFormats_get_own _ Hk).
    cbn [cfg_fillMode with_fillMode]. rewrite Hc, Hs, Hr. reflexivity.
Qed.

End LayoutTheorems.

Set Warnings "-inexact-float".

Lemma stretch_and_custom_fill_usable_area_witness :
  let p := {| pf_width := Float64.cents 61200; pf_height := Float64.cents 79200 |} in
  let cs := Samples.config "Letter" "stretch" (Float64.cents 1000) in
  let cc := Samples.config "Letter" "custom" (Float64.cents 1000) in
  let w := Float64.cents 80000 in
  let h := Float64.cents 60000 in
  (own_property "Letter" pageFormats = Some p /\
   cfg_fillMode cs = "stretch" /\ cfg_fillMode cc = "custom") /\
  (exists r,
     calculateOptimalLayout cs w h "Letter" = inr r /\
     width r = (612 - 10 * 2)%float /\
     height r = (792 - 10 * 2)%float /\
     x r = 10%float /\
     y r = 10%float) /\
  (exists r,
     calculateOptimalLayout cc w h "Letter" = inr r /\
     width r = (612 - 0 - 0)%float /\
     height r = (792 - 15 - 15)%float /\
     x r = 0%float /\
     y r = 15%float) /\
  calculateOptimalLayout cs w h "Letter" =
    inr {| width := 592%float; height := 772%float;
           x := 10%float; y := 10%float;
           pageWidth := JNum 612%float; pageHeight := JNum 792%float;
           fillMode := "stretch" |} /\
  calculateOptimalLayout cc w h "Letter" =
    inr {| width := 612%float; height := 762%float;
           x := 0%float; y := 15%float;
           pageWidth := JNum 612%float; pageHeight := JNum 792%float;
           fillMode := "custom" |}.
Proof.
  intros p cs cc w h.
  assert (Hk : own_property "Letter" pageFormats = Some p) by reflexivity.
  split; [repeat split|]. split; [|split; [|split]].
  - exact (proj1 (@stretch_and_custom_fill_usable_area float _ cs w h
                    "Letter" p Hk) eq_refl).
  - exact (proj2 (@stretch_and_custom_fill_usable_area float _ cc w h
                    "Letter" p Hk) eq_refl).
  - vm_compute. reflexivity.
  - vm_compute. reflexivity.
Defined.

Lemma default_fill_mode_is_fit_witness :
  let c := Samples.config "A4" "custom" (Float64.cents 1000) in
  let p := {| pf_width := Float64.cents 59528; pf_height := Float64.cents 84189 |} in
  let w := Float64.cents 80000 in
  let h := Float64.cents 60000 in
  ("zoom" <> "custom" /\ "zoom" <> "stretch" /\ "zoom" <> "crop" /\
   own_property "A4" pageFormats = Some p) /\
  calculateOptimalLayout (with_fillMode "zoom" c) w h "A4" =
    match calculateOptimalLayout (with_fillMode "fit" c) w h "A4" with
    | inl e => inl e
    | inr r => inr (relabel "zoom" r)
    end /\
  calculateOptimalLayout (with_fillMode "zoom" c) w h "A4" =
    inr {| width := 575.27999999999997%float;
           height := 431.45999999999998%float;
           x := 10%float;
           y := 205.215%float;
           pageWidth := JNum 595.27999999999997%float;
           pageHeight := JNum 841.88999999999999%float;
           fillMode := "zoom" |}.
Proof.
  intros c p w h.
  assert (H1 : "zoom" <> "custom") by discriminate.
  assert (H2 : "zoom" <> "stretch") by discriminate.
  assert (H3 : "zoom" <> "crop") by discriminate.
  assert (Hk : own_property "A4" pageFormats = Some p) by reflexivity.
  split; [auto|]. split.
  - exact (proj1 (@default_fill_mode_is_fit float _ c w h "A4" "zoom" H1 H2 H3)).
  - rewrite (proj2 (@default_fill_mode_is_fit float _ c w h "A4" "zoom" H1 H2 H3)
               p Hk).
    vm_compute. reflexivity.
Defined.

Set Warnings "inexact-float".

(** C1, as stated, fails in the arithmetic of the program: on an A3 page
    with no margin, a 800 x 600 image laid out in fit mode gets a width
    above the usable width (841.8900000000001 against 841.89). *)
Lemma fit_width_exceeds_usable_width :
  let c := Samples.config "A3" "fit" (Float64.cents 0) in
  exists r,
    calculateOptimalLayout c (Float64.cents 80000) (Float64.cents 60000) "A3" = inr r /\
    PrimFloat.leb (width r)
      (sub (Float64.cents 84189) (mul (cfg_minimumMargin c) (Float64.cents 200)))
    = false.
Proof.
  eexists. split; vm_compute; reflexivity.
Qed.

(** C2, as stated, fails in the arithmetic of the program: on an A4 page
    with no margin, a 480 x 640 image laid out in crop mode gets a height
    below the usable height (841.8899999999999 against 841.89). *)
Lemma crop_height_below_usable_height :
  let c := Samples.config "A4" "crop" (Float64.cents 0) in
  exists r,
    calculateOptimalLayout c (Float64.cents 48000) (Float64.cents 64000) "A4" = inr r /\
    PrimFloat.leb
      (sub (Float64.cents 84189) (mul (cfg_minimumMargin c) (Float64.cents 200)))
      (height r)
    = false.
Proof.
  eexists. split; vm_compute; reflexivity.
Qed.

Lemma fit_binary64 (c : Config float) (w h : float) (k : string)
    (p : PageFormat float) :
  cfg_fillMode c = "fit" ->
  own_property k pageFormats = Some p ->
  let margin :=
    if Float64.falsy (cfg_minimumMargin c) then 0%float
    else cfg_minimumMargin c in
  let usableW := (pf_width p - margin * 2)%float in
  let usableH := (pf_height p - margin * 2)%float in
  let scale := Float64.Math_min (usableW / w) (usableH / h) in
  calculateOptimalLayout c w h k =
  inr {| width := (w * scale)%float;
         height := (h * scale)%float;
         x := (margin + (usableW - w * scale) / 2)%float;
         y := (margin + (usableH - h * scale) / 2)%float;
         pageWidth := JNum (pf_width p);
         pageHeight := JNum (pf_height p);
         fillMode := "fit" |}.
Proof.
  intros Hfit Hk. rewrite (fit_equation c w h k Hfit Hk). reflexivity.
Qed.

Lemma crop_binary64 (c : Config float) (w h : float) (k : string)
    (p : PageFormat float) :
  cfg_fillMode c = "crop" ->
  own_property k pageFormats = Some p ->
  let margin :=
    if Float64.falsy (cfg_minimumMargin c) then 0%float
    else cfg_minimumMargin c in
  let usableW := (pf_width p - margin * 2)%float in
  let usableH := (pf_height p - margin * 2)%float in
  let scale := Float64.Math_max (usableW / w) (usableH / h) in
  calculateOptimalLayout c w h k =
  inr {| width := (w * scale)%float;
         height := (h * scale)%float;
         x := (margin + (usableW - w * scale) / 2)%float;
         y := (margin + (usableH - h * scale) / 2)%float;
         pageWidth := JNum (pf_width p);
         pageHeight := JNum (pf_height p);
         fillMode := "crop" |}.
Proof.
  intros Hcrop Hk. rewrite (crop_equation c w h k Hcrop Hk). reflexivity.
Qed.

(** C1 (amended).  In fit mode, for a registered page format, with the
    uniform margin read from the [minimumMargin] setting (0 when that is 0
    or NaN) and the usable width and height computed as page - margin * 2:
    when the image width and height and the usable width and height are
    doubles between 2^-250 and 2^250, the returned width and height are
    positive numbers, at most the usable width and height times
    (1 + 2^-53)^2, the two roundings of a quotient and of a product; width x imgHeight and height x imgWidth
    differ by a factor between (1 - 2^-53) / (1 + 2^-53) and its inverse;
    and x and y are the doubles margin + (usable - final) / 2. *)
Theorem fit_layout_rounded (c : Config float) (w h : float) (k : string)
    (p : PageFormat float) :
  cfg_fillMode c = "fit" ->
  own_property k pageFormats = Some p ->
  let margin :=
    if Float64.falsy (cfg_minimumMargin c) then 0%float
    else cfg_minimumMargin c in
  let usableW := (pf_width p - margin * 2)%float in
  let usableH := (pf_height p - margin * 2)%float in
  Float64.within 250 w -> Float64.within 250 h ->
  Float64.within 250 usableW -> Float64.within 250 usableH ->
  exists r, calculateOptimalLayout c w h k = inr r /\
    (0 < Float64.value (width r) /\ 0 < Float64.value (height r) /\
     Float64.value (width r) <=
       (1 + Float64.u) * (1 + Float64.u) * Float64.value usableW /\
     Float64.value (height r) <=
       (1 + Float64.u) * (1 + Float64.u) * Float64.value usableH /\
     (1 - Float64.u) * (Float64.value (width r) * Float64.value h) <=
       (1 + Float64.u) * (Float64.value (height r) * Float64.value w) /\
     (1 - Float64.u) * (Float64.value (height r) * Float64.value w) <=
       (1 + Float64.u) * (Float64.value (width r) * Float64.value h))%Q /\
    x r = (margin + (usableW - width r) / 2)%float /\
    y r = (margin + (usableH - height r) / 2)%float.
Proof.
  intros Hfit Hk margin usableW usableH Hw Hh Huw Huh.
  rewrite (fit_binary64 c w h k Hfit Hk). cbv zeta. fold margin usableW usableH.
  eexists. split; [reflexivity|]. cbn [width height x y].
  split; [|split; reflexivity].
  split; [exact (proj1 (fit_positive w h usableW usableH Hw Hh Huw Huh))|].
  split; [exact (proj2 (fit_positive w h usableW usableH Hw Hh Huw Huh))|].
  exact (fit_values w h usableW usableH Hw Hh Huw Huh).
Qed.

(** C2 (amended).  In crop mode, under the same conditions: the image is
    scaled by the larger of usableWidth / imgWidth and
    usableHeight / imgHeight, so that the returned width and height are at
    least the usable width and height times (1 - 2^-53)^2; width x
    imgHeight and height x imgWidth differ by a factor between
    (1 - 2^-53) / (1 + 2^-53) and its inverse; and x and y are the doubles
    margin + (usable - final) / 2, which are negative or below the margin
    where the image overflows. *)
Theorem crop_layout_rounded (c : Config float) (w h : float) (k : string)
    (p : PageFormat float) :
  cfg_fillMode c = "crop" ->
  own_property k pageFormats = Some p ->
  let margin :=
    if Float64.falsy (cfg_minimumMargin c) then 0%float
    else cfg_minimumMargin c in
  let usableW := (pf_width p - margin * 2)%float in
  let usableH := (pf_height p - margin * 2)%float in
  Float64.within 250 w -> Float64.within 250 h ->
  Float64.within 250 usableW -> Float64.within 250 usableH ->
  exists r, calculateOptimalLayout c w h k = inr r /\
    width r = (w * Float64.Math_max (usableW / w) (usableH / h))%float /\
    height r = (h * Float64.Math_max (usableW / w) (usableH / h))%float /\
    ((1 - Float64.u) * (1 - Float64.u) * Float64.value usableW <=
       Float64.value (width r) /\
     (1 - Float64.u) * (1 - Float64.u) * Float64.value usableH <=
       Float64.value (height r) /\
     (1 - Float64.u) * (Float64.value (width r) * Float64.value h) <=
       (1 + Float64.u) * (Float64.value (height r) * Float64.value w) /\
     (1 - Float64.u) * (Float64.value (height r) * Float64.value w) <=
       (1 + Float64.u) * (Float64.value (width r) * Float64.value h))%Q /\
    x r = (margin + (usableW - width r) / 2)%float /\
    y r = (margin + (usableH - height r) / 2)%float.
Proof.
  intros Hcrop Hk margin usableW usableH Hw Hh Huw Huh.
  rewrite (crop_binary64 c w h k Hcrop Hk). cbv zeta. fold margin usableW usableH.
  eexists. split; [reflexivity|]. cbn [width height x y].
  split; [reflexivity|]. split; [reflexivity|].
  split; [|split; reflexivity].
  exact (crop_values w h usableW usableH Hw Hh Huw Huh).
Qed.

Ltac within_computed :=
  split; apply Qle_bool_iff; vm_compute; reflexivity.

Set Warnings "-inexact-float".

Lemma fit_layout_rounded_witness :
  let c := Samples.config "A3" "fit" (Float64.cents 0) in
  let p := {| pf_width := Float64.cents 84189; pf_height := Float64.cents 119055 |} in
  let w := Float64.cents 80000 in
  let h := Float64.cents 60000 in
  let usableW := (841.88999999999999 - 0 * 2)%float in
  let usableH := (1190.55 - 0 * 2)%float in
  (cfg_fillMode c = "fit" /\ own_property "A3" pageFormats = Some p /\
   Float64.within 250 w /\ Float64.within 250 h /\
   Float64.within 250 usableW /\ Float64.within 250 usableH) /\
  (exists r, calculateOptimalLayout c w h "A3" = inr r /\
     (0 < Float64.value (width r) /\ 0 < Float64.value (height r) /\
      Float64.value (width r) <=
        (1 + Float64.u) * (1 + Float64.u) * Float64.value usableW /\
      Float64.value (height r) <=
        (1 + Float64.u) * (1 + Float64.u) * Float64.value usableH /\
      (1 - Float64.u) * (Float64.value (width r) * Float64.value h) <=
        (1 + Float64.u) * (Float64.value (height r) * Float64.value w) /\
      (1 - Float64.u) * (Float64.value (height r) * Float64.value w) <=
        (1 + Float64.u) * (Float64.value (width r) * Float64.value h))%Q /\
     x r = (0 + (usableW - width r) / 2)%float /\
     y r = (0 + (usableH - height r) / 2)%float) /\
  calculateOptimalLayout c w h "A3" =
    inr {| width := 841.8900000000001%float;
           height := 631.41750000000002%float;
           x := (-5.6843418860808015e-14)%float;
           y := 279.56624999999997%float;
           pageWidth := JNum 841.88999999999999%float;
           pageHeight := JNum 1190.55%float;
           fillMode := "fit" |}.
Proof.
  intros c p w h usableW usableH.
  assert (Hw : Float64.within 250 w) by within_computed.
  assert (Hh : Float64.within 250 h) by within_computed.
  assert (Huw : Float64.within 250 usableW) by within_computed.
  assert (Huh : Float64.within 250 usableH) by within_computed.
  split; [repeat (split; [reflexivity || assumption|]); assumption|]. split.
  - exact (@fit_layout_rounded c w h "A3" p eq_refl eq_refl Hw Hh Huw Huh).
  - vm_compute. reflexivity.
Defined.

Lemma crop_layout_rounded_witness :
  let c := Samples.config "A4" "crop" (Float64.cents 0) in
  let p := {| pf_width := Float64.cents 59528; pf_height := Float64.cents 84189 |} in
  let w := Float64.cents 48000 in
  let h := Float64.cents 64000 in
  let usableW := (595.27999999999997 - 0 * 2)%float in
  let usableH := (841.88999999999999 - 0 * 2)%float in
  (cfg_fillMode c = "crop" /\ own_property "A4" pageFormats = Some p /\
   Float64.within 250 w /\ Float64.within 250 h /\
   Float64.within 250 usableW /\ Float64.within 250 usableH) /\
  (exists r, calculateOptimalLayout c w h "A4" = inr r /\
     width r = (w * Float64.Math_max (usableW / w) (usableH / h))%float /\
     height r = (h * Float64.Math_max (usableW / w) (usableH / h))%float /\
     ((1 - Float64.u) * (1 - Float64.u) * Float64.value usableW <=
        Float64.value (width r) /\
      (1 - Float64.u) * (1 - Float64.u) * Float64.value usableH <=
        Float64.value (height r) /\
      (1 - Float64.u) * (Float64.value (width r) * Float64.value h) <=
        (1 + Float64.u) * (Float64.value (height r) * Float64.value w) /\
      (1 - Float64.u) * (Float64.value (height r) * Float64.value w) <=
        (1 + Float64.u) * (Float64.value (width r) * Float64.value h))%Q /\
     x r = (0 + (usableW - width r) / 2)%float /\
     y r = (0 + (usableH - height r) / 2)%float) /\
  calculateOptimalLayout c w h "A4" =
    inr {| width := 631.4174999999999%float;
           height := 841.88999999999987%float;
           x := (-18.068749999999966)%float;
           y := 5.6843418860808015e-14%float;
           pageWidth := JNum 595.27999999999997%float;
           pageHeight := JNum 841.88999999999999%float;
           fillMode := "crop" |}.
Proof.
  intros c p w h usableW usableH.
  assert (Hw : Float64.within 250 w) by within_computed.
  assert (Hh : Float64.within 250 h) by within_computed.
  assert (Huw : Float64.within 250 usableW) by within_computed.
  assert (Huh : Float64.within 250 usableH) by within_computed.
  split; [repeat (split; [reflexivity || assumption|]); assumption|]. split.
  - exact (@crop_layout_rounded c w h "A4" p eq_refl eq_refl Hw Hh Huw Huh).
  - vm_compute. reflexivity.
Defined.

Set Warnings "inexact-float".

(** In fit mode, under the conditions of [fit_layout_rounded], the image
    fills the usable area in one direction at least, up to the two
    roundings: the returned width is at least the usable width times
    (1 - 2^-53)^2, or the returned height is at least the usable height
    times (1 - 2^-53)^2. *)
Theorem fit_fills_one_direction (c : Config float) (w h : float) (k : string)
    (p : PageFormat float) :
  cfg_fillMode c = "fit" ->
  own_property k pageFormats = Some p ->
  let margin :=
    if Float64.falsy (cfg_minimumMargin c) then 0%float
    else cfg_minimumMargin c in
  let usableW := (pf_width p - margin * 2)%float in
  let usableH := (pf_height p - margin * 2)%float in
  Float64.within 250 w -> Float64.within 250 h ->
  Float64.within 250 usableW -> Float64.within 250 usableH ->
  exists r, calculateOptimalLayout c w h k = inr r /\
    ((1 - Float64.u) * (1 - Float64.u) * Float64.value usableW <=
       Float64.value (width r) \/
     (1 - Float64.u) * (1 - Float64.u) * Float64.value usableH <=
       Float64.value (height r))%Q.
Proof.
  intros Hfit Hk margin usableW usableH Hw Hh Huw Huh.
  rewrite (fit_binary64 c w h k Hfit Hk). cbv zeta. fold margin usableW usableH.
  eexists. split; [reflexivity|]. cbn [width height].
  exact (fit_touches w h usableW usableH Hw Hh Huw Huh).
Qed.

(** In crop mode, under the same conditions, the image matches the usable
    area in one direction at least, up to the two roundings: the returned
    width and height are positive numbers, and the width is at most the
    usable width times (1 + 2^-53)^2, or the height is at most the usable
    height times (1 + 2^-53)^2. *)
Theorem crop_matches_one_direction (c : Config float) (w h : float) (k : string)
    (p : PageFormat float) :
  cfg_fillMode c = "crop" ->
  own_property k pageFormats = Some p ->
  let margin :=
    if Float64.falsy (cfg_minimumMargin c) then 0%float
    else cfg_minimumMargin c in
  let usableW := (pf_width p - margin * 2)%float in
  let usableH := (pf_height p - margin * 2)%float in
  Float64.within 250 w -> Float64.within 250 h ->
  Float64.within 250 usableW -> Float64.within 250 usableH ->
  exists r, calculateOptimalLayout c w h k = inr r /\
    (0 < Float64.value (width r) /\ 0 < Float64.value (height r) /\
     (Float64.value (width r) <=
        (1 + Float64.u) * (1 + Float64.u) * Float64.value usableW \/
      Float64.value (height r) <=
        (1 + Float64.u) * (1 + Float64.u) * Float64.value usableH))%Q.
Proof.
  intros Hcrop Hk margin usableW usableH Hw Hh Huw Huh.
  rewrite (crop_binary64 c w h k Hcrop Hk). cbv zeta. fold margin usableW usableH.
  eexists. split; [reflexivity|]. cbn [width height].
  split; [exact (proj1 (crop_positive w h usableW usableH Hw Hh Huw Huh))|].
  split; [exact (proj2 (crop_positive w h usableW usableH Hw Hh Huw Huh))|].
  exact (crop_touches w h usableW usableH Hw Hh Huw Huh).
Qed.

Set Warnings "-inexact-float".

(** Below the range of [fit_layout_rounded] the proportion can be lost: in
    fit mode on an A4 page without margin, an image as wide as the smallest
    positive double and 600 high keeps its width, while its height becomes
    the 841.89 of the page. *)
Theorem fit_of_tiny_image_loses_proportion :
  let c := Samples.config "A4" "fit" (Float64.cents 0) in
  let w := 0x1p-1074%float in
  let h := Float64.cents 60000 in
  exists r, calculateOptimalLayout c w h "A4" = inr r /\
    width r = w /\ h = 600%float /\ height r = 841.88999999999999%float.
Proof.
  eexists. split; [vm_compute; reflexivity|].
  split; [reflexivity|]. split; vm_compute; reflexivity.
Qed.

Lemma fit_fills_one_direction_witness :
  let c := Samples.config "A4" "fit" (Float64.cents 1000) in
  let p := {| pf_width := Float64.cents 59528; pf_height := Float64.cents 84189 |} in
  let w := Float64.cents 80000 in
  let h := Float64.cents 60000 in
  let usableW := (595.27999999999997 - 10 * 2)%float in
  let usableH := (841.88999999999999 - 10 * 2)%float in
  (cfg_fillMode c = "fit" /\ own_property "A4" pageFormats = Some p /\
   Float64.within 250 w /\ Float64.within 250 h /\
   Float64.within 250 usableW /\ Float64.within 250 usableH) /\
  (exists r, calculateOptimalLayout c w h "A4" = inr r /\
     ((1 - Float64.u) * (1 - Float64.u) * Float64.value usableW <=
        Float64.value (width r) \/
      (1 - Float64.u) * (1 - Float64.u) * Float64.value usableH <=
        Float64.value (height r))%Q) /\
  usableW = 575.27999999999997%float /\
  exists r, calculateOptimalLayout c w h "A4" = inr r /\
            width r = 575.27999999999997%float /\ x r = 10%float.
Proof.
  intros c p w h usableW usableH.
  assert (Hw : Float64.within 250 w) by within_computed.
  assert (Hh : Float64.within 250 h) by within_computed.
  assert (Huw : Float64.within 250 usableW) by within_computed.
  assert (Huh : Float64.within 250 usableH) by within_computed.
  split; [repeat (split; [reflexivity || assumption|]); assumption|]. split.
  - exact (@fit_fills_one_direction c w h "A4" p eq_refl eq_refl Hw Hh Huw Huh).
  - split; [vm_compute; reflexivity|].
    eexists. split; [vm_compute; reflexivity|]. split; vm_compute; reflexivity.
Defined.

Lemma crop_matches_one_direction_witness :
  let c := Samples.config "A4" "crop" (Float64.cents 1000) in
  let p := {| pf_width := Float64.cents 59528; pf_height := Float64.cents 84189 |} in
  let w := Float64.cents 80000 in
  let h := Float64.cents 60000 in
  let usableW := (595.27999999999997 - 10 * 2)%float in
  let usableH := (841.88999999999999 - 10 * 2)%float in
  (cfg_fillMode c = "crop" /\ own_property "A4" pageFormats = Some p /\
   Float64.within 250 w /\ Float64.within 250 h /\
   Float64.within 250 usableW /\ Float64.within 250 usableH) /\
  (exists r, calculateOptimalLayout c w h "A4" = inr r /\
     (0 < Float64.value (width r) /\ 0 < Float64.value (height r) /\
      (Float64.value (width r) <=
         (1 + Float64.u) * (1 + Float64.u) * Float64.value usableW \/
       Float64.value (height r) <=
         (1 + Float64.u) * (1 + Float64.u) * Float64.value usableH))%Q) /\
  usableH = 821.88999999999999%float /\
  exists r, calculateOptimalLayout c w h "A4" = inr r /\
            height r = 821.88999999999999%float /\ y r = 10%float.
Proof.
  intros c p w h usableW usableH.
  assert (Hw : Float64.within 250 w) by within_computed.
  assert (Hh : Float64.within 250 h) by within_computed.
  assert (Huw : Float64.within 250 usableW) by within_computed.
  assert (Huh : Float64.within 250 usableH) by within_computed.
  split; [repeat (split; [reflexivity || assumption|]); assumption|]. split.
  - exact (@crop_matches_one_direction c w h "A4" p eq_refl eq_refl Hw Hh Huw Huh).
  - split; [vm_compute; reflexivity|].
    eexists. split; [vm_compute; reflexivity|]. split; vm_compute; reflexivity.
Defined.

Set Warnings "inexact-float".

(** C6, at the name "constructor": the name is not in the page-format
    table, yet the lookup finds the member the table inherits from
    [Object.prototype], no error is raised, and a layout is returned whose
    rectangle is NaN and whose page dimensions are undefined. *)
Theorem calculateOptimalLayout_constructor (c : Config float) (w h : float) :
  own_property "constructor" (@pageFormats float _) = None /\
  exists r, calculateOptimalLayout c w h "constructor" = inr r /\
    pageWidth r = JUndefined /\ pageHeight r = JUndefined.
Proof.
  split; [reflexivity|]. unfold calculateOptimalLayout.
  rewrite (@pageFormats_get_inherited float _ "constructor") by (cbn; tauto).
  repeat match goal with
         | |- context [if ?b then _ else _] => destruct b
         end;
    eexists; split; reflexivity || (split; reflexivity).
Qed.

Lemma calculateOptimalLayout_echoes_page_witness :
  let c := Samples.config "A4" "crop" (Float64.cents 1000) in
  let p := {| pf_width := Float64.cents 59528; pf_height := Float64.cents 84189 |} in
  own_property "A4" pageFormats = Some p /\
  exists r,
    calculateOptimalLayout c (Float64.cents 80000) (Float64.cents 60000) "A4"
      = inr r /\
    pageWidth r = JNum (pf_width p) /\
    pageHeight r = JNum (pf_height p).
Proof.
  intros c p. split; [reflexivity|].
  apply (@calculateOptimalLayout_echoes_page float _ c
           (Float64.cents 80000) (Float64.cents 60000) "A4" p).
  reflexivity.
Defined.

(** ** Ordering of a group *)

Section SortFacts.

Variable A : Type.
Variable compareFn : A -> A -> Z.

Hypothesis before_total : forall a b, Ordering.precedes compareFn a b \/ Ordering.precedes compareFn b a.
Hypothesis before_trans : forall a b c, Ordering.precedes compareFn a b -> Ordering.precedes compareFn b c ->
               Ordering.precedes compareFn a c.

Lemma insert_Permutation (a : A) (l : list A) :
  Permutation (a :: l) (Ordering.insert compareFn a l).
Proof.
  induction l as [|b l IH]; cbn.
  - apply Permutation_refl.
  - destruct (compareFn a b <=? 0).
    + apply Permutation_refl.
    + eapply perm_trans; [apply perm_swap|].
      apply perm_skip. exact IH.
Qed.

Lemma Array_sort_Permutation (l : list A) :
  Permutation l (Ordering.Array_sort compareFn l).
Proof.
  induction l as [|a l IH]; cbn.
  - apply perm_nil.
  - eapply perm_trans; [apply perm_skip; exact IH|].
    apply insert_Permutation.
Qed.

Lemma insert_Forall (P : A -> Prop) (a : A) (l : list A) :
  P a -> Forall P l -> Forall P (Ordering.insert compareFn a l).
Proof.
  intros Ha Hl.
  apply (Permutation_Forall (insert_Permutation a l)).
  constructor; assumption.
Qed.

Lemma insert_sorted (a : A) (l : list A) :
  StronglySorted (Ordering.precedes compareFn) l ->
  StronglySorted (Ordering.precedes compareFn) (Ordering.insert compareFn a l).
Proof.
  induction 1 as [|b l Hs IH Hb]; cbn.
  - constructor; constructor.
  - destruct (Z.leb_spec (compareFn a b) 0) as [Hab|Hab].
    + constructor; [constructor; assumption|].
      constructor; [exact Hab|].
      apply (Forall_impl (Ordering.precedes compareFn a)
               (fun c Hc => before_trans Hab Hc) Hb).
    + constructor; [exact IH|].
      apply insert_Forall; [|exact Hb].
      destruct (before_total a b) as [H|H]; [|exact H].
      unfold Ordering.precedes in H. lia.
Qed.

Lemma Array_sort_sorted (l : list A) :
  StronglySorted (Ordering.precedes compareFn) (Ordering.Array_sort compareFn l).
Proof.
  induction l as [|a l IH]; cbn.
  - constructor.
  - apply insert_sorted. exact IH.
Qed.

End SortFacts.

Section GroupOrder.

Context {num : Type}.
Variable host : @Host num.

Hypothesis localeCompare_total :
  forall a b, localeCompare host a b <= 0 \/ localeCompare host b a <= 0.
Hypothesis localeCompare_trans :
  forall a b c, localeCompare host a b <= 0 -> localeCompare host b c <= 0 ->
                localeCompare host a c <= 0.

Lemma compareImages_name_order (a b : ImageFile) :
  compareImages host a b <= 0 <-> name_order host a b.
Proof.
  unfold compareImages, name_order.
  destruct (Z.eqb_spec (Ordering.numeric_key (name a))
                       (Ordering.numeric_key (name b))) as [E|E]; cbn [negb].
  - split; [intros H; right; split; assumption|].
    intros [H|[_ H]]; [lia|exact H].
  - split; [intros H; left; lia|].
    intros [H|[H _]]; [lia|contradiction].
Qed.

Lemma compareImages_total (a b : ImageFile) :
  compareImages host a b <= 0 \/ compareImages host b a <= 0.
Proof.
  rewrite !compareImages_name_order. unfold name_order.
  destruct (Z.lt_trichotomy (Ordering.numeric_key (name a))
                            (Ordering.numeric_key (name b))) as [H|[H|H]].
  - left. left. exact H.
  - destruct (localeCompare_total (name a) (name b)) as [L|L].
    + left. right. split; assumption.
    + right. right. split; [symmetry|]; assumption.
  - right. left. exact H.
Qed.

Lemma compareImages_trans (a b c : ImageFile) :
  compareImages host a b <= 0 -> compareImages host b c <= 0 ->
  compareImages host a c <= 0.
Proof.
  rewrite !compareImages_name_order. unfold name_order.
  intros [H1|[H1 L1]] [H2|[H2 L2]]; try (left; lia).
  right. split; [congruence|]. eapply localeCompare_trans; eassumption.
Qed.

Lemma Array_sort_name_order (files : list ImageFile) :
  StronglySorted (name_order host)
    (Ordering.Array_sort (compareImages host) files).
Proof.
  generalize (@Array_sort_sorted _ (compareImages host)
                compareImages_total compareImages_trans files).
  generalize (Ordering.Array_sort (compareImages host) files).
  induction 1 as [|a l _ IH Ha]; constructor.
  - exact IH.
  - apply (Forall_impl _ (fun b => proj1 (compareImages_name_order a b)) Ha).
Qed.

End GroupOrder.

Lemma numeric_key_below_2_53 (file digits : string) :
  Ordering.first_digits file = Some digits ->
  Ordering.digits_value 0 digits < 2 ^ 53 ->
  Ordering.numeric_key file = Ordering.digits_value 0 digits.
Proof.
  intros Hd Hlt. unfold Ordering.numeric_key, Ordering.parseInt, Ordering.to_double.
  rewrite Hd. apply Z.ltb_lt in Hlt. rewrite Hlt. reflexivity.
Qed.

Lemma codeUnitCompare_total (a b : string) :
  Samples.codeUnitCompare a b <= 0 \/ Samples.codeUnitCompare b a <= 0.
Proof.
  unfold Samples.codeUnitCompare. rewrite (String.compare_antisym a b).
  destruct (String.compare b a); cbn; lia.
Qed.

Lemma codeUnitCompare_trans (a b c : string) :
  Samples.codeUnitCompare a b <= 0 -> Samples.codeUnitCompare b c <= 0 ->
  Samples.codeUnitCompare a c <= 0.
Proof.
  unfold Samples.codeUnitCompare.
  destruct (String.compare a b) eqn:Eab; [| |lia].
  - apply String.compare_eq_iff in Eab. subst b. intros _ H. exact H.
  - destruct (String.compare b c) eqn:Ebc; [| |lia]; intros _ _.
    + apply String.compare_eq_iff in Ebc. subst c. rewrite Eab. lia.
    + apply OrderedTypeEx.String_as_OT.cmp_lt in Eab, Ebc.
      pose proof (@OrderedTypeEx.String_as_OT.lt_trans a b c Eab Ebc) as Hac.
      apply OrderedTypeEx.String_as_OT.cmp_lt in Hac.
      unfold OrderedTypeEx.String_as_OT.cmp in Hac. rewrite Hac. lia.
Qed.

Lemma numeric_key_first_integer (file : string) :
  Ordering.numeric_key file = Ordering.to_double (Ordering.first_integer file).
Proof. reflexivity. Qed.

Lemma StronglySorted_impl_on (A : Type) (P : A -> Prop) (R R' : A -> A -> Prop)
    (l : list A) :
  (forall a b, P a -> P b -> R a b -> R' a b) ->
  Forall P l -> StronglySorted R l -> StronglySorted R' l.
Proof.
  intros Himpl HP Hs. induction Hs as [|a l Hs IH Ha]; constructor.
  - apply IH. inversion HP; assumption.
  - inversion HP as [|? ? Pa Pl]; subst.
    clear IH Hs HP. induction Ha as [|b l Hab Ha IH]; constructor.
    + inversion Pl; subst. apply Himpl; assumption.
    + apply IH. inversion Pl; assumption.
Qed.

Lemma name_order_integer_order {num : Type} (host : @Host num) (a b : ImageFile) :
  Ordering.first_integer (name a) < 2 ^ 53 ->
  Ordering.first_integer (name b) < 2 ^ 53 ->
  name_order host a b -> integer_order host a b.
Proof.
  unfold name_order, integer_order. rewrite !numeric_key_first_integer.
  unfold Ordering.to_double. intros Ha Hb.
  apply Z.ltb_lt in Ha, Hb. rewrite Ha, Hb. trivial.
Qed.

(** C7, as stated, fails for integers of more than 53 bits: [parseInt]
    rounds 9007199254740993 to 9007199254740992, the two keys are equal,
    the names decide, and the file with the larger integer comes first. *)
Lemma getImageFiles_rounds_first_integer :
  let h := @Samples.host float _
             ["z9007199254740992.jpg"; "a9007199254740993.jpg"]
             (fun _ => None) (fun _ => None) (fun _ => None) in
  let c := Samples.config "A4" "fit" (Float64.cents 0) in
  ((forall a b, localeCompare h a b <= 0 \/ localeCompare h b a <= 0) /\
   (forall a b c, localeCompare h a b <= 0 -> localeCompare h b c <= 0 ->
                  localeCompare h a c <= 0)) /\
  map name (getImageFiles h c "/photos") =
    ["a9007199254740993.jpg"; "z9007199254740992.jpg"] /\
  map (fun file => Ordering.first_integer (name file))
      (getImageFiles h c "/photos") =
    [9007199254740993; 9007199254740992] /\
  ~ StronglySorted (integer_order h) (getImageFiles h c "/photos").
Proof.
  intros h c. split; [|split; [|split]].
  - split; [exact codeUnitCompare_total|exact codeUnitCompare_trans].
  - vm_compute. reflexivity.
  - vm_compute. reflexivity.
  - intros Hs.
    assert (E : exists a b,
               getImageFiles h c "/photos" = [a; b] /\
               name a = "a9007199254740993.jpg" /\
               name b = "z9007199254740992.jpg").
    { eexists. eexists. split; [vm_compute; reflexivity|].
      split; reflexivity. }
    destruct E as (a & b & E & Ha & Hb). rewrite E in Hs.
    inversion Hs as [|? ? _ Hab]; subst.
    inversion Hab as [|? ? H _]; subst.
    unfold integer_order in H. rewrite Ha, Hb in H.
    destruct H as [H|[H _]]; vm_compute in H; discriminate.
Qed.

(** C7.  When [localeCompare] is a total preorder, the files returned by
    [getImageFiles] are ordered by the number that [parseInt] makes of the
    first run of digits of the name (the integer as written, rounded to a
    double), ascending, and among equal numbers by [localeCompare] of the
    names; when the integers of all returned files are below 2^53, that is
    the order of the integers as written; sorting permutes the files it is
    given; and files named 2.jpg, 10.jpg, 1.jpg come out as 1.jpg, 2.jpg,
    10.jpg. *)
Theorem getImageFiles_order {num : Type} (host : @Host num) (config : Config num) :
  (forall a b, localeCompare host a b <= 0 \/ localeCompare host b a <= 0) ->
  (forall a b c, localeCompare host a b <= 0 -> localeCompare host b c <= 0 ->
                 localeCompare host a c <= 0) ->
  (forall file,
      Ordering.numeric_key file =
      Ordering.to_double (Ordering.first_integer file)) /\
  (forall dir, StronglySorted (name_order host) (getImageFiles host config dir)) /\
  (forall dir,
      Forall (fun file => Ordering.first_integer (name file) < 2 ^ 53)
             (getImageFiles host config dir) ->
      StronglySorted (integer_order host) (getImageFiles host config dir)) /\
  (forall dir files imageFiles,
      readdirSync host dir = Some files ->
      stat_all host dir (filter (supported host config) files) = Some imageFiles ->
      Permutation imageFiles (getImageFiles host config dir)) /\
  (forall a b c : ImageFile,
      name a = "2.jpg" -> name b = "10.jpg" -> name c = "1.jpg" ->
      Ordering.Array_sort (compareImages host) [a; b; c] = [c; a; b]).
Proof.
  intros Htotal Htrans.
  assert (Hsorted : forall dir,
             StronglySorted (name_order host) (getImageFiles host config dir)).
  { intros dir. unfold getImageFiles.
    destruct (readdirSync host dir) as [files|]; [|constructor].
    destruct (stat_all host dir (filter (supported host config) files));
      [|constructor].
    apply Array_sort_name_order; assumption. }
  split; [exact numeric_key_first_integer|]. split; [exact Hsorted|].
  split; [|split].
  - intros dir Hsmall.
    apply (StronglySorted_impl_on
             (P := fun file => Ordering.first_integer (name file) < 2 ^ 53)
             (R := name_order host)); [|exact Hsmall|apply Hsorted].
    intros a b. apply name_order_integer_order.
  - intros dir files imageFiles Hdir Hstat. unfold getImageFiles.
    rewrite Hdir, Hstat. apply Array_sort_Permutation.
  - intros a b c Ha Hb Hc.
    assert (Hbc : (compareImages host b c <=? 0) = false)
      by (unfold compareImages; rewrite Hb, Hc; vm_compute; reflexivity).
    assert (Hac : (compareImages host a c <=? 0) = false)
      by (unfold compareImages; rewrite Ha, Hc; vm_compute; reflexivity).
    assert (Hab : (compareImages host a b <=? 0) = true)
      by (unfold compareImages; rewrite Ha, Hb; vm_compute; reflexivity).
    unfold Ordering.Array_sort. cbn [fold_right Ordering.insert].
    rewrite Hbc. cbn [Ordering.insert]. rewrite Hac, Hab. reflexivity.
Qed.

Lemma getImageFiles_order_witness :
  let h := @Samples.host float _ ["2.jpg"; "notes.txt"; "10.jpg"; "1.jpg"]
             (fun _ => None) (fun _ => None) (fun _ => None) in
  let c := Samples.config "A4" "fit" (Float64.cents 0) in
  ((forall a b, localeCompare h a b <= 0 \/ localeCompare h b a <= 0) /\
   (forall a b c, localeCompare h a b <= 0 -> localeCompare h b c <= 0 ->
                  localeCompare h a c <= 0) /\
   Forall (fun file => Ordering.first_integer (name file) < 2 ^ 53)
          (getImageFiles h c "/photos")) /\
  StronglySorted (integer_order h) (getImageFiles h c "/photos") /\
  map name (getImageFiles h c "/photos") = ["1.jpg"; "2.jpg"; "10.jpg"] /\
  map (fun file => Ordering.numeric_key (name file))
      (getImageFiles h c "/photos") = [1; 2; 10].
Proof.
  intros h c.
  assert (Hsmall : Forall (fun file => Ordering.first_integer (name file) < 2 ^ 53)
                          (getImageFiles h c "/photos")).
  { repeat constructor. }
  split; [|split; [|split]].
  - split; [exact codeUnitCompare_total|].
    split; [exact codeUnitCompare_trans|exact Hsmall].
  - exact (proj1 (proj2 (proj2 (getImageFiles_order h c
                                  codeUnitCompare_total codeUnitCompare_trans)))
             "/photos" Hsmall).
  - vm_compute. reflexivity.
  - vm_compute. reflexivity.
Defined.

(** ** Document assembly *)

Section AssemblyFacts.

Context {num : Type} {N : JsNumber num}.
Variable host : @Host num.
Variable config : Config num.

Lemma skipped_app (a b : list Warning) :
  skipped (a ++ b) = (skipped a ++ skipped b)%list.
Proof.
  induction a as [|m a IH]; [reflexivity|].
  destruct m; cbn; rewrite IH; reflexivity.
Qed.

Lemma quiet_refl (w : @World num) : quiet w w.
Proof. repeat split; auto. Qed.

Lemma quiet_trans (w1 w2 w3 : @World num) :
  quiet w1 w2 -> quiet w2 w3 -> quiet w1 w3.
Proof.
  intros (D1 & S1 & T1) (D2 & S2 & T2). repeat split.
  - congruence.
  - congruence.
  - auto.
Qed.

Ltac world_simpl :=
  unfold quiet; cbn [scratch warnings document];
  rewrite ?skipped_app; cbn [skipped]; rewrite ?app_nil_r.

Ltac world_done :=
  world_simpl; repeat split; try congruence; auto.

Lemma getImageDimensions_run (imagePath : string) (w : World) :
  exists w',
    getImageDimensions host imagePath w =
      (inr (probed_dimensions host imagePath), w') /\
    scratch w' = scratch w /\
    document w' = document w /\
    skipped (warnings w') = skipped (warnings w).
Proof.
  unfold getImageDimensions, probed_dimensions.
  destruct (sizeOf host imagePath).
  - exists w. repeat split.
  - eexists. split; [reflexivity|]. world_done.
Qed.

Lemma compressImage_run (imagePath dir : string) (w : World) :
  exists path' w',
    compressImage host imagePath dir w = (inr path', w') /\
    (path' = imagePath \/ path' = compressedPath host imagePath dir) /\
    quiet w w'.
Proof.
  unfold compressImage, try_catch, bind at 1.
  destruct (statSync host imagePath) as [size|]; cbn [host_call].
  - unfold ret at 1. unfold bind at 1.
    destruct (getImageDimensions_run imagePath w) as (w1 & -> & S1 & D1 & K1).
    unfold bind at 1. unfold sharp_toFile, bind at 1.
    destruct (sharp_error host imagePath) as [e|]; cbn [fails].
    + unfold throw at 1. eexists; eexists. split; [reflexivity|].
      split; [left; reflexivity|]. world_done.
    + unfold ret at 1. unfold bind at 1, get_scratch.
      destruct (scratch w1) as [entries|] eqn:E1.
      * destruct (existsb _ entries).
        -- unfold ret. eexists; eexists. split; [reflexivity|].
           split; [right; reflexivity|]. world_done.
        -- unfold set_scratch. eexists; eexists. split; [reflexivity|].
           split; [right; reflexivity|]. world_done.
      * unfold throw at 1. eexists; eexists. split; [reflexivity|].
        split; [left; reflexivity|]. world_done.
  - unfold throw at 1. eexists; eexists. split; [reflexivity|].
    split; [left; reflexivity|]. world_done.
Qed.

Lemma compressImages_run (images : list ImageFile) (dir : string) (w : World) :
  exists cs w',
    compressImages host config images dir w = (inr cs, w') /\
    Forall2 (working_copy host dir) images cs /\
    quiet w w'.
Proof.
  revert w. induction images as [|image rest IH]; intros w.
  - exists [], w. split; [reflexivity|]. split; [constructor|apply quiet_refl].
  - cbn [compressImages]. unfold bind at 1.
    destruct (cfg_preCompressImages config).
    + unfold bind at 1.
      destruct (compressImage_run (fullPath image) dir w)
        as (path' & w1 & -> & Hpath & Q1).
      unfold ret at 1. unfold bind at 1.
      destruct (IH w1) as (cs & w2 & -> & Hcs & Q2).
      eexists; eexists. split; [reflexivity|]. split.
      * constructor; [|exact Hcs]. split; [reflexivity|exact Hpath].
      * exact (quiet_trans Q1 Q2).
    + unfold ret at 1. unfold bind at 1.
      destruct (IH w) as (cs & w2 & -> & Hcs & Q2).
      eexists; eexists. split; [reflexivity|]. split.
      * constructor; [|exact Hcs]. split; [reflexivity|left; reflexivity].
      * exact Q2.
Qed.

Lemma on_last_page_app (f : @Page num -> @Page num) (d : list Page) (p : Page) :
  on_last_page f (d ++ [p]) = (d ++ [f p])%list.
Proof.
  induction d as [|q d IH]; [reflexivity|].
  cbn [app on_last_page]. rewrite IH.
  destruct (d ++ [p])%list eqn:E; [|reflexivity].
  destruct d; discriminate.
Qed.

Lemma registered_known (k : string) (p : PageFormat num) :
  own_property k pageFormats = Some p -> PDFKit.known k = true.
Proof.
  intros H. pose proof (own_property_names _ H) as Hin.
  cbn in Hin. decompose [or] Hin; subst; reflexivity || contradiction.
Qed.

Lemma placeImage_registered (p : PageFormat num) (c : ImageFile) (index : nat)
    (w : World) :
  own_property (cfg_pageSize config) pageFormats = Some p ->
  exists w' page,
    placeImage host config c index w = (inr tt, w') /\
    scratch w' = scratch w /\
    document w' = (document w ++ [page])%list /\
    page_for host config p c page.
Proof.
  intros Hp. unfold placeImage, try_catch, composePage, bind at 1.
  destruct (getImageDimensions_run (fullPath c) w) as (w1 & -> & S1 & D1 & _).
  destruct (calculateOptimalLayout_registered config
              (dim_width (probed_dimensions host (fullPath c)))
              (dim_height (probed_dimensions host (fullPath c))) _ Hp)
    as (layout & Hlayout & Hpw & Hph & _).
  rewrite Hlayout.
  unfold doc_addPage. rewrite (registered_known _ Hp).
  unfold doc_rect_fill, doc_image, bind, get_document, set_document.
  cbn [document scratch warnings]. rewrite on_last_page_app.
  cbn [page_size page_fill page_image].
  destruct (image_error host (fullPath c)) as [e|] eqn:Eimg; cbn [fails].
  - unfold throw, warn. cbn [document scratch warnings].
    eexists; eexists. split; [reflexivity|]. cbn [document scratch].
    split; [exact S1|]. split; [rewrite D1; reflexivity|].
    split; [reflexivity|]. split; [cbn; rewrite Hpw, Hph; reflexivity|].
    exists layout. split; [exact Hlayout|]. rewrite Eimg. reflexivity.
  - unfold ret. cbn [document scratch warnings]. rewrite on_last_page_app.
    eexists; eexists. split; [reflexivity|]. cbn [document scratch].
    split; [exact S1|]. split; [rewrite D1; reflexivity|].
    split; [reflexivity|]. split; [cbn; rewrite Hpw, Hph; reflexivity|].
    exists layout. split; [exact Hlayout|]. rewrite Eimg. reflexivity.
Qed.

Lemma forEach_placeImage_registered (p : PageFormat num) (cs : list ImageFile) :
  own_property (cfg_pageSize config) pageFormats = Some p ->
  forall (index : nat) (w : World),
  exists w' pages,
    forEach (placeImage host config) cs index w = (inr tt, w') /\
    scratch w' = scratch w /\
    document w' = (document w ++ pages)%list /\
    Forall2 (page_for host config p) cs pages.
Proof.
  intros Hp. induction cs as [|c cs IH]; intros index w.
  - exists w, []. split; [reflexivity|]. split; [reflexivity|].
    split; [symmetry; apply app_nil_r|constructor].
  - cbn [forEach]. unfold bind at 1.
    destruct (placeImage_registered c index w Hp) as (w1 & page & -> & S1 & D1 & P1).
    destruct (IH (S index) w1) as (w2 & pages & -> & S2 & D2 & P2).
    exists w2, (page :: pages). split; [reflexivity|].
    split; [congruence|]. split.
    + rewrite D2, D1, <- app_assoc. reflexivity.
    + constructor; assumption.
Qed.

Lemma placeImage_unknown (c : ImageFile) (index : nat) (w : World) :
  pageFormats_get (N := N) (cfg_pageSize config) = None ->
  exists w',
    placeImage host config c index w = (inr tt, w') /\
    scratch w' = scratch w /\
    document w' = document w /\
    skipped (warnings w') =
      (skipped (warnings w) ++
       [(name c, Error ("不支援的頁面格式: " ++ cfg_pageSize config))])%list.
Proof.
  intros Hp. unfold placeImage, try_catch, composePage, bind at 1.
  destruct (getImageDimensions_run (fullPath c) w) as (w1 & -> & S1 & D1 & K1).
  rewrite (calculateOptimalLayout_unknown config _ _ _ Hp).
  unfold throw, warn. eexists. split; [reflexivity|].
  world_simpl. rewrite K1. repeat split; assumption.
Qed.

Lemma forEach_placeImage_unknown (cs : list ImageFile) :
  pageFormats_get (N := N) (cfg_pageSize config) = None ->
  forall (index : nat) (w : World),
  exists w',
    forEach (placeImage host config) cs index w = (inr tt, w') /\
    scratch w' = scratch w /\
    document w' = document w /\
    skipped (warnings w') =
      (skipped (warnings w) ++
       map (fun c => (name c, Error ("不支援的頁面格式: " ++ cfg_pageSize config)))
           cs)%list.
Proof.
  intros Hp. induction cs as [|c cs IH]; intros index w.
  - exists w. repeat split. symmetry. apply app_nil_r.
  - cbn [forEach]. unfold bind at 1.
    destruct (placeImage_unknown c index w Hp) as (w1 & -> & S1 & D1 & K1).
    destruct (IH (S index) w1) as (w2 & -> & S2 & D2 & K2).
    exists w2. split; [reflexivity|]. split; [congruence|].
    split; [congruence|]. rewrite K2, K1, <- app_assoc. reflexivity.
Qed.

Lemma assemble_run (images : list ImageFile) (w : World) :
  (scratch w = None -> mkdirSync_error host = None) ->
  exists (cs : list ImageFile) (w1 : @World num),
    Forall2 (working_copy host (tempDir host)) images cs /\
    skipped (warnings w1) = skipped (warnings w) /\
    scratch w1 <> None /\
    assemble host config images w =
      forEach (placeImage host config) cs 0
        {| scratch := scratch w1; warnings := warnings w1; document := [];
                   made := made w1 |}.
Proof.
  intros Hmk. unfold assemble, bind at 1, get_scratch.
  assert (exists w0, (match scratch w with
                      | Some _ => ret tt
                      | None => bind (fails (mkdirSync_error host))
                                  (fun _ => set_scratch (Some []))
                      end) w = (inr tt, w0) /\
                     scratch w0 <> None /\ warnings w0 = warnings w)
    as (w0 & Hw0 & S0 & K0).
  { destruct (scratch w) as [entries|] eqn:E.
    - exists w. repeat split. congruence.
    - rewrite (Hmk eq_refl). eexists. split; [reflexivity|].
      cbn. split; [discriminate|reflexivity]. }
  unfold bind at 1. rewrite Hw0. unfold bind at 1.
  destruct (compressImages_run images (tempDir host) w0)
    as (cs & w1 & -> & Hcs & (D1 & K1 & S1)).
  exists cs, w1. split; [exact Hcs|]. split; [congruence|].
  split; [auto|]. reflexivity.
Qed.

Lemma unlinkAll_run (dir : string) (files : list string) (w : World) :
  exists r w',
    unlinkAll host dir files w = (r, w') /\
    warnings w' = warnings w /\
    document w' = document w /\
    ((forall path, unlinkSync_error host path = None) -> r = inr tt).
Proof.
  revert w. induction files as [|file rest IH]; intros w.
  - exists (inr tt), w. repeat split.
  - cbn [unlinkAll]. unfold bind at 1.
    destruct (unlinkSync_error host (path_join host dir file)) as [e|] eqn:E;
      cbn [fails].
    + exists (inl e), w. split; [reflexivity|]. repeat split.
      intros Hall. rewrite Hall in E. discriminate.
    + unfold ret at 1. unfold bind at 1, set_scratch.
      destruct (IH {| scratch := Some rest;
                      warnings := warnings w;
                      document := document w;
                   made := made w |})
        as (r & w' & -> & K & D & Hok).
      exists r, w'. split; [reflexivity|]. auto.
Qed.

Lemma cleanup_run (dir : string) (w : World) :
  exists r w',
    try_catch (cleanup host dir)
      (fun cleanupError => warn (WarnCleanup cleanupError)) w = (r, w') /\
    document w' = document w /\
    skipped (warnings w') = skipped (warnings w) /\
    (scratch w' = None \/ exists e, In (WarnCleanup e) (warnings w')) /\
    ((forall path, unlinkSync_error host path = None) ->
     rmdirSync_error host = None -> scratch w' = None).
Proof.
  unfold try_catch, cleanup, bind at 1, get_scratch.
  destruct (scratch w) as [tempFiles|] eqn:E.
  - unfold bind at 1.
    destruct (unlinkAll_run dir tempFiles w) as (r & w1 & -> & K1 & D1 & Hok).
    destruct r as [e|[]].
    + unfold warn. eexists; eexists. split; [reflexivity|]. world_simpl.
      split; [exact D1|]. split; [rewrite K1; reflexivity|]. split.
      * right. exists e. apply in_or_app. right. left. reflexivity.
      * intros Hall _. specialize (Hok Hall). discriminate.
    + unfold bind at 1.
      destruct (rmdirSync_error host) as [e|]; cbn [fails].
      * unfold throw, warn. eexists; eexists. split; [reflexivity|]. world_simpl.
        split; [exact D1|]. split; [rewrite K1; reflexivity|]. split.
        -- right. exists e. apply in_or_app. right. left. reflexivity.
        -- intros _ Hrm. discriminate.
      * unfold ret, set_scratch. eexists; eexists. split; [reflexivity|].
        world_simpl. split; [exact D1|]. split; [rewrite K1; reflexivity|].
        split; [left; reflexivity|]. reflexivity.
  - unfold ret. exists (inr tt), w. split; [reflexivity|].
    repeat split; auto.
Qed.

Lemma working_copy_names (dir : string) (images cs : list ImageFile) :
  Forall2 (working_copy host dir) images cs ->
  map name cs = map name images.
Proof.
  induction 1 as [|image c images cs [Hname _] _ IH]; [reflexivity|].
  cbn. rewrite Hname, IH. reflexivity.
Qed.

End AssemblyFacts.

Section AssemblyMore.

Context {num : Type} {N : JsNumber num}.
Variable host : @Host num.
Variable config : Config num.

Lemma compressImages_passthrough (images : list ImageFile) (dir : string)
    (w : World) :
  cfg_preCompressImages config = false ->
  compressImages host config images dir w = (inr images, w).
Proof.
  intros Hoff. induction images as [|image rest IH]; [reflexivity|].
  cbn [compressImages]. rewrite Hoff. unfold bind, ret in *. rewrite IH.
  reflexivity.
Qed.

Lemma placeImage_total (c : ImageFile) (index : nat) (w : World) :
  exists w', placeImage host config c index w = (inr tt, w') /\
             scratch w' = scratch w.
Proof.
  unfold placeImage, try_catch, composePage, bind at 1.
  destruct (getImageDimensions_run host (fullPath c) w) as (w1 & -> & S1 & _).
  destruct (calculateOptimalLayout config _ _ _) as [e|layout].
  - unfold throw, warn. eexists. split; [reflexivity|]. exact S1.
  - unfold doc_addPage. destruct (PDFKit.known (cfg_pageSize config)).
    + unfold doc_rect_fill, doc_image, bind, get_document, set_document.
      cbn [document scratch warnings].
      destruct (image_error host (fullPath c)) as [e|]; cbn [fails].
      * unfold throw, warn. eexists. split; [reflexivity|]. exact S1.
      * unfold ret. eexists. split; [reflexivity|]. exact S1.
    + unfold bind, throw, warn. eexists. split; [reflexivity|]. exact S1.
Qed.

Lemma forEach_placeImage_total (cs : list ImageFile) (index : nat) (w : World) :
  exists w', forEach (placeImage host config) cs index w = (inr tt, w') /\
             scratch w' = scratch w.
Proof.
  revert index w. induction cs as [|c cs IH]; intros index w.
  - exists w. split; reflexivity.
  - cbn [forEach]. unfold bind at 1.
    destruct (placeImage_total c index w) as (w1 & -> & S1).
    destruct (IH (S index) w1) as (w2 & -> & S2).
    exists w2. split; [reflexivity|congruence].
Qed.

Lemma assemble_mkdir_fails (images : list ImageFile) (w : World) (e : JsError) :
  scratch w = None -> mkdirSync_error host = Some e ->
  assemble host config images w = (inl e, w).
Proof.
  intros Hs He. unfold assemble, bind at 1, get_scratch. rewrite Hs.
  unfold bind at 1. unfold bind at 1. rewrite He. reflexivity.
Qed.

Lemma assemble_total (images : list ImageFile) (w : World) :
  (scratch w = None -> mkdirSync_error host = None) ->
  exists w', assemble host config images w = (inr tt, w') /\
             scratch w' <> None.
Proof.
  intros Hmk.
  destruct (assemble_run host config images w Hmk)
    as (cs & w1 & _ & _ & S1 & ->).
  destruct (forEach_placeImage_total cs 0
              {| scratch := scratch w1; warnings := warnings w1; document := [];
                   made := made w1 |})
    as (w2 & -> & S2).
  exists w2. split; [reflexivity|]. rewrite S2. exact S1.
Qed.

End AssemblyMore.

Section MadeFacts.

Context {num : Type} {N : JsNumber num}.
Variable host : @Host num.
Variable config : Config num.

Lemma keeps_ret (A : Type) (a : A) : keeps_made (@ret num A a).
Proof. intros w. reflexivity. Qed.

Lemma keeps_throw (A : Type) (e : JsError) : keeps_made (@throw num A e).
Proof. intros w. reflexivity. Qed.

Lemma keeps_bind (A B : Type) (m : @M num A) (k : A -> @M num B) :
  keeps_made m -> (forall a, keeps_made (k a)) -> keeps_made (bind m k).
Proof.
  intros Hm Hk w. unfold bind. specialize (Hm w).
  destruct (m w) as [[e|a] w1]; cbn [snd] in *; [exact Hm|].
  rewrite (Hk a w1). exact Hm.
Qed.

Lemma keeps_try_catch (A : Type) (m : @M num A) (handler : JsError -> @M num A) :
  keeps_made m -> (forall e, keeps_made (handler e)) ->
  keeps_made (try_catch m handler).
Proof.
  intros Hm Hh w. unfold try_catch. specialize (Hm w).
  destruct (m w) as [[e|a] w1]; cbn [snd] in *; [|exact Hm].
  rewrite (Hh e w1). exact Hm.
Qed.

Lemma keeps_forEach (A : Type) (f : A -> nat -> @M num unit) (l : list A) :
  (forall a i, keeps_made (f a i)) -> forall i, keeps_made (forEach f l i).
Proof.
  intros Hf. induction l as [|a l IH]; intros i; cbn [forEach].
  - apply keeps_ret.
  - apply keeps_bind; [apply Hf|]. intros _. apply IH.
Qed.

Lemma keeps_warn (m : Warning) : keeps_made (@warn num m).
Proof. intros w. reflexivity. Qed.

Lemma keeps_set_scratch (l : option (list string)) :
  keeps_made (@set_scratch num l).
Proof. intros w. reflexivity. Qed.

Lemma keeps_set_document (d : list (@Page num)) : keeps_made (set_document d).
Proof. intros w. reflexivity. Qed.

Lemma keeps_get_scratch : keeps_made (@get_scratch num).
Proof. intros w. reflexivity. Qed.

Lemma keeps_get_document : keeps_made (@get_document num).
Proof. intros w. reflexivity. Qed.

Lemma keeps_fails (r : option JsError) : keeps_made (@fails num r).
Proof. destruct r; intros w; reflexivity. Qed.

Lemma keeps_host_call (A : Type) (r : option A) (e : JsError) :
  keeps_made (@host_call num A r e).
Proof. destruct r; intros w; reflexivity. Qed.

Ltac keeps :=
  repeat (intros; cbv beta;
          lazymatch goal with
          | |- keeps_made (ret _) => apply keeps_ret
          | |- keeps_made (throw _) => apply keeps_throw
          | |- keeps_made (bind _ _) => apply keeps_bind
          | |- keeps_made (try_catch _ _) => apply keeps_try_catch
          | |- keeps_made (forEach _ _ _) => apply keeps_forEach
          | |- keeps_made (warn _) => apply keeps_warn
          | |- keeps_made (set_scratch _) => apply keeps_set_scratch
          | |- keeps_made (set_document _) => apply keeps_set_document
          | |- keeps_made get_scratch => apply keeps_get_scratch
          | |- keeps_made get_document => apply keeps_get_document
          | |- keeps_made (fails _) => apply keeps_fails
          | |- keeps_made (host_call _ _) => apply keeps_host_call
          | |- keeps_made (match ?x with _ => _ end) => destruct x
          | _ => fail
          end);
  intros; cbv beta.

Lemma keeps_getImageDimensions (imagePath : string) :
  keeps_made (getImageDimensions host imagePath).
Proof. unfold getImageDimensions. keeps. Qed.

Lemma keeps_sharp_toFile (imagePath entry : string) :
  keeps_made (sharp_toFile host imagePath entry).
Proof. unfold sharp_toFile. keeps. Qed.

Lemma keeps_compressImage (imagePath dir : string) :
  keeps_made (compressImage host imagePath dir).
Proof.
  unfold compressImage. keeps.
  - apply keeps_getImageDimensions.
  - apply keeps_sharp_toFile.
Qed.

Lemma keeps_compressImages (images : list ImageFile) (dir : string) :
  keeps_made (compressImages host config images dir).
Proof.
  induction images as [|image rest IH]; cbn [compressImages]; keeps;
    solve [apply keeps_compressImage | exact IH].
Qed.

Lemma keeps_placeImage (c : ImageFile) (index : nat) :
  keeps_made (placeImage host config c index).
Proof.
  unfold placeImage, composePage. keeps.
  - apply keeps_getImageDimensions.
  - unfold doc_addPage. keeps.
  - unfold doc_rect_fill. keeps.
  - unfold doc_image. keeps.
Qed.

Lemma keeps_unlinkAll (dir : string) (files : list string) :
  keeps_made (unlinkAll host dir files).
Proof.
  induction files as [|file rest IH]; cbn [unlinkAll]; keeps; exact IH.
Qed.

Lemma assemble_made (images : list ImageFile) (w : World) :
  exists r w1, assemble host config images w = (r, w1) /\ made w1 = made w.
Proof.
  assert (H : keeps_made (assemble host config images)).
  { unfold assemble. keeps;
      solve [apply keeps_compressImages | apply keeps_placeImage]. }
  specialize (H w). destruct (assemble host config images w) as [r w1].
  exists r, w1. split; [reflexivity|exact H].
Qed.

Lemma cleanup_made (dir : string) (w : World) :
  exists r w1,
    try_catch (cleanup host dir)
      (fun cleanupError => warn (WarnCleanup cleanupError)) w = (r, w1) /\
    made w1 = made w.
Proof.
  assert (H : keeps_made (try_catch (cleanup host dir)
                            (fun cleanupError => warn (WarnCleanup cleanupError)))).
  { unfold cleanup. keeps. apply keeps_unlinkAll. }
  specialize (H w). destruct (try_catch _ _ w) as [r w1].
  exists r, w1. split; [reflexivity|exact H].
Qed.

End MadeFacts.

Section AssemblyOutcome.

Context {num : Type} {N : JsNumber num}.
Variable host : @Host num.
Variable config : Config num.

Lemma createPDF_assembled (images : list ImageFile)
    (outputPath folderName : string) (w w1 : World) :
  assemble host config images w = (inr tt, w1) ->
  createPDF host config images outputPath folderName w =
    (finish_outcome host outputPath,
     match stream_error host outputPath with
     | Some _ => w1
     | None => snd (try_catch (cleanup host (tempDir host))
                      (fun cleanupError => warn (WarnCleanup cleanupError)) w1)
     end).
Proof.
  intros H. unfold createPDF, finish_outcome. rewrite H.
  destruct (stream_error host outputPath); [reflexivity|].
  destruct (try_catch _ _ w1) as [r w2]. cbn [snd].
  destruct (statSync host outputPath); reflexivity.
Qed.

Lemma createPDF_document (images : list ImageFile)
    (outputPath folderName : string) (w w1 : World) :
  assemble host config images w = (inr tt, w1) ->
  document (snd (createPDF host config images outputPath folderName w)) =
  document w1.
Proof.
  intros H. rewrite (@createPDF_assembled images outputPath folderName _ _ H).
  cbn [snd]. destruct (stream_error host outputPath); [reflexivity|].
  destruct (cleanup_run host (tempDir host) w1) as (r & w2 & -> & D & _).
  exact D.
Qed.

Lemma createPDF_skipped (images : list ImageFile)
    (outputPath folderName : string) (w w1 : World) :
  assemble host config images w = (inr tt, w1) ->
  skipped (warnings (snd (createPDF host config images outputPath folderName w))) =
  skipped (warnings w1).
Proof.
  intros H. rewrite (@createPDF_assembled images outputPath folderName _ _ H).
  cbn [snd]. destruct (stream_error host outputPath); [reflexivity|].
  destruct (cleanup_run host (tempDir host) w1) as (r & w2 & -> & _ & K & _).
  exact K.
Qed.

Lemma createPDF_made (images : list ImageFile)
    (outputPath folderName : string) (w : World) :
  made (snd (createPDF host config images outputPath folderName w)) = made w.
Proof.
  unfold createPDF.
  destruct (assemble_made host config images w) as (r & w1 & -> & M1).
  destruct r as [e|[]]; [exact M1|].
  destruct (stream_error host outputPath); [exact M1|].
  destruct (cleanup_made host (tempDir host) w1) as (r & w2 & -> & M2).
  destruct (statSync host outputPath); cbn [snd]; congruence.
Qed.

Lemma page_for_fallback (p : PageFormat num) (c : ImageFile) (page : @Page num) :
  page_for host config p c page ->
  sizeOf host (fullPath c) = None ->
  exists layout,
    calculateOptimalLayout config (ncents 80000) (ncents 60000)
      (cfg_pageSize config) = inr layout /\
    (image_error host (fullPath c) = None ->
     page_image page =
       Some {| img_path := fullPath c;
               img_x := x layout; img_y := y layout;
               img_width := width layout;
               img_height := height layout |}).
Proof.
  intros (_ & _ & layout & Hlayout & Himage) Hsize.
  unfold probed_dimensions in Hlayout. rewrite Hsize in Hlayout.
  exists layout. split; [exact Hlayout|].
  intros Hok. rewrite Hok in Himage. exact Himage.
Qed.

End AssemblyOutcome.


(** C4.  With a registered page format, and the scratch directory present
    or creatable, [createPDF] leaves a document with exactly one page per
    image of the group, in the order of the group: the i-th page is the
    page composed for the working copy of the i-th image, filled with the
    background colour, laid out from the probed dimensions, and without
    image when [doc.image] fails; when probing the working copy fails, the
    layout is the one of an 800 x 600 image. *)
Theorem createPDF_one_page_per_image {num : Type} {N : JsNumber num}
    (host : @Host num) (config : Config num) (p : PageFormat num)
    (images : list ImageFile) (outputPath folderName : string) (w : World) :
  own_property (cfg_pageSize config) pageFormats = Some p ->
  (scratch w = None -> mkdirSync_error host = None) ->
  let w' := snd (createPDF host config images outputPath folderName w) in
  List.length (document w') = List.length images /\
  exists cs,
    Forall2 (working_copy host (tempDir host)) images cs /\
    Forall2 (page_for host config p) cs (document w') /\
    Forall2 (fun c page =>
               sizeOf host (fullPath c) = None ->
               exists layout,
                 calculateOptimalLayout config (ncents 80000) (ncents 60000)
                   (cfg_pageSize config) = inr layout /\
                 (image_error host (fullPath c) = None ->
                  page_image page =
                    Some {| img_path := fullPath c;
                            img_x := x layout; img_y := y layout;
                            img_width := width layout;
                            img_height := height layout |}))
      cs (document w').
Proof.
  intros Hp Hmk.
  destruct (assemble_run host config images w Hmk)
    as (cs & w1 & Hcs & _ & _ & Hrun).
  destruct (forEach_placeImage_registered host config cs Hp 0
              {| scratch := scratch w1; warnings := warnings w1; document := [];
                 made := made w1 |})
    as (w2 & pages & Hloop & _ & D2 & Hpages).
  rewrite Hloop in Hrun. cbn [document app] in D2.
  cbv zeta. rewrite (@createPDF_document _ _ host config images outputPath folderName _ _ Hrun).
  rewrite D2. split.
  - rewrite <- (Forall2_length Hpages). symmetry. exact (Forall2_length Hcs).
  - exists cs. split; [exact Hcs|]. split; [exact Hpages|].
    revert Hpages. apply Forall2_impl. intros c page Hpage Hsize.
    exact (page_for_fallback Hpage Hsize).
Qed.

(** C5, as stated, fails: with the unregistered page size B5 and a group of
    two images, the layout raises its error for the first image and the
    build is not aborted: the second image is attempted as well, both are
    skipped with a warning, and the promise resolves. *)
Lemma unknown_page_format_does_not_abort :
  let h := @Samples.host float _ []
             (fun _ => Some {| dim_width := Float64.cents 80000;
                               dim_height := Float64.cents 60000 |})
             (fun _ => None) (fun _ => None) in
  let c := Samples.config "B5" "fit" (Float64.cents 0) in
  let r := createPDF h c [Samples.image "1.jpg"; Samples.image "2.jpg"]
             "/out/scans.pdf" "scans" Samples.world in
  calculateOptimalLayout c (Float64.cents 80000) (Float64.cents 60000) "B5"
    = inl (Error "不支援的頁面格式: B5") /\
  fst r = Resolved "/out/scans.pdf" /\
  warnings (snd r) =
    [WarnSkip "1.jpg" (Error "不支援的頁面格式: B5");
     WarnSkip "2.jpg" (Error "不支援的頁面格式: B5")].
Proof.
  vm_compute. repeat split; reflexivity.
Qed.

(** C5 (amended).  When the configured page size makes the layout raise its
    unsupported-format error, the error is caught image by image: every
    image of the group is skipped with a warning carrying that error, in
    group order, no page is added to the document, and the build goes on
    to its end as for any group: rejected if the output stream fails,
    resolved with the output path if the final [statSync] of the output
    file succeeds, left unsettled if it throws. *)
Theorem unknown_page_format_skips_every_image {num : Type} {N : JsNumber num}
    (host : @Host num) (config : Config num)
    (images : list ImageFile) (outputPath folderName : string) (w : World) :
  pageFormats_get (N := N) (cfg_pageSize config) = None ->
  (scratch w = None -> mkdirSync_error host = None) ->
  let r := createPDF host config images outputPath folderName w in
  fst r = match stream_error host outputPath with
          | Some error => Rejected error
          | None =>
              match statSync host outputPath with
              | Some _ => Resolved outputPath
              | None => Unsettled ENOENT
              end
          end /\
  document (snd r) = [] /\
  skipped (warnings (snd r)) =
    (skipped (warnings w) ++
     map (fun image =>
            (name image, Error ("不支援的頁面格式: " ++ cfg_pageSize config)))
         images)%list.
Proof.
  intros Hp Hmk.
  destruct (assemble_run host config images w Hmk)
    as (cs & w1 & Hcs & K1 & _ & Hrun).
  destruct (forEach_placeImage_unknown host config cs Hp 0
              {| scratch := scratch w1; warnings := warnings w1; document := [];
                 made := made w1 |})
    as (w2 & Hloop & _ & D2 & K2).
  rewrite Hloop in Hrun. cbn [document warnings] in D2, K2.
  assert (Hskip : skipped (warnings w2) =
            (skipped (warnings w) ++
             map (fun image =>
                    (name image,
                     Error ("不支援的頁面格式: " ++ cfg_pageSize config)))
                 images)%list).
  { rewrite K2, K1. f_equal.
    rewrite <- (map_map name (fun n => (n, Error _))).
    rewrite (working_copy_names Hcs). apply map_map. }
  cbv zeta. split; [|split].
  - rewrite (@createPDF_assembled _ _ host config images outputPath folderName _ _ Hrun).
    reflexivity.
  - rewrite (@createPDF_document _ _ host config images outputPath folderName _ _ Hrun).
    exact D2.
  - rewrite (@createPDF_skipped _ _ host config images outputPath folderName _ _ Hrun).
    exact Hskip.
Qed.

(** C9.  When the build reaches its end (the scratch directory is present
    or creatable and the output stream finishes), whatever the outcome of
    the compression of each image: a failed deletion does not change what
    becomes of the promise, which is resolved with the output path when the
    final [statSync] of the output file succeeds; if no deletion fails, the
    scratch directory is gone afterwards; and if it is still there, a
    cleanup warning has been logged. *)
Theorem createPDF_cleanup {num : Type} {N : JsNumber num}
    (host : @Host num) (config : Config num)
    (images : list ImageFile) (outputPath folderName : string) (w : World) :
  stream_error host outputPath = None ->
  (scratch w = None -> mkdirSync_error host = None) ->
  let r := createPDF host config images outputPath folderName w in
  fst r = match statSync host outputPath with
          | Some _ => Resolved outputPath
          | None => Unsettled ENOENT
          end /\
  ((forall path, unlinkSync_error host path = None) ->
   rmdirSync_error host = None -> scratch (snd r) = None) /\
  (scratch (snd r) <> None -> exists e, In (WarnCleanup e) (warnings (snd r))).
Proof.
  intros Hstream Hmk.
  destruct (assemble_total host config images w Hmk) as (w2 & Hrun & _).
  cbv zeta.
  rewrite (@createPDF_assembled _ _ host config images outputPath folderName _ _ Hrun).
  unfold finish_outcome. rewrite Hstream. cbn [fst snd].
  destruct (cleanup_run host (tempDir host) w2)
    as (r & w3 & -> & _ & _ & Hleft & Hgone).
  cbn [snd]. split; [reflexivity|]. split; [exact Hgone|].
  intros Hsome. destruct Hleft as [Hnone|Hwarn]; [contradiction|exact Hwarn].
Qed.

Set Warnings "-inexact-float".

Lemma createPDF_one_page_per_image_witness :
  let h := @Samples.host float _ []
             (fun _ => None)
             (fun path => if String.eqb path "/app/dist/temp_compressed/2_compressed.jpg"
                          then Some (Error "Unknown image format.") else None)
             (fun _ => None) in
  let c := Samples.config "A4" "fit" (Float64.cents 0) in
  let p := {| pf_width := Float64.cents 59528; pf_height := Float64.cents 84189 |} in
  let images := [Samples.image "1.jpg"; Samples.image "2.jpg"; Samples.image "10.jpg"] in
  let w' := snd (createPDF h c images "/out/scans.pdf" "scans" Samples.world) in
  (own_property (cfg_pageSize c) pageFormats = Some p /\
   (scratch (@Samples.world float) = None -> mkdirSync_error h = None)) /\
  (List.length (document w') = List.length images /\
   exists cs,
     Forall2 (working_copy h (tempDir h)) images cs /\
     Forall2 (page_for h c p) cs (document w') /\
     Forall2 (fun c' page =>
                sizeOf h (fullPath c') = None ->
                exists layout,
                  calculateOptimalLayout c (Float64.cents 80000)
                    (Float64.cents 60000) (cfg_pageSize c) = inr layout /\
                  (image_error h (fullPath c') = None ->
                   page_image page =
                     Some {| img_path := fullPath c';
                             img_x := x layout; img_y := y layout;
                             img_width := width layout;
                             img_height := height layout |}))
       cs (document w')) /\
  map (@page_image float) (document w') =
    [Some {| img_path := "/app/dist/temp_compressed/1_compressed.jpg";
             img_x := 0%float; img_y := 197.715%float;
             img_width := 595.27999999999997%float;
             img_height := 446.45999999999998%float |};
     None;
     Some {| img_path := "/app/dist/temp_compressed/10_compressed.jpg";
             img_x := 0%float; img_y := 197.715%float;
             img_width := 595.27999999999997%float;
             img_height := 446.45999999999998%float |}].
Proof.
  intros h c p images w'. split; [|split].
  - split; reflexivity.
  - exact (@createPDF_one_page_per_image float _ h c p images "/out/scans.pdf"
             "scans" Samples.world eq_refl (fun _ => eq_refl)).
  - vm_compute. reflexivity.
Defined.

Set Warnings "inexact-float".

Lemma unknown_page_format_skips_every_image_witness :
  let h := @Samples.host float _ []
             (fun _ => None) (fun _ => None) (fun _ => None) in
  let c := Samples.config "B5" "fit" (Float64.cents 0) in
  let images := [Samples.image "1.jpg"; Samples.image "2.jpg"] in
  let r := createPDF h c images "/out/scans.pdf" "scans" Samples.world in
  (pageFormats_get (N := Float64.number) (cfg_pageSize c) = None /\
   (scratch (@Samples.world float) = None -> mkdirSync_error h = None)) /\
  fst r = Resolved "/out/scans.pdf" /\
  document (snd r) = [] /\
  skipped (warnings (snd r)) =
    [("1.jpg", Error "不支援的頁面格式: B5"); ("2.jpg", Error "不支援的頁面格式: B5")].
Proof.
  intros h c images r. split.
  - split; reflexivity.
  - apply (unknown_page_format_skips_every_image h c images
             "/out/scans.pdf" "scans" Samples.world); reflexivity.
Defined.

Lemma createPDF_cleanup_witness :
  let h := @Samples.host float _ []
             (fun _ => None) (fun _ => None)
             (fun path => if String.eqb path "/app/dist/temp_compressed/2_compressed.jpg"
                          then Some (Error "EBUSY") else None) in
  let c := Samples.config "A4" "fit" (Float64.cents 0) in
  let images := [Samples.image "1.jpg"; Samples.image "2.jpg"; Samples.image "10.jpg"] in
  let r := createPDF h c images "/out/scans.pdf" "scans" Samples.world in
  (stream_error h "/out/scans.pdf" = None /\
   (scratch (@Samples.world float) = None -> mkdirSync_error h = None)) /\
  (fst r = Resolved "/out/scans.pdf" /\
   ((forall path, unlinkSync_error h path = None) ->
    rmdirSync_error h = None -> scratch (snd r) = None) /\
   (scratch (snd r) <> None -> exists e, In (WarnCleanup e) (warnings (snd r)))) /\
  scratch (snd r) = Some ["2_compressed.jpg"] /\
  warnings (snd r) =
    [WarnDimensions "/photos/1.jpg"; WarnDimensions "/photos/2.jpg";
     WarnDimensions "/photos/10.jpg";
     WarnDimensions "/app/dist/temp_compressed/1_compressed.jpg";
     WarnDimensions "/app/dist/temp_compressed/2_compressed.jpg";
     WarnDimensions "/app/dist/temp_compressed/10_compressed.jpg";
     WarnCleanup (Error "EBUSY")].
Proof.
  intros h c images r. split; [|split; [|split]].
  - split; reflexivity.
  - apply (createPDF_cleanup h c images "/out/scans.pdf" "scans" Samples.world);
      reflexivity.
  - vm_compute. reflexivity.
  - vm_compute. reflexivity.
Defined.

(** ** Further properties of the layout calculator *)

Section LayoutMore.

Context {num : Type} {N : JsNumber num}.

Lemma own_property_registered (k : string) :
  In k ["A4"; "A3"; "Letter"; "Legal"] ->
  exists p : PageFormat num, own_property k pageFormats = Some p.
Proof.
  cbn. intros H. decompose [or] H; subst; try contradiction;
    eexists; reflexivity.
Qed.

Lemma calculateOptimalLayout_found (c : Config num) (w h : num) (k : string)
    (page : PageEntry num) :
  pageFormats_get k = Some page ->
  exists r, calculateOptimalLayout c w h k = inr r.
Proof.
  intros Hk. unfold calculateOptimalLayout. rewrite Hk.
  repeat match goal with
         | |- context [if ?b then _ else _] => destruct b
         end;
    eexists; reflexivity.
Qed.

(** The call raises its error exactly for the names that are neither one of
    the four page formats nor a member inherited from [Object.prototype],
    and the message of the error ends with the name. *)
Theorem calculateOptimalLayout_fails_iff (c : Config num) (w h : num) (k : string) :
  ((exists e, calculateOptimalLayout c w h k = inl e) <->
   ~ In k ["A4"; "A3"; "Letter"; "Legal"] /\ ~ In k Object_prototype) /\
  (forall e, calculateOptimalLayout c w h k = inl e ->
             e = Error ("不支援的頁面格式: " ++ k)).
Proof.
  split; [split|].
  - intros [e He]. split; intros Hin.
    + destruct (@own_property_registered k Hin) as [p Hp].
      destruct (@calculateOptimalLayout_found c w h k _ (pageFormats_get_own _ Hp))
        as [r Hr].
      congruence.
    + destruct (@calculateOptimalLayout_found c w h k _
                  (@pageFormats_get_inherited num N k Hin)) as [r Hr].
      congruence.
  - intros [Hown Hproto]. eexists.
    apply calculateOptimalLayout_unknown.
    apply pageFormats_get_undefined; assumption.
  - intros e He.
    destruct (pageFormats_get (N := N) k) as [page|] eqn:Hk.
    + destruct (@calculateOptimalLayout_found c w h k _ Hk) as [r Hr]. congruence.
    + rewrite (calculateOptimalLayout_unknown c w h k Hk) in He. congruence.
Qed.

(** In stretch and in custom mode the layout does not depend on the
    dimensions of the image. *)
Theorem stretch_and_custom_ignore_image (c : Config num) (w h w' h' : num)
    (k : string) :
  cfg_fillMode c = "stretch" \/ cfg_fillMode c = "custom" ->
  calculateOptimalLayout c w h k = calculateOptimalLayout c w' h' k.
Proof.
  unfold calculateOptimalLayout.
  intros [Hm|Hm]; rewrite Hm; destruct (pageFormats_get k); reflexivity.
Qed.

(** The layout reads three settings only: the minimum margin, the fill mode
    and the custom margins.  In particular the [margin] setting has no
    effect on it. *)
Theorem layout_reads_three_settings (c c' : Config num) (w h : num) (k : string) :
  cfg_minimumMargin c = cfg_minimumMargin c' ->
  cfg_fillMode c = cfg_fillMode c' ->
  cfg_customMargin c = cfg_customMargin c' ->
  calculateOptimalLayout c w h k = calculateOptimalLayout c' w h k.
Proof.
  intros Hm Hf Hc.
  unfold calculateOptimalLayout, effective_margin, effective_customMargin.
  rewrite Hm, Hf, Hc. reflexivity.
Qed.

End LayoutMore.

Lemma stretch_and_custom_ignore_image_witness :
  let c := Samples.config "A4" "custom" (Float64.cents 0) in
  (cfg_fillMode c = "stretch" \/ cfg_fillMode c = "custom") /\
  calculateOptimalLayout c (Float64.cents 80000) (Float64.cents 60000) "A4" =
  calculateOptimalLayout c (Float64.cents 120000) (Float64.cents 160000) "A4".
Proof.
  intros c. split; [right; reflexivity|].
  apply (@stretch_and_custom_ignore_image float _ c). right. reflexivity.
Defined.

Lemma layout_reads_three_settings_witness :
  let c := Samples.config "A4" "fit" (Float64.cents 0) in
  let c' := {| cfg_supportedFormats := [".png"];
               cfg_pageSize := "Legal";
               cfg_margin := Float64.cents 1000;
               cfg_backgroundColor := "#000000";
               cfg_minimumMargin := Float64.cents 0;
               cfg_fillMode := "fit";
               cfg_customMargin := cfg_customMargin c;
               cfg_preCompressImages := false |} in
  (cfg_minimumMargin c = cfg_minimumMargin c' /\
   cfg_fillMode c = cfg_fillMode c' /\
   cfg_customMargin c = cfg_customMargin c') /\
  calculateOptimalLayout c (Float64.cents 80000) (Float64.cents 60000) "A4" =
  calculateOptimalLayout c' (Float64.cents 80000) (Float64.cents 60000) "A4".
Proof.
  intros c c'. split; [repeat split|].
  apply (@layout_reads_three_settings float _ c c'); reflexivity.
Defined.

(** ** Further properties of the ordering of a group *)

Lemma take_digits_run (d r : string) :
  all_chars Ordering.is_digit d = true ->
  no_leading_digit r = true ->
  Ordering.take_digits (d ++ r) = d.
Proof.
  intros Hd Hr. induction d as [|c d IH]; cbn in *.
  - destruct r as [|c r]; [reflexivity|]. cbn in Hr.
    cbn. destruct (Ordering.is_digit c); [discriminate|reflexivity].
  - apply andb_prop in Hd. destruct Hd as [Hc Hd].
    rewrite Hc, (IH Hd). reflexivity.
Qed.

(** The numeric key of a name is the number written by its first run of
    digits, whatever precedes and follows the run: the integer itself when
    it is below 2^53; and the key of a name without digit is 0. *)
Theorem numeric_key_reads_first_digits :
  (forall p d r : string,
      all_chars (fun c => negb (Ordering.is_digit c)) p = true ->
      d <> EmptyString ->
      all_chars Ordering.is_digit d = true ->
      no_leading_digit r = true ->
      Ordering.numeric_key (p ++ d ++ r) = Ordering.parseInt d /\
      (Ordering.digits_value 0 d < 2 ^ 53 ->
       Ordering.numeric_key (p ++ d ++ r) = Ordering.digits_value 0 d)) /\
  (forall p : string,
      all_chars (fun c => negb (Ordering.is_digit c)) p = true ->
      Ordering.numeric_key p = 0).
Proof.
  split.
  - intros p d r Hp Hne Hd Hr.
    assert (Hkey : Ordering.numeric_key (p ++ d ++ r) = Ordering.parseInt d).
    { unfold Ordering.numeric_key.
      replace (Ordering.first_digits (p ++ d ++ r)) with (Some d); [reflexivity|].
      symmetry. induction p as [|c p IH]; cbn in *.
      - destruct d as [|c d]; [contradiction|]. cbn in *.
        apply andb_prop in Hd. destruct Hd as [Hc Hd].
        rewrite Hc, (take_digits_run d r Hd Hr). reflexivity.
      - apply andb_prop in Hp. destruct Hp as [Hc Hp].
        apply negb_true_iff in Hc. rewrite Hc. exact (IH Hp). }
    split; [exact Hkey|]. intros Hlt. rewrite Hkey.
    unfold Ordering.parseInt, Ordering.to_double.
    apply Z.ltb_lt in Hlt. rewrite Hlt. reflexivity.
  - intros p Hp. unfold Ordering.numeric_key.
    replace (Ordering.first_digits p) with (@None string); [reflexivity|].
    symmetry. induction p as [|c p IH]; [reflexivity|]. cbn in *.
    apply andb_prop in Hp. destruct Hp as [Hc Hp].
    apply negb_true_iff in Hc. rewrite Hc. exact (IH Hp).
Qed.

Lemma numeric_key_reads_first_digits_witness :
  (all_chars (fun c => negb (Ordering.is_digit c)) "scan_" = true /\
   "007" <> EmptyString /\
   all_chars Ordering.is_digit "007" = true /\
   no_leading_digit "-page12.jpg" = true) /\
  Ordering.numeric_key ("scan_" ++ "007" ++ "-page12.jpg") = Ordering.parseInt "007" /\
  Ordering.numeric_key "scan_007-page12.jpg" = 7.
Proof.
  split; [repeat split; discriminate || reflexivity|].
  split.
  - apply (proj1 numeric_key_reads_first_digits "scan_" "007" "-page12.jpg");
      discriminate || reflexivity.
  - vm_compute. reflexivity.
Defined.

Section SortMore.

Variable A : Type.
Variable compareFn : A -> A -> Z.

Hypothesis before_trans :
  forall a b c, Ordering.precedes compareFn a b -> Ordering.precedes compareFn b c ->
                Ordering.precedes compareFn a c.

Lemma Array_sort_fixed (l : list A) :
  StronglySorted (Ordering.precedes compareFn) l ->
  Ordering.Array_sort compareFn l = l.
Proof.
  induction 1 as [|a l Hs IH Ha]; [reflexivity|].
  cbn. fold (Ordering.Array_sort compareFn l). rewrite IH.
  destruct Ha as [|b l Hab _]; [reflexivity|].
  cbn. apply Z.leb_le in Hab. rewrite Hab. reflexivity.
Qed.

Lemma insert_filter_rank (x a : A) (l : list A) :
  filter (same_rank compareFn x) (Ordering.insert compareFn a l) =
  filter (same_rank compareFn x) (a :: l).
Proof.
  induction l as [|b l IH]; [reflexivity|].
  cbn [Ordering.insert].
  destruct (Z.leb_spec (compareFn a b) 0) as [Hab|Hab]; [reflexivity|].
  cbn [filter] in *. rewrite IH.
  destruct (same_rank compareFn x a) eqn:Ea;
    destruct (same_rank compareFn x b) eqn:Eb; try reflexivity.
  exfalso. unfold same_rank in Ea, Eb.
  apply andb_prop in Ea, Eb. destruct Ea as [_ Hax], Eb as [Hxb _].
  apply Z.leb_le in Hax, Hxb.
  pose proof (before_trans Hax Hxb) as H. unfold Ordering.precedes in H. lia.
Qed.

Lemma Array_sort_stable (x : A) (l : list A) :
  filter (same_rank compareFn x) (Ordering.Array_sort compareFn l) =
  filter (same_rank compareFn x) l.
Proof.
  induction l as [|a l IH]; [reflexivity|].
  cbn [Ordering.Array_sort fold_right].
  fold (Ordering.Array_sort compareFn l).
  rewrite insert_filter_rank. cbn [filter]. rewrite IH. reflexivity.
Qed.

End SortMore.

Section GroupMore.

Context {num : Type}.
Variable host : @Host num.
Variable config : Config num.

Lemma stat_all_None (dir : string) (files : list string) :
  stat_all host dir files = None <->
  exists file, In file files /\ statSync host (path_join host dir file) = None.
Proof.
  induction files as [|file rest IH]; cbn.
  - split; [discriminate|]. intros (f & [] & _).
  - destruct (statSync host (path_join host dir file)) as [size|] eqn:E.
    + destruct (stat_all host dir rest) as [l|].
      * split; [discriminate|]. intros (f & [<-|Hin] & Hf); [congruence|].
        assert (H : Some l = None) by (apply (proj2 IH); exists f; auto).
        discriminate H.
      * split; [|reflexivity]. intros _.
        destruct (proj1 IH eq_refl) as (f & Hin & Hf). exists f. auto.
    + split; [|reflexivity]. intros _. exists file. auto.
Qed.

Lemma stat_all_Some (dir : string) (files : list string) (l : list ImageFile) :
  stat_all host dir files = Some l ->
  map name l = files /\
  Forall (fun f => fullPath f = path_join host dir (name f) /\
                   originalPath f = None /\ compressed f = None) l.
Proof.
  revert l. induction files as [|file rest IH]; cbn; intros l H.
  - injection H as <-. split; [reflexivity|constructor].
  - destruct (statSync host (path_join host dir file)) as [size|]; [|discriminate].
    destruct (stat_all host dir rest) as [l'|]; [|discriminate].
    injection H as <-. destruct (IH l' eq_refl) as [Hn Hf].
    split; [cbn; rewrite Hn; reflexivity|].
    constructor; [cbn; auto|exact Hf].
Qed.

End GroupMore.

(** A directory that cannot be listed gives the empty group, and so does a
    directory in which one supported file cannot be read by [statSync]: the
    other files of the directory are lost with it. *)
Theorem getImageFiles_unreadable {num : Type} (host : @Host num)
    (config : Config num) (dir : string) :
  (readdirSync host dir = None -> getImageFiles host config dir = []) /\
  (forall files file,
      readdirSync host dir = Some files ->
      In file files ->
      supported host config file = true ->
      statSync host (path_join host dir file) = None ->
      getImageFiles host config dir = []).
Proof.
  unfold getImageFiles. split.
  - intros ->. reflexivity.
  - intros files file -> Hin Hsup Hstat.
    replace (stat_all host dir (filter (supported host config) files))
      with (@None (list ImageFile)); [reflexivity|].
    symmetry. apply stat_all_None. exists file. split; [|exact Hstat].
    apply filter_In. auto.
Qed.

(** When the directory can be listed and its supported files can be read,
    the group consists of exactly the listed files with a supported
    extension, each once, with the path of the file inside the directory. *)
Theorem getImageFiles_lists_supported {num : Type} (host : @Host num)
    (config : Config num) (dir : string) (files : list string) :
  readdirSync host dir = Some files ->
  (forall file, In file files -> supported host config file = true ->
                statSync host (path_join host dir file) <> None) ->
  Permutation (filter (supported host config) files)
              (map name (getImageFiles host config dir)) /\
  Forall (fun f => fullPath f = path_join host dir (name f) /\
                   originalPath f = None /\ compressed f = None)
         (getImageFiles host config dir).
Proof.
  intros Hdir Hstat. unfold getImageFiles. rewrite Hdir.
  destruct (stat_all host dir (filter (supported host config) files))
    as [imageFiles|] eqn:E.
  - destruct (stat_all_Some host dir _ E) as [Hn Hf].
    pose proof (Array_sort_Permutation (compareImages host) imageFiles) as HP.
    split.
    + rewrite <- Hn. apply Permutation_map. exact HP.
    + exact (Permutation_Forall HP Hf).
  - apply stat_all_None in E. destruct E as (file & Hin & Hnone).
    apply filter_In in Hin. destruct Hin as [Hin Hsup].
    elim (Hstat file Hin Hsup Hnone).
Qed.

(** [getImageFiles] keeps the order of the directory listing among files of
    the same rank (same numeric key, and names that [localeCompare] does not
    tell apart), when [localeCompare] is transitive. *)
Theorem getImageFiles_stable {num : Type} (host : @Host num)
    (config : Config num) (dir : string) (files : list string)
    (imageFiles : list ImageFile) (x : ImageFile) :
  (forall a b c, localeCompare host a b <= 0 -> localeCompare host b c <= 0 ->
                 localeCompare host a c <= 0) ->
  readdirSync host dir = Some files ->
  stat_all host dir (filter (supported host config) files) = Some imageFiles ->
  filter (same_rank (compareImages host) x) (getImageFiles host config dir) =
  filter (same_rank (compareImages host) x) imageFiles /\
  map name imageFiles = filter (supported host config) files.
Proof.
  intros Htrans Hdir Hstat. unfold getImageFiles. rewrite Hdir, Hstat. split.
  - apply Array_sort_stable. intros a b c. apply compareImages_trans. exact Htrans.
  - exact (proj1 (stat_all_Some host dir _ Hstat)).
Qed.

(** Sorting again a group that [getImageFiles] returned changes nothing,
    when [localeCompare] is a total preorder. *)
Theorem getImageFiles_sorted_again {num : Type} (host : @Host num)
    (config : Config num) (dir : string) :
  (forall a b, localeCompare host a b <= 0 \/ localeCompare host b a <= 0) ->
  (forall a b c, localeCompare host a b <= 0 -> localeCompare host b c <= 0 ->
                 localeCompare host a c <= 0) ->
  Ordering.Array_sort (compareImages host) (getImageFiles host config dir) =
  getImageFiles host config dir.
Proof.
  intros Htotal Htrans. apply Array_sort_fixed. unfold getImageFiles.
  destruct (readdirSync host dir) as [files|]; [|constructor].
  destruct (stat_all host dir (filter (supported host config) files));
    [|constructor].
  apply Array_sort_sorted.
  - intros a b. apply compareImages_total. exact Htotal.
  - intros a b c. apply compareImages_trans. exact Htrans.
Qed.

(** ** Further properties of the preprocessing and of the assembly *)


(** With pre-compression switched off, [compressImages] returns the images
    as they are and touches neither the scratch directory nor the log. *)
Theorem compressImages_disabled {num : Type} {N : JsNumber num}
    (host : @Host num) (config : Config num)
    (images : list ImageFile) (dir : string) (w : World) :
  cfg_preCompressImages config = false ->
  compressImages host config images dir w = (inr images, w).
Proof.
  apply compressImages_passthrough.
Qed.

(** [compressImages] never throws and returns one descriptor per image, in
    order, with the name and size of the image; the path is the one of the
    image or of its compressed copy; a descriptor that is not the image
    itself records the original path, and is flagged compressed exactly when
    its path differs from it. *)
Theorem compressImages_descriptors {num : Type} {N : JsNumber num}
    (host : @Host num) (config : Config num)
    (images : list ImageFile) (dir : string) (w : World) :
  exists cs w',
    compressImages host config images dir w = (inr cs, w') /\
    document w' = document w /\
    Forall2 (fun image c =>
               name c = name image /\
               stats_size c = stats_size image /\
               (fullPath c = fullPath image \/
                fullPath c = compressedPath host (fullPath image) dir) /\
               (c = image \/
                originalPath c = Some (fullPath image) /\
                compressed c =
                  Some (negb (String.eqb (fullPath c) (fullPath image)))))
            images cs.
Proof.
  revert w. induction images as [|image rest IH]; intros w.
  - exists [], w. split; [reflexivity|]. split; [reflexivity|constructor].
  - cbn [compressImages]. unfold bind at 1.
    destruct (cfg_preCompressImages config).
    + unfold bind at 1.
      destruct (compressImage_run host (fullPath image) dir w)
        as (path' & w1 & -> & Hpath & (D1 & _)).
      unfold ret at 1. unfold bind at 1.
      destruct (IH w1) as (cs & w2 & -> & D2 & Hcs).
      eexists; eexists. split; [reflexivity|]. split; [congruence|].
      constructor; [|exact Hcs]. cbn.
      split; [reflexivity|]. split; [reflexivity|]. split; [exact Hpath|].
      right. split; reflexivity.
    + unfold ret at 1. unfold bind at 1.
      destruct (IH w) as (cs & w2 & -> & D2 & Hcs).
      eexists; eexists. split; [reflexivity|]. split; [exact D2|].
      constructor; [|exact Hcs].
      split; [reflexivity|]. split; [reflexivity|]. split; [left; reflexivity|].
      left. reflexivity.
Qed.

Section CompressMore.

Context {num : Type} {N : JsNumber num}.
Variable host : @Host num.

Lemma getImageDimensions_log (imagePath : string) (w : World) :
  exists w',
    getImageDimensions host imagePath w =
      (inr (probed_dimensions host imagePath), w') /\
    scratch w' = scratch w /\
    document w' = document w /\
    warnings w' = (warnings w ++ probe_log host imagePath)%list.
Proof.
  unfold getImageDimensions, probed_dimensions, probe_log.
  destruct (sizeOf host imagePath).
  - exists w. repeat split. symmetry. apply app_nil_r.
  - eexists. split; [reflexivity|]. repeat split.
Qed.

Lemma in_insert_at (A : Type) (i : nat) (a b : A) (l : list A) :
  In b (insert_at i a l) <-> a = b \/ In b l.
Proof.
  unfold insert_at. rewrite in_app_iff. cbn [In].
  assert (H : In b l <-> In b (firstn i l) \/ In b (skipn i l)).
  { rewrite <- in_app_iff, firstn_skipn. tauto. }
  tauto.
Qed.

Lemma compressImage_succeeds (imagePath dir : string) (w : World)
    (entries : list string) :
  statSync host imagePath <> None ->
  sharp_error host imagePath = None ->
  scratch w = Some entries ->
  exists w' entries',
    compressImage host imagePath dir w =
      (inr (compressedPath host imagePath dir), w') /\
    document w' = document w /\
    warnings w' = (warnings w ++ probe_log host imagePath)%list /\
    scratch w' = Some entries' /\
    incl entries entries' /\
    In (path_basename host imagePath
          (toLowerCase host (path_extname host imagePath)) ++ "_compressed.jpg")
       entries'.
Proof.
  intros Hstat Hsharp Hscratch.
  unfold compressImage, try_catch, bind at 1.
  destruct (statSync host imagePath) as [size|]; [|congruence].
  cbn [host_call]. unfold ret at 1. unfold bind at 1.
  destruct (getImageDimensions_log imagePath w) as (w1 & -> & S1 & D1 & K1).
  unfold bind at 1. unfold sharp_toFile, bind at 1. rewrite Hsharp.
  cbn [fails]. unfold ret at 1. unfold bind at 1, get_scratch.
  rewrite S1, Hscratch.
  destruct (existsb _ entries) eqn:E.
  - unfold ret. exists w1, entries. split; [reflexivity|].
    split; [exact D1|]. split; [exact K1|]. split; [congruence|].
    split; [apply incl_refl|].
    apply existsb_exists in E. destruct E as (f & Hin & Hf).
    apply String.eqb_eq in Hf. rewrite Hf. exact Hin.
  - unfold set_scratch. eexists; eexists. split; [reflexivity|].
    cbn [scratch warnings document].
    split; [exact D1|]. split; [exact K1|]. split; [reflexivity|].
    split; [intros f Hf; apply in_insert_at; right; exact Hf|].
    apply in_insert_at. left. reflexivity.
Qed.

Lemma compressImage_falls_back (imagePath dir : string) (w : World) :
  statSync host imagePath = None \/ sharp_error host imagePath <> None \/
  scratch w = None ->
  exists w' ws,
    compressImage host imagePath dir w = (inr imagePath, w') /\
    scratch w' = scratch w /\
    document w' = document w /\
    warnings w' = (warnings w ++ ws ++ [WarnCompress imagePath])%list.
Proof.
  intros Hfail.
  unfold compressImage, try_catch, bind at 1.
  destruct (statSync host imagePath) as [size|] eqn:Estat; cbn [host_call].
  - unfold ret at 1. unfold bind at 1.
    destruct (getImageDimensions_log imagePath w) as (w1 & -> & S1 & D1 & K1).
    unfold bind at 1. unfold sharp_toFile, bind at 1.
    destruct (sharp_error host imagePath) as [e|] eqn:Esharp; cbn [fails].
    + unfold throw at 1. unfold warn, bind, ret.
      eexists; exists (probe_log host imagePath). split; [reflexivity|].
      cbn [scratch warnings document]. rewrite K1, <- app_assoc. auto.
    + unfold ret at 1. unfold bind at 1, get_scratch.
      destruct (scratch w1) as [entries|] eqn:E1.
      * exfalso. destruct Hfail as [H|[H|H]]; congruence.
      * unfold throw at 1. unfold warn, bind, ret.
        eexists; exists (probe_log host imagePath). split; [reflexivity|].
        cbn [scratch warnings document]. rewrite K1, <- app_assoc.
        repeat split; congruence.
  - unfold throw at 1. unfold warn, bind, ret.
    eexists; exists []. split; [reflexivity|].
    cbn [scratch warnings document app]. auto.
Qed.

End CompressMore.

(** [compressImage] never throws.  When the source can be read, sharp
    succeeds and the scratch directory exists, it returns the path of the
    compressed copy, whose entry is then in the scratch directory, and logs
    no compression warning.  Otherwise it returns the path it was given,
    leaves the scratch directory as it was and ends the log with a
    compression warning for that path. *)
Theorem compressImage_outcome {num : Type} {N : JsNumber num}
    (host : @Host num) (imagePath dir : string) (w : World) :
  (forall entries,
      statSync host imagePath <> None ->
      sharp_error host imagePath = None ->
      scratch w = Some entries ->
      exists w' entries',
        compressImage host imagePath dir w =
          (inr (compressedPath host imagePath dir), w') /\
        ~ In (WarnCompress imagePath) (skipn (List.length (warnings w)) (warnings w')) /\
        scratch w' = Some entries' /\
        incl entries entries' /\
        In (path_basename host imagePath
              (toLowerCase host (path_extname host imagePath)) ++ "_compressed.jpg")
           entries') /\
  (statSync host imagePath = None \/ sharp_error host imagePath <> None \/
   scratch w = None ->
   exists w' ws,
     compressImage host imagePath dir w = (inr imagePath, w') /\
     scratch w' = scratch w /\
     warnings w' = (warnings w ++ ws ++ [WarnCompress imagePath])%list).
Proof.
  split.
  - intros entries Hstat Hsharp Hscratch.
    destruct (compressImage_succeeds host imagePath dir w Hstat Hsharp Hscratch)
      as (w' & entries' & Hrun & _ & K & S & Hincl & Hin).
    exists w', entries'. split; [exact Hrun|]. split; [|auto].
    rewrite K, skipn_app, Nat.sub_diag, skipn_all. cbn [app skipn].
    unfold probe_log. destruct (sizeOf host imagePath); cbn; [tauto|].
    intros [H|[]]. discriminate H.
  - intros Hfail.
    destruct (compressImage_falls_back host imagePath dir w Hfail)
      as (w' & ws & Hrun & S & _ & K).
    exists w', ws. auto.
Qed.

Section BuildMore.

Context {num : Type} {N : JsNumber num}.
Variable host : @Host num.
Variable config : Config num.

Lemma placeImage_registered_log (p : PageFormat num) (c : ImageFile)
    (index : nat) (w : World) :
  own_property (cfg_pageSize config) pageFormats = Some p ->
  exists w',
    placeImage host config c index w = (inr tt, w') /\
    skipped (warnings w') =
      (skipped (warnings w) ++ placement_failure host c)%list.
Proof.
  intros Hp. unfold placeImage, try_catch, composePage, bind at 1.
  destruct (getImageDimensions_run host (fullPath c) w) as (w1 & -> & _ & _ & K1).
  destruct (calculateOptimalLayout_registered config
              (dim_width (probed_dimensions host (fullPath c)))
              (dim_height (probed_dimensions host (fullPath c))) _ Hp)
    as (layout & -> & _).
  unfold doc_addPage. rewrite (registered_known _ Hp).
  unfold doc_rect_fill, doc_image, bind, get_document, set_document.
  cbn [document scratch warnings]. unfold placement_failure.
  destruct (image_error host (fullPath c)) as [e|]; cbn [fails].
  - unfold throw, warn. eexists. split; [reflexivity|].
    cbn [warnings]. rewrite skipped_app, K1. reflexivity.
  - unfold ret. eexists. split; [reflexivity|].
    cbn [warnings]. rewrite K1. symmetry. apply app_nil_r.
Qed.

Lemma forEach_placeImage_registered_log (p : PageFormat num)
    (cs : list ImageFile) :
  own_property (cfg_pageSize config) pageFormats = Some p ->
  forall (index : nat) (w : World),
  exists w',
    forEach (placeImage host config) cs index w = (inr tt, w') /\
    skipped (warnings w') =
      (skipped (warnings w) ++ flat_map (placement_failure host) cs)%list.
Proof.
  intros Hp. induction cs as [|c cs IH]; intros index w.
  - exists w. split; [reflexivity|]. symmetry. apply app_nil_r.
  - cbn [forEach flat_map]. unfold bind at 1.
    destruct (placeImage_registered_log c index w Hp) as (w1 & -> & K1).
    destruct (IH (S index) w1) as (w2 & -> & K2).
    exists w2. split; [reflexivity|]. rewrite K2, K1, <- app_assoc. reflexivity.
Qed.

Lemma unlinkAll_exact (dir : string) (files : list string) (w : World) :
  scratch w = Some files ->
  exists r w',
    unlinkAll host dir files w = (r, w') /\
    warnings w' = warnings w /\
    document w' = document w /\
    scratch w' = Some (undeleted host dir files) /\
    match undeleted host dir files with
    | file :: _ =>
        exists e, unlinkSync_error host (path_join host dir file) = Some e /\
                  r = inl e
    | [] => r = inr tt
    end.
Proof.
  revert w. induction files as [|file rest IH]; intros w Hs.
  - exists (inr tt), w. repeat split. exact Hs.
  - cbn [unlinkAll undeleted]. unfold bind at 1.
    destruct (unlinkSync_error host (path_join host dir file)) as [e|] eqn:E;
      cbn [fails].
    + exists (inl e), w. split; [reflexivity|]. repeat split; [exact Hs|].
      exists e. split; [exact E|reflexivity].
    + unfold ret at 1. unfold bind at 1, set_scratch.
      destruct (IH {| scratch := Some rest;
                      warnings := warnings w;
                      document := document w;
                   made := made w |} eq_refl)
        as (r & w' & -> & K & D & S & Hr).
      exists r, w'. split; [reflexivity|]. auto.
Qed.

Lemma cleanup_exact (dir : string) (files : list string) (w : World) :
  scratch w = Some files ->
  exists r w',
    try_catch (cleanup host dir)
      (fun cleanupError => warn (WarnCleanup cleanupError)) w = (r, w') /\
    document w' = document w /\
    match cleanup_failure host dir files with
    | Some e =>
        scratch w' = Some (undeleted host dir files) /\
        warnings w' = (warnings w ++ [WarnCleanup e])%list
    | None => scratch w' = None /\ warnings w' = warnings w
    end.
Proof.
  intros Hs. unfold try_catch, cleanup, bind at 1, get_scratch. rewrite Hs.
  unfold bind at 1. unfold cleanup_failure.
  destruct (unlinkAll_exact dir w Hs) as (r & w1 & -> & K1 & D1 & S1 & Hr).
  destruct (undeleted host dir files) as [|file rest].
  - subst r. unfold bind at 1.
    destruct (rmdirSync_error host) as [e|]; cbn [fails].
    + unfold throw, warn. eexists; eexists. split; [reflexivity|].
      cbn [scratch warnings document]. rewrite K1. auto.
    + unfold ret, set_scratch. eexists; eexists. split; [reflexivity|].
      cbn [scratch warnings document]. auto.
  - destruct Hr as (e & -> & ->). unfold warn.
    eexists; eexists. split; [reflexivity|].
    cbn [scratch warnings document]. rewrite K1. auto.
Qed.

Lemma assemble_passthrough (images : list ImageFile) (w : World) :
  cfg_preCompressImages config = false ->
  (scratch w = None -> mkdirSync_error host = None) ->
  exists entries,
    assemble host config images w =
      forEach (placeImage host config) images 0
        {| scratch := Some entries; warnings := warnings w; document := [];
                   made := made w |}.
Proof.
  intros Hoff Hmk. unfold assemble, bind at 1, get_scratch.
  destruct (scratch w) as [entries|] eqn:E.
  - exists entries. unfold bind at 1. unfold ret at 1. unfold bind at 1.
    rewrite (compressImages_passthrough host config images _ w Hoff).
    unfold bind at 1, set_document. rewrite E. reflexivity.
  - exists []. rewrite (Hmk eq_refl). unfold bind at 1. unfold bind at 1.
    cbn [fails]. unfold ret at 1, set_scratch. unfold bind at 1.
    rewrite (compressImages_passthrough host config images _ _ Hoff).
    unfold bind at 1, set_document. reflexivity.
Qed.

End BuildMore.

(** The promise returned by [createPDF] is rejected in two cases only: the
    scratch directory is missing and cannot be created (then nothing else
    is done), or the output stream reports an error.  Otherwise the
    [finish] handler decides: the promise is resolved with the output path
    when the final [statSync] of the output file succeeds, and is left
    unsettled when it throws.  Failures of probing, compression, layout,
    placement or cleanup change nothing to that. *)
Theorem createPDF_outcome {num : Type} {N : JsNumber num}
    (host : @Host num) (config : Config num)
    (images : list ImageFile) (outputPath folderName : string) (w : World) :
  fst (createPDF host config images outputPath folderName w) =
    match scratch w, mkdirSync_error host with
    | None, Some e => Rejected e
    | _, _ =>
        match stream_error host outputPath with
        | Some e => Rejected e
        | None =>
            match statSync host outputPath with
            | Some _ => Resolved outputPath
            | None => Unsettled ENOENT
            end
        end
    end /\
  (forall e, scratch w = None -> mkdirSync_error host = Some e ->
             snd (createPDF host config images outputPath folderName w) = w).
Proof.
  destruct (scratch w) as [entries|] eqn:Hs.
  - split; [|discriminate].
    destruct (assemble_total host config images w) as (w1 & Hrun & _);
      [congruence|].
    rewrite (@createPDF_assembled _ _ host config images outputPath folderName
               _ _ Hrun).
    reflexivity.
  - destruct (mkdirSync_error host) as [e|] eqn:He.
    + unfold createPDF.
      rewrite (assemble_mkdir_fails host config images w Hs He).
      split; [reflexivity|]. intros; reflexivity.
    + split; [|discriminate].
      destruct (assemble_total host config images w) as (w1 & Hrun & _);
        [auto|].
      rewrite (@createPDF_assembled _ _ host config images outputPath folderName
                 _ _ Hrun).
      reflexivity.
Qed.

(** When the output stream fails, the cleanup does not run: the promise is
    rejected with the error of the stream and the scratch directory is still
    there. *)
Theorem createPDF_stream_error_keeps_scratch {num : Type} {N : JsNumber num}
    (host : @Host num) (config : Config num)
    (images : list ImageFile) (outputPath folderName : string) (w : World)
    (e : JsError) :
  stream_error host outputPath = Some e ->
  (scratch w = None -> mkdirSync_error host = None) ->
  let r := createPDF host config images outputPath folderName w in
  fst r = Rejected e /\ scratch (snd r) <> None.
Proof.
  intros He Hmk. unfold createPDF.
  destruct (assemble_total host config images w Hmk) as (w1 & -> & S1).
  rewrite He. cbn. auto.
Qed.

Section InheritedPageSize.

Context {num : Type} {N : JsNumber num}.
Variable host : @Host num.
Variable config : Config num.

Lemma inherited_unknown (k : string) :
  In k Object_prototype -> PDFKit.known k = false.
Proof.
  cbn. intros H. decompose [or] H; subst; reflexivity || contradiction.
Qed.

Lemma placeImage_unsized (page : PageEntry num) (c : ImageFile) (index : nat)
    (w : World) :
  pageFormats_get (cfg_pageSize config) = Some page ->
  PDFKit.known (cfg_pageSize config) = false ->
  exists w',
    placeImage host config c index w = (inr tt, w') /\
    scratch w' = scratch w /\
    document w' = document w /\
    skipped (warnings w') =
      (skipped (warnings w) ++ [(name c, PDFKit.unknown_size)])%list.
Proof.
  intros Hp Hk. unfold placeImage, try_catch, composePage, bind at 1.
  destruct (getImageDimensions_run host (fullPath c) w) as (w1 & -> & S1 & D1 & K1).
  destruct (calculateOptimalLayout_found config
              (dim_width (probed_dimensions host (fullPath c)))
              (dim_height (probed_dimensions host (fullPath c))) _ Hp)
    as (layout & ->).
  unfold doc_addPage. rewrite Hk. unfold bind, throw, warn.
  eexists. split; [reflexivity|]. cbn [scratch document warnings].
  rewrite skipped_app. cbn [skipped]. rewrite K1.
  repeat split; assumption.
Qed.

Lemma forEach_placeImage_unsized (page : PageEntry num) (cs : list ImageFile) :
  pageFormats_get (cfg_pageSize config) = Some page ->
  PDFKit.known (cfg_pageSize config) = false ->
  forall (index : nat) (w : World),
  exists w',
    forEach (placeImage host config) cs index w = (inr tt, w') /\
    document w' = document w /\
    skipped (warnings w') =
      (skipped (warnings w) ++
       map (fun c => (name c, PDFKit.unknown_size)) cs)%list.
Proof.
  intros Hp Hk. induction cs as [|c cs IH]; intros index w.
  - exists w. repeat split. symmetry. apply app_nil_r.
  - cbn [forEach]. unfold bind at 1.
    destruct (placeImage_unsized c index w Hp Hk) as (w1 & -> & _ & D1 & K1).
    destruct (IH (S index) w1) as (w2 & -> & D2 & K2).
    exists w2. split; [reflexivity|]. split; [congruence|].
    rewrite K2, K1, <- app_assoc. reflexivity.
Qed.

End InheritedPageSize.

(** When the configured page size is the name of a member inherited from
    [Object.prototype], the layout raises no error, but PDFKit has no page
    of that size and [doc.addPage] throws for every image: with the scratch
    directory present or creatable, every image of the group is skipped
    with that error, in group order, and the document has no page. *)
Theorem createPDF_inherited_page_size {num : Type} {N : JsNumber num}
    (host : @Host num) (config : Config num)
    (images : list ImageFile) (outputPath folderName : string) (w : World) :
  In (cfg_pageSize config) Object_prototype ->
  (scratch w = None -> mkdirSync_error host = None) ->
  let r := createPDF host config images outputPath folderName w in
  (forall imgWidth imgHeight, exists layout,
      calculateOptimalLayout config imgWidth imgHeight (cfg_pageSize config) =
      inr layout) /\
  document (snd r) = [] /\
  skipped (warnings (snd r)) =
    (skipped (warnings w) ++
     map (fun image => (name image, PDFKit.unknown_size)) images)%list.
Proof.
  intros Hin Hmk.
  pose proof (@pageFormats_get_inherited num N _ Hin) as Hp.
  pose proof (inherited_unknown Hin) as Hk.
  destruct (assemble_run host config images w Hmk)
    as (cs & w1 & Hcs & K1 & _ & Hrun).
  destruct (forEach_placeImage_unsized host config cs Hp Hk 0
              {| scratch := scratch w1; warnings := warnings w1; document := [];
                 made := made w1 |})
    as (w2 & Hloop & D2 & K2).
  rewrite Hloop in Hrun. cbn [document warnings] in D2, K2.
  cbv zeta. split; [|split].
  - intros imgWidth imgHeight.
    exact (calculateOptimalLayout_found config imgWidth imgHeight _ Hp).
  - rewrite (@createPDF_document _ _ host config images outputPath folderName _ _ Hrun).
    exact D2.
  - rewrite (@createPDF_skipped _ _ host config images outputPath folderName _ _ Hrun).
    rewrite K2, K1. f_equal.
    rewrite <- (map_map name (fun n => (n, PDFKit.unknown_size))).
    rewrite (working_copy_names Hcs). apply map_map.
Qed.

(** With a registered page format, the images reported as skipped by a
    build are exactly the working copies that [doc.image] refused, in group
    order, each with the error of [doc.image]. *)
Theorem createPDF_skips_failed_placements {num : Type} {N : JsNumber num}
    (host : @Host num) (config : Config num) (p : PageFormat num)
    (images : list ImageFile) (outputPath folderName : string) (w : World) :
  own_property (cfg_pageSize config) pageFormats = Some p ->
  (scratch w = None -> mkdirSync_error host = None) ->
  let w' := snd (createPDF host config images outputPath folderName w) in
  exists cs,
    Forall2 (working_copy host (tempDir host)) images cs /\
    skipped (warnings w') =
      (skipped (warnings w) ++ flat_map (placement_failure host) cs)%list.
Proof.
  intros Hp Hmk.
  destruct (assemble_run host config images w Hmk)
    as (cs & w1 & Hcs & K1 & _ & Hrun).
  destruct (forEach_placeImage_registered_log host config cs Hp 0
              {| scratch := scratch w1; warnings := warnings w1; document := [];
                   made := made w1 |})
    as (w2 & Hloop & K2).
  rewrite Hloop in Hrun. cbn [warnings] in K2. rewrite K1 in K2.
  exists cs. split; [exact Hcs|].
  rewrite (@createPDF_skipped _ _ host config images outputPath folderName
             _ _ Hrun).
  exact K2.
Qed.

(** The cleanup of the [finish] handler deletes the entries of the scratch
    directory in listing order and stops at the first one that cannot be
    deleted: that entry and all the later ones remain, and one cleanup
    warning carries the error.  If every entry is deleted the directory is
    removed, unless [rmdirSync] fails, which is logged in the same way. *)
Theorem cleanup_stops_at_first_failure {num : Type} (host : @Host num)
    (dir : string) (files : list string) (w : World) :
  scratch w = Some files ->
  let w' := snd (try_catch (cleanup host dir)
                   (fun cleanupError => warn (WarnCleanup cleanupError)) w) in
  document w' = document w /\
  match cleanup_failure host dir files with
  | Some e =>
      scratch w' = Some (undeleted host dir files) /\
      warnings w' = (warnings w ++ [WarnCleanup e])%list
  | None => scratch w' = None /\ warnings w' = warnings w
  end.
Proof.
  intros Hs w'.
  destruct (cleanup_exact host dir w Hs) as (r & w2 & Hrun & D & H).
  subst w'. rewrite Hrun. cbn [snd]. auto.
Qed.

(** With pre-compression switched off and a registered page format, the
    pages of the document are composed from the images themselves: the i-th
    page is the page of the i-th image at its original path. *)
Theorem createPDF_without_precompression {num : Type} {N : JsNumber num}
    (host : @Host num) (config : Config num) (p : PageFormat num)
    (images : list ImageFile) (outputPath folderName : string) (w : World) :
  cfg_preCompressImages config = false ->
  own_property (cfg_pageSize config) pageFormats = Some p ->
  (scratch w = None -> mkdirSync_error host = None) ->
  Forall2 (page_for host config p) images
    (document (snd (createPDF host config images outputPath folderName w))).
Proof.
  intros Hoff Hp Hmk.
  destruct (assemble_passthrough host config images w Hoff Hmk) as (entries & Hrun).
  destruct (forEach_placeImage_registered host config images Hp 0
              {| scratch := Some entries; warnings := warnings w; document := [];
                   made := made w |})
    as (w2 & pages & Hloop & _ & D2 & Hpages).
  rewrite Hloop in Hrun.
  rewrite (@createPDF_document _ _ host config images outputPath folderName
             _ _ Hrun).
  cbn [document app] in D2. rewrite D2. exact Hpages.
Qed.

(** ** Plain objects used as maps *)

Section ObjectFacts.

Variable V : Type.

Lemma has_keys (k : string) (o : JsObject.object V) :
  JsObject.has k o = true <-> In k (map fst o).
Proof.
  unfold JsObject.has. rewrite existsb_exists. split.
  - intros ((k', v) & Hin & Hk). apply String.eqb_eq in Hk. cbn in Hk. subst k'.
    apply (in_map fst) in Hin. exact Hin.
  - intros Hin. apply in_map_iff in Hin. destruct Hin as (e & <- & Hin).
    exists e. split; [exact Hin|apply String.eqb_refl].
Qed.

Lemma keys_replace (k : string) (v : V) (o : JsObject.object V) :
  map fst (JsObject.replace k v o) = map fst o.
Proof.
  induction o as [|[k' v'] o IH]; [reflexivity|]. cbn.
  destruct (String.eqb k k'); cbn; [reflexivity|]. rewrite IH. reflexivity.
Qed.

Lemma keys_insert_index (i : Z) (k : string) (v : V) (o : JsObject.object V) :
  Permutation (k :: map fst o) (map fst (JsObject.insert_index i k v o)).
Proof.
  induction o as [|[k' v'] o IH]; cbn; [apply Permutation_refl|].
  destruct (JsObject.array_index k') as [i'|]; [|apply Permutation_refl].
  destruct (i <? i'); [apply Permutation_refl|]. cbn.
  eapply perm_trans; [apply perm_swap|]. apply perm_skip. exact IH.
Qed.

Lemma keys_set (k : string) (v : V) (o : JsObject.object V) :
  Permutation (map fst (JsObject.set k v o))
    (if (String.eqb k "__proto__" || JsObject.has k o)%bool
     then map fst o else k :: map fst o).
Proof.
  unfold JsObject.set. destruct (String.eqb k "__proto__"); cbn [orb].
  - apply Permutation_refl.
  - destruct (JsObject.has k o).
    + rewrite keys_replace. apply Permutation_refl.
    + destruct (JsObject.array_index k) as [i|].
      * apply Permutation_sym, keys_insert_index.
      * rewrite map_app. cbn. apply Permutation_sym, Permutation_cons_append.
Qed.

Lemma keys_set_NoDup (k : string) (v : V) (o : JsObject.object V) :
  NoDup (map fst o) -> NoDup (map fst (JsObject.set k v o)).
Proof.
  intros Hnd. apply (Permutation_NoDup (Permutation_sym (keys_set k v o))).
  destruct (String.eqb k "__proto__"); cbn [orb]; [exact Hnd|].
  destruct (JsObject.has k o) eqn:E; [exact Hnd|].
  constructor; [|exact Hnd]. intros Hin. apply has_keys in Hin. congruence.
Qed.

Lemma keys_set_In (k k' : string) (v : V) (o : JsObject.object V) :
  In k' (map fst (JsObject.set k v o)) <->
  (k' = k /\ k <> "__proto__") \/ In k' (map fst o).
Proof.
  assert (H : In k' (map fst (JsObject.set k v o)) <->
              In k' (if (String.eqb k "__proto__" || JsObject.has k o)%bool
                     then map fst o else k :: map fst o)).
  { split; apply Permutation_in;
      [|apply Permutation_sym]; apply keys_set. }
  rewrite H. clear H.
  destruct (String.eqb_spec k "__proto__") as [->|Hne]; cbn [orb].
  - split; [auto|]. intros [[_ H]|H]; [congruence|exact H].
  - destruct (JsObject.has k o) eqn:E.
    + split; [auto|]. intros [[-> _]|H]; [apply has_keys; exact E|exact H].
    + cbn. split.
      * intros [<-|H]; auto.
      * intros [[-> _]|H]; auto.
Qed.

Lemma entries_set (P : string * V -> Prop) (k : string) (v : V)
    (o : JsObject.object V) :
  P (k, v) -> Forall P o -> Forall P (JsObject.set k v o).
Proof.
  intros Hv Ho. unfold JsObject.set.
  destruct (String.eqb k "__proto__"); [exact Ho|].
  destruct (JsObject.has k o).
  - clear -Hv Ho. induction Ho as [|[k' v'] o Hp Ho IH]; cbn; [constructor|].
    destruct (String.eqb_spec k k') as [<-|_]; constructor; auto.
  - destruct (JsObject.array_index k) as [i|].
    + clear -Hv Ho. induction Ho as [|[k' v'] o Hp Ho IH]; cbn.
      * constructor; [exact Hv|constructor].
      * destruct (JsObject.array_index k') as [i'|].
        -- destruct (i <? i'); constructor; auto.
        -- constructor; [exact Hv|]. constructor; auto.
    + apply Forall_app. split; [exact Ho|]. constructor; [exact Hv|constructor].
Qed.

Lemma get_replace (k k' : string) (v : V) (o : JsObject.object V) :
  JsObject.get k' (JsObject.replace k v o) =
  if (String.eqb k' k && JsObject.has k o)%bool then Some v else JsObject.get k' o.
Proof.
  unfold JsObject.get, JsObject.has.
  induction o as [|[k0 v0] o IH]; cbn.
  - rewrite andb_false_r. reflexivity.
  - destruct (String.eqb_spec k k0) as [->|Hne]; cbn.
    + destruct (String.eqb_spec k' k0) as [->|Hne']; cbn; reflexivity.
    + destruct (String.eqb_spec k' k0) as [->|Hne']; cbn.
      * destruct (String.eqb_spec k0 k) as [E|_]; [congruence|]. reflexivity.
      * exact IH.
Qed.

Lemma get_absent (k : string) (o : JsObject.object V) :
  JsObject.has k o = false -> JsObject.get k o = None.
Proof.
  unfold JsObject.get, JsObject.has. intros H.
  destruct (find _ o) as [e|] eqn:E; [|reflexivity].
  apply find_some in E. destruct E as [Hin Hk].
  assert (existsb (fun e => String.eqb k (fst e)) o = true)
    by (apply existsb_exists; exists e; auto).
  congruence.
Qed.

Lemma get_insert_index (i : Z) (k k' : string) (v : V) (o : JsObject.object V) :
  JsObject.has k o = false ->
  JsObject.get k' (JsObject.insert_index i k v o) =
  if String.eqb k' k then Some v else JsObject.get k' o.
Proof.
  unfold JsObject.get, JsObject.has.
  induction o as [|[k0 v0] o IH]; cbn; intros Hk.
  - destruct (String.eqb k' k); reflexivity.
  - apply orb_false_elim in Hk. destruct Hk as [Hk0 Hk].
    assert (Hhead : String.eqb k' k = true -> String.eqb k' k0 = false).
    { intros E. apply String.eqb_eq in E. subst k'. exact Hk0. }
    destruct (JsObject.array_index k0) as [i0|].
    + destruct (i <? i0); cbn.
      * destruct (String.eqb k' k); reflexivity.
      * destruct (String.eqb k' k0) eqn:E0.
        -- destruct (String.eqb k' k);
             [discriminate (Hhead eq_refl)|reflexivity].
        -- exact (IH Hk).
    + cbn. destruct (String.eqb k' k); reflexivity.
Qed.

Lemma get_append (k k' : string) (v : V) (o : JsObject.object V) :
  JsObject.has k o = false ->
  JsObject.get k' (o ++ [(k, v)])%list =
  if String.eqb k' k then Some v else JsObject.get k' o.
Proof.
  unfold JsObject.get, JsObject.has.
  induction o as [|[k0 v0] o IH]; cbn; intros Hk.
  - destruct (String.eqb k' k); reflexivity.
  - apply orb_false_elim in Hk. destruct Hk as [Hk0 Hk].
    destruct (String.eqb k' k0) eqn:E0; [|exact (IH Hk)].
    destruct (String.eqb_spec k' k) as [->|_]; [congruence|reflexivity].
Qed.

(** Reading after writing. *)
Lemma get_set (k k' : string) (v : V) (o : JsObject.object V) :
  JsObject.get k' (JsObject.set k v o) =
  if (String.eqb k' k && negb (String.eqb k "__proto__"))%bool
  then Some v else JsObject.get k' o.
Proof.
  unfold JsObject.set.
  destruct (String.eqb k "__proto__"); cbn [negb].
  - rewrite andb_false_r. reflexivity.
  - rewrite andb_true_r.
    destruct (JsObject.has k o) eqn:E.
    + rewrite get_replace, E, andb_true_r. reflexivity.
    + destruct (JsObject.array_index k) as [i|].
      * apply get_insert_index. exact E.
      * apply get_append. exact E.
Qed.

Lemma key_order_append (ks : list string) (k : string) :
  JsObject.array_index k = None ->
  StronglySorted key_order ks -> StronglySorted key_order (ks ++ [k]).
Proof.
  intros Hk. induction 1 as [|k1 ks Hs IH H1]; cbn.
  - constructor; constructor.
  - constructor; [exact IH|]. apply Forall_app. split; [exact H1|].
    constructor; [|constructor]. unfold key_order. rewrite Hk.
    destruct (JsObject.array_index k1); exact I.
Qed.

Lemma key_order_insert_index (i : Z) (k : string) (v : V) (o : JsObject.object V) :
  JsObject.array_index k = Some i ->
  StronglySorted key_order (map fst o) ->
  StronglySorted key_order (map fst (JsObject.insert_index i k v o)).
Proof.
  intros Hk. induction o as [|[k' v'] o IH]; cbn; intros Hs.
  - constructor; constructor.
  - apply StronglySorted_inv in Hs. destruct Hs as [Hs H'].
    destruct (JsObject.array_index k') as [i'|] eqn:Hk'.
    + destruct (Z.ltb_spec i i') as [Hlt|Hge]; cbn.
      * constructor; [constructor; assumption|].
        constructor.
        -- unfold key_order. rewrite Hk, Hk'. lia.
        -- apply (Forall_impl _ (P := key_order k')); [|exact H'].
           intros x. unfold key_order. rewrite Hk, Hk'.
           destruct (JsObject.array_index x); [lia|auto].
      * constructor; [exact (IH Hs)|].
        apply (Permutation_Forall (keys_insert_index i k v o)).
        constructor; [|exact H'].
        unfold key_order. rewrite Hk, Hk'. exact Hge.
    + cbn. constructor; [constructor; assumption|].
      constructor.
      * unfold key_order. rewrite Hk, Hk'. exact I.
      * apply (Forall_impl _ (P := key_order k')); [|exact H'].
        intros x. unfold key_order. rewrite Hk, Hk'.
        destruct (JsObject.array_index x); [contradiction|auto].
Qed.

Lemma key_order_set (k : string) (v : V) (o : JsObject.object V) :
  StronglySorted key_order (map fst o) ->
  StronglySorted key_order (map fst (JsObject.set k v o)).
Proof.
  intros Hs. unfold JsObject.set.
  destruct (String.eqb k "__proto__"); [exact Hs|].
  destruct (JsObject.has k o); [rewrite keys_replace; exact Hs|].
  destruct (JsObject.array_index k) as [i|] eqn:Hk.
  - apply key_order_insert_index; assumption.
  - rewrite map_app. apply key_order_append; assumption.
Qed.

End ObjectFacts.

(** ** Scanning the source directory *)

Section ScanFacts.

Context {num : Type}.
Variable host : @Host num.
Variable config : Config num.
Variable isDirectory : string -> bool.

(** An invariant of the object built by the scan carries over the loop. *)
Lemma scanItems_invariant (P : JsObject.object DirectoryInfo -> Prop)
    (rootDir : string) :
  (forall item images d,
      images <> [] ->
      isDirectory (path_join host rootDir item) = true ->
      images = getImageFiles host config (path_join host rootDir item) ->
      P d ->
      P (JsObject.set item (group (path_join host rootDir item) images) d)) ->
  forall items d, P d -> P (fst (scanItems host config isDirectory rootDir items d)).
Proof.
  intros Hset. induction items as [|item rest IH]; intros d Hd; [exact Hd|].
  cbn [scanItems].
  destruct (statSync host (path_join host rootDir item)); [|exact Hd].
  apply IH.
  destruct (isDirectory (path_join host rootDir item)) eqn:Edir; [|exact Hd].
  destruct (getImageFiles host config (path_join host rootDir item))
    as [|image images] eqn:E; [exact Hd|].
  apply Hset; [discriminate|exact Edir|symmetry; exact E|exact Hd].
Qed.

Lemma scanDirectories_invariant (P : JsObject.object DirectoryInfo -> Prop)
    (rootDir : string) :
  P [] ->
  (forall k path images d,
      images <> [] ->
      images = getImageFiles host config path ->
      (k = "_root" /\ path = rootDir \/
       isDirectory path = true /\ path = path_join host rootDir k) ->
      P d -> P (JsObject.set k (group path images) d)) ->
  P (scanDirectories host config isDirectory rootDir).
Proof.
  intros Hnil Hset. unfold scanDirectories.
  destruct (readdirSync host rootDir) as [items|]; [|exact Hnil].
  assert (Hloop : P (fst (scanItems host config isDirectory rootDir items []))).
  { apply scanItems_invariant; [|exact Hnil].
    intros item images d Hne Hdir Himg Hd.
    apply Hset; auto. }
  destruct (scanItems host config isDirectory rootDir items [])
    as [directories []]; cbn [fst] in Hloop; [|exact Hloop].
  destruct (getImageFiles host config rootDir) as [|image images] eqn:E;
    [exact Hloop|].
  apply Hset; [discriminate|symmetry; exact E|auto|exact Hloop].
Qed.

Lemma scan_step_get (rootDir item k : string) (d : JsObject.object DirectoryInfo) :
  JsObject.get k
    (if isDirectory (path_join host rootDir item)
     then match getImageFiles host config (path_join host rootDir item) with
          | [] => d
          | images =>
              JsObject.set item (group (path_join host rootDir item) images) d
          end
     else d) =
  if (String.eqb k item &&
      has_images host config isDirectory (path_join host rootDir k) &&
      negb (String.eqb k "__proto__"))%bool
  then Some (group (path_join host rootDir k)
               (getImageFiles host config (path_join host rootDir k)))
  else JsObject.get k d.
Proof.
  unfold has_images.
  destruct (String.eqb_spec k item) as [->|Hne]; cbn [andb].
  - destruct (isDirectory (path_join host rootDir item)); cbn [andb];
      [|reflexivity].
    destruct (getImageFiles host config (path_join host rootDir item))
      as [|image images]; [reflexivity|].
    rewrite get_set, String.eqb_refl. reflexivity.
  - destruct (isDirectory (path_join host rootDir item)); [|reflexivity].
    destruct (getImageFiles host config (path_join host rootDir item))
      as [|image images]; [reflexivity|].
    rewrite get_set.
    destruct (String.eqb_spec k item) as [E|_]; [contradiction|reflexivity].
Qed.

Lemma scanItems_complete (rootDir : string) (items : list string)
    (d : JsObject.object DirectoryInfo) :
  (forall item, In item items ->
                statSync host (path_join host rootDir item) <> None) ->
  exists d',
    scanItems host config isDirectory rootDir items d = (d', true) /\
    forall k,
      JsObject.get k d' =
      if (existsb (String.eqb k) items &&
          has_images host config isDirectory (path_join host rootDir k) &&
          negb (String.eqb k "__proto__"))%bool
      then Some (group (path_join host rootDir k)
                   (getImageFiles host config (path_join host rootDir k)))
      else JsObject.get k d.
Proof.
  revert d. induction items as [|item rest IH]; intros d Hstat.
  - exists d. split; [reflexivity|]. intros k. reflexivity.
  - cbn [scanItems].
    destruct (statSync host (path_join host rootDir item)) as [size|] eqn:E;
      [|elim (Hstat item (or_introl eq_refl) E)].
    destruct (IH (if isDirectory (path_join host rootDir item)
                  then match getImageFiles host config
                               (path_join host rootDir item) with
                       | [] => d
                       | images =>
                           JsObject.set item
                             (group (path_join host rootDir item) images) d
                       end
                  else d))
      as (d' & -> & Hget).
    { intros i Hi. apply Hstat. right. exact Hi. }
    exists d'. split; [reflexivity|]. intros k.
    rewrite Hget, scan_step_get. cbn [existsb].
    destruct (String.eqb k item), (existsb (String.eqb k) rest),
      (has_images host config isDirectory (path_join host rootDir k)),
      (negb (String.eqb k "__proto__")); reflexivity.
Qed.

Lemma scanItems_interrupted (rootDir : string) (before after : list string)
    (bad : string) (d : JsObject.object DirectoryInfo) :
  (forall item, In item before ->
                statSync host (path_join host rootDir item) <> None) ->
  statSync host (path_join host rootDir bad) = None ->
  scanItems host config isDirectory rootDir (before ++ bad :: after)%list d =
  (fst (scanItems host config isDirectory rootDir before d), false).
Proof.
  revert d. induction before as [|item rest IH]; intros d Hstat Hbad.
  - cbn. rewrite Hbad. reflexivity.
  - cbn [app scanItems].
    destruct (statSync host (path_join host rootDir item)) as [size|] eqn:E;
      [|elim (Hstat item (or_introl eq_refl) E)].
    apply IH; [|exact Hbad]. intros i Hi. apply Hstat. right. exact Hi.
Qed.

End ScanFacts.

(** Every group returned by [scanDirectories] is non-empty, its count is
    the number of its images, its images are what [getImageFiles] returns
    for its path, and it is either the group named _root of the scanned
    directory itself or the group of the sub-directory that bears its
    name. *)
Theorem scanDirectories_groups {num : Type} (host : @Host num)
    (config : Config num) (isDirectory : string -> bool) (rootDir : string) :
  Forall (fun entry =>
            dir_images (snd entry) <> [] /\
            dir_count (snd entry) = List.length (dir_images (snd entry)) /\
            dir_images (snd entry) =
              getImageFiles host config (dir_path (snd entry)) /\
            (fst entry = "_root" /\ dir_path (snd entry) = rootDir \/
             isDirectory (dir_path (snd entry)) = true /\
             dir_path (snd entry) = path_join host rootDir (fst entry)))
         (scanDirectories host config isDirectory rootDir).
Proof.
  apply scanDirectories_invariant; [constructor|].
  intros k path images d Hne Himg Hk Hd.
  apply entries_set; [|exact Hd]. cbn. auto.
Qed.

(** The names of the groups returned by [scanDirectories] are pairwise
    distinct, in the order of [Object.keys] (array indices first, in
    ascending order), and never [__proto__]: a sub-directory of that name
    is left out. *)
Theorem scanDirectories_keys {num : Type} (host : @Host num)
    (config : Config num) (isDirectory : string -> bool) (rootDir : string) :
  let names := map fst (scanDirectories host config isDirectory rootDir) in
  NoDup names /\ ~ In "__proto__" names /\ StronglySorted key_order names.
Proof.
  cbv zeta.
  apply (scanDirectories_invariant host config isDirectory
           (fun d => NoDup (map fst d) /\ ~ In "__proto__" (map fst d) /\
                     StronglySorted key_order (map fst d))).
  - split; [constructor|]. split; [intros []|constructor].
  - intros k path images d _ _ _ (Hnd & Hproto & Hs).
    split; [apply keys_set_NoDup; exact Hnd|].
    split; [|apply key_order_set; exact Hs].
    intros Hin. apply keys_set_In in Hin.
    destruct Hin as [[E Hne]|Hin]; [congruence|contradiction].
Qed.

(** When [statSync] throws for an entry of the scanned directory, the scan
    stops there: the result holds the groups of the entries listed before
    it only, and the group of the scanned directory itself is not added. *)
Theorem scanDirectories_interrupted {num : Type} (host : @Host num)
    (config : Config num) (isDirectory : string -> bool) (rootDir : string)
    (before after : list string) (bad : string) :
  readdirSync host rootDir = Some (before ++ bad :: after)%list ->
  (forall item, In item before ->
                statSync host (path_join host rootDir item) <> None) ->
  statSync host (path_join host rootDir bad) = None ->
  scanDirectories host config isDirectory rootDir =
    fst (scanItems host config isDirectory rootDir before []) /\
  forall k,
    JsObject.get k (scanDirectories host config isDirectory rootDir) =
    if (existsb (String.eqb k) before &&
        has_images host config isDirectory (path_join host rootDir k) &&
        negb (String.eqb k "__proto__"))%bool
    then Some (group (path_join host rootDir k)
                 (getImageFiles host config (path_join host rootDir k)))
    else None.
Proof.
  intros Hdir Hstat Hbad.
  assert (E : scanDirectories host config isDirectory rootDir =
              fst (scanItems host config isDirectory rootDir before [])).
  { unfold scanDirectories. rewrite Hdir.
    rewrite (@scanItems_interrupted num host config isDirectory rootDir before
               after bad [] Hstat Hbad).
    reflexivity. }
  split; [exact E|]. intros k. rewrite E.
  destruct (@scanItems_complete num host config isDirectory rootDir before [] Hstat)
    as (d' & -> & Hget).
  cbn [fst]. rewrite Hget. reflexivity.
Qed.

(** When the scanned directory can be listed and [statSync] accepts all its
    entries: a name other than _root is a group exactly when it is listed,
    is a directory with at least one image and is not [__proto__]; and _root
    is the group of the scanned directory itself whenever that directory
    has images, even if a sub-directory is named _root. *)
Theorem scanDirectories_complete {num : Type} (host : @Host num)
    (config : Config num) (isDirectory : string -> bool) (rootDir : string)
    (items : list string) :
  readdirSync host rootDir = Some items ->
  (forall item, In item items ->
                statSync host (path_join host rootDir item) <> None) ->
  (forall k, k <> "_root" ->
     JsObject.get k (scanDirectories host config isDirectory rootDir) =
     if (existsb (String.eqb k) items &&
         has_images host config isDirectory (path_join host rootDir k) &&
         negb (String.eqb k "__proto__"))%bool
     then Some (group (path_join host rootDir k)
                  (getImageFiles host config (path_join host rootDir k)))
     else None) /\
  (getImageFiles host config rootDir <> [] ->
   JsObject.get "_root" (scanDirectories host config isDirectory rootDir) =
   Some (group rootDir (getImageFiles host config rootDir))).
Proof.
  intros Hdir Hstat. unfold scanDirectories. rewrite Hdir.
  destruct (@scanItems_complete num host config isDirectory rootDir items [] Hstat)
    as (d' & -> & Hget).
  split.
  - intros k Hk.
    destruct (getImageFiles host config rootDir) as [|image images].
    + rewrite Hget. reflexivity.
    + rewrite get_set.
      destruct (String.eqb_spec k "_root") as [E|_]; [contradiction|].
      cbn [andb]. rewrite Hget. reflexivity.
  - intros Hroot.
    destruct (getImageFiles host config rootDir) as [|image images];
      [contradiction|].
    rewrite get_set. reflexivity.
Qed.

(** ** The batch driver *)

Section RunFacts.

Context {num : Type} {N : JsNumber num}.
Variable host : @Host num.
Variable config : Config num.
Variable today : string.
Variable outputDir : string.

Lemma createPDF_fst (images : list ImageFile) (outputPath folderName : string)
    (w : World) :
  (scratch w = None -> mkdirSync_error host = None) ->
  fst (createPDF host config images outputPath folderName w) =
  finish_outcome host outputPath.
Proof.
  intros Hmk.
  destruct (assemble_total host config images w Hmk) as (w1 & Hrun & _).
  rewrite (@createPDF_assembled _ _ host config images outputPath folderName
             _ _ Hrun).
  reflexivity.
Qed.

Lemma runGroups_outcomes (groups : list (string * DirectoryInfo)) (w : World) :
  mkdirSync_error host = None ->
  fst (runGroups host config today outputDir groups w) =
  until_unsettled
    (map (fun g => (outputPath_of host today outputDir (fst g),
                    finish_outcome host (outputPath_of host today outputDir (fst g))))
       groups).
Proof.
  intros Hmk. revert w. induction groups as [|[folderName folderInfo] rest IH];
    intros w; [reflexivity|].
  cbn [runGroups map fst until_unsettled].
  pose proof (createPDF_fst (dir_images folderInfo)
                (outputPath_of host today outputDir folderName)
                (if String.eqb folderName "_root" then "root" else folderName)
                w (fun _ => Hmk)) as Hfst.
  destruct (createPDF host config (dir_images folderInfo) _ _ w) as [outcome w1].
  cbn [fst] in Hfst. subst outcome.
  specialize (IH w1).
  destruct (runGroups host config today outputDir rest w1) as [outcomes w2].
  cbn [fst] in IH. unfold settled at 1. cbn [snd].
  destruct (finish_outcome host (outputPath_of host today outputDir folderName));
    cbn [fst]; rewrite ?IH; reflexivity.
Qed.

Lemma until_unsettled_settled (outcomes : list (string * Outcome)) :
  forallb settled (until_unsettled outcomes) = forallb settled outcomes /\
  (forallb settled outcomes = true -> until_unsettled outcomes = outcomes).
Proof.
  induction outcomes as [|o rest [IH1 IH2]]; [split; reflexivity|].
  cbn [until_unsettled forallb]. destruct (settled o) eqn:E.
  - cbn [forallb andb]. rewrite E. cbn [andb]. split; [exact IH1|].
    intros H. rewrite (IH2 H). reflexivity.
  - cbn [forallb andb]. rewrite E. split; [reflexivity|discriminate].
Qed.

Lemma runGroups_made (groups : list (string * DirectoryInfo)) (w : World) :
  made (snd (runGroups host config today outputDir groups w)) = made w.
Proof.
  revert w. induction groups as [|[folderName folderInfo] rest IH];
    intros w; [reflexivity|].
  cbn [runGroups].
  pose proof (createPDF_made host config (dir_images folderInfo)
                (outputPath_of host today outputDir folderName)
                (if String.eqb folderName "_root" then "root" else folderName)
                w) as Hm.
  destruct (createPDF host config (dir_images folderInfo) _ _ w) as [outcome w1].
  cbn [snd] in Hm. specialize (IH w1).
  destruct (runGroups host config today outputDir rest w1) as [outcomes w2].
  cbn [snd] in IH. destruct outcome; cbn [snd]; congruence.
Qed.

End RunFacts.

(** When the source directory exists, the output directory exists or can be
    created, the scratch directory can be created and at least one group is
    found, [run] builds the groups in the order of [Object.entries], each
    into its dated file of the output directory.  What becomes of a build
    is decided by its output file alone: rejected when the stream opened on
    it fails, resolved when the final [statSync] succeeds, unsettled when
    that throws; failures of probing, compression, layout, placement and
    cleanup do not count.  If every build is settled, [run] reports them
    all, with the number of resolved ones as the success count; if not, the
    loop stops at the first unsettled build, the groups after it are not
    built and [run] never returns. *)
Theorem run_builds_every_group {num : Type} {N : JsNumber num}
    (host : @Host num) (config : Config num)
    (isDirectory existsSync : string -> bool)
    (mkdir_output_error : option JsError)
    (today sourceDir outputDir : string) (w : World) :
  existsSync sourceDir = true ->
  existsSync outputDir = true \/ mkdir_output_error = None ->
  mkdirSync_error host = None ->
  scanDirectories host config isDirectory sourceDir <> [] ->
  let groups := scanDirectories host config isDirectory sourceDir in
  let builds :=
    map (fun g =>
           (outputPath_of host today outputDir (fst g),
            finish_outcome host (outputPath_of host today outputDir (fst g))))
        groups in
  fst (run host config isDirectory existsSync mkdir_output_error
         today sourceDir outputDir w) =
  inr (if forallb settled builds
       then Processed builds
              (List.length (filter resolved builds))
              (List.length groups)
       else Interrupted (until_unsettled builds)).
Proof.
  intros Hsrc Hout Hmk Hgroups. cbv zeta. unfold run. rewrite Hsrc.
  cbn [negb].
  assert (Hdir : exists w0, ensure_outputDir existsSync mkdir_output_error
                              outputDir w = (inr tt, w0)).
  { unfold ensure_outputDir.
    destruct (existsSync outputDir); [exists w; reflexivity|].
    destruct Hout as [Hout|Hout]; [discriminate|]. rewrite Hout.
    eexists. reflexivity. }
  destruct Hdir as (w0 & ->).
  remember (scanDirectories host config isDirectory sourceDir) as groups eqn:E.
  pose proof (runGroups_outcomes host config today outputDir groups w0 Hmk)
    as Hout'.
  destruct groups as [|g rest]; [contradiction|].
  destruct (runGroups host config today outputDir (g :: rest) w0)
    as [outcomes w'].
  cbn [fst] in Hout' |- *. subst outcomes.
  match goal with
  | |- context [until_unsettled ?b] =>
      destruct (until_unsettled_settled b) as [H1 H2]; rewrite H1;
      destruct (forallb settled b); [rewrite (H2 eq_refl)|]; reflexivity
  end.
Qed.

(** [run] throws in one case only: the source directory exists, the output
    directory does not, and it cannot be created; nothing has changed
    then.  When it reports that there is nothing to do, it has changed
    nothing either, except that it has created the output directory if the
    source directory exists and the output directory did not. *)
Theorem run_failure {num : Type} {N : JsNumber num}
    (host : @Host num) (config : Config num)
    (isDirectory existsSync : string -> bool)
    (mkdir_output_error : option JsError)
    (today sourceDir outputDir : string) (w : World) :
  let r := run host config isDirectory existsSync mkdir_output_error
             today sourceDir outputDir w in
  (forall e, fst r = inl e <->
             existsSync sourceDir = true /\ existsSync outputDir = false /\
             mkdir_output_error = Some e) /\
  (fst r = inr NothingToDo <->
   existsSync sourceDir = false \/
   (existsSync outputDir = true \/ mkdir_output_error = None) /\
   scanDirectories host config isDirectory sourceDir = []) /\
  (forall e, fst r = inl e -> snd r = w) /\
  (fst r = inr NothingToDo ->
   snd r = if (existsSync sourceDir && negb (existsSync outputDir))%bool
           then {| scratch := scratch w;
                   warnings := warnings w;
                   document := document w;
                   made := (made w ++ [outputDir])%list |}
           else w).
Proof.
  cbv zeta. unfold run, ensure_outputDir.
  destruct (existsSync sourceDir); cbn [negb andb].
  - destruct (existsSync outputDir); cbn [negb].
    + unfold ret.
      destruct (scanDirectories host config isDirectory sourceDir) as [|g rest].
      * cbn. split; [|split; [|split]]; [| |discriminate|reflexivity].
        -- intros e. split; [discriminate|]. intros (_ & H & _). discriminate.
        -- split; [auto|reflexivity].
      * destruct (runGroups _ _ _ _ _ w) as [outcomes w']. cbn [fst snd].
        destruct (forallb settled outcomes).
        -- split; [|split; [|split]]; [| |discriminate|discriminate].
           ++ intros e. split; [discriminate|]. intros (_ & H & _). discriminate.
           ++ split; [discriminate|]. intros [H|[_ H]]; discriminate.
        -- split; [|split; [|split]]; [| |discriminate|discriminate].
           ++ intros e. split; [discriminate|]. intros (_ & H & _). discriminate.
           ++ split; [discriminate|]. intros [H|[_ H]]; discriminate.
    + destruct mkdir_output_error as [e0|]; cbn [fails bind].
      * unfold bind, throw. cbn.
        split; [|split; [|split]]; [| |reflexivity|discriminate].
        -- intros e. split; [intros H; injection H as <-; auto|].
           intros (_ & _ & H). congruence.
        -- split; [discriminate|]. intros [H|[[H|H] _]]; discriminate.
      * unfold bind, ret, get_made, set_made. cbn [fst snd].
        destruct (scanDirectories host config isDirectory sourceDir) as [|g rest].
        -- cbn. split; [|split; [|split]]; [| |discriminate|reflexivity].
           ++ intros e. split; [discriminate|]. intros (_ & _ & H). discriminate.
           ++ split; [auto|reflexivity].
        -- destruct (runGroups _ _ _ _ _ _) as [outcomes w']. cbn [fst snd].
           destruct (forallb settled outcomes).
           ++ split; [|split; [|split]]; [| |discriminate|discriminate].
              ** intros e. split; [discriminate|]. intros (_ & _ & H). discriminate.
              ** split; [discriminate|]. intros [H|[_ H]]; discriminate.
           ++ split; [|split; [|split]]; [| |discriminate|discriminate].
              ** intros e. split; [discriminate|]. intros (_ & _ & H). discriminate.
              ** split; [discriminate|]. intros [H|[_ H]]; discriminate.
  - cbn. split; [|split; [|split]]; [| |discriminate|reflexivity].
    + intros e. split; [discriminate|]. intros (H & _). discriminate.
    + split; [auto|reflexivity].
Qed.

Section BuildCompressed.

Context {num : Type} {N : JsNumber num}.
Variable host : @Host num.
Variable config : Config num.



End BuildCompressed.


(** ** Merging configurations *)

Section MergeFacts.

Variable V : Type.
Variable str : string -> V.

Lemma get_Object_assign (k : string) (target source : JsObject.object V) :
  NoDup (map fst source) ->
  k <> "__proto__" ->
  JsObject.get k (Cli.Object_assign target source) =
  Cli.or_else (JsObject.get k source) (JsObject.get k target).
Proof.
  intros Hnd Hk. revert target.
  induction source as [|[k0 v0] source IH]; intros target; [reflexivity|].
  cbn [Cli.Object_assign fold_left fst snd].
  fold (Cli.Object_assign (JsObject.set k0 v0 target) source).
  cbn [map fst] in Hnd. apply NoDup_cons_iff in Hnd. destruct Hnd as [Hnot Hnd].
  rewrite (IH Hnd), get_set.
  unfold JsObject.get at 3. cbn [find fst snd].
  destruct (String.eqb_spec k k0) as [<-|Hne]; cbn [andb].
  - destruct (String.eqb_spec k "__proto__") as [E|_]; [contradiction|].
    cbn [negb]. rewrite get_absent; [reflexivity|].
    destruct (JsObject.has k source) eqn:E; [|reflexivity].
    apply has_keys in E. contradiction.
  - reflexivity.
Qed.

Lemma get_assign_if (k k' : string) (s : option string) (o : JsObject.object V) :
  k' <> "__proto__" ->
  JsObject.get k (Cli.assign_if str k' s o) =
  if String.eqb k k'
  then Cli.or_else (option_map str (Cli.truthy s)) (JsObject.get k o)
  else JsObject.get k o.
Proof.
  intros Hk'. unfold Cli.assign_if.
  destruct (Cli.truthy s) as [v|]; cbn [option_map Cli.or_else].
  - rewrite get_set.
    destruct (String.eqb_spec k' "__proto__") as [E|_]; [contradiction|].
    cbn [negb]. rewrite andb_true_r. reflexivity.
  - destruct (String.eqb k k'); reflexivity.
Qed.

End MergeFacts.

(** The object returned by [mergeConfigs] has, as its own property [k],
    what the command line says about [k] (a non-empty source or output
    directory), else the own property [k] of the configuration file, else
    that of the environment configuration, else that of the base
    configuration; it has none if none of them has one. *)
Theorem mergeConfigs_precedence (V : Type) (str : string -> V)
    (baseConfig envConfig fileConfig : JsObject.object V)
    (cliOptions : Cli.CLIOptions) (k : string) :
  NoDup (map fst envConfig) ->
  NoDup (map fst fileConfig) ->
  k <> "__proto__" ->
  JsObject.get k (Cli.mergeConfigs str baseConfig envConfig fileConfig cliOptions) =
  Cli.or_else (Cli.cli_value str cliOptions k)
    (Cli.or_else (JsObject.get k fileConfig)
       (Cli.or_else (JsObject.get k envConfig) (JsObject.get k baseConfig))).
Proof.
  intros He Hf Hk. unfold Cli.mergeConfigs, Cli.cli_value.
  rewrite !get_assign_if by discriminate.
  rewrite !get_Object_assign by assumption.
  destruct (String.eqb_spec k "outputDir") as [->|Hno].
  - cbn. reflexivity.
  - destruct (String.eqb k "sourceDir"); reflexivity.
Qed.

(** The own property [sourceDir] of the configuration merged from the
    environment read by [loadFromEnv]: the directory of the command line if
    it is not empty, else the one of the configuration file, else the
    environment variable IMG_TO_PDF_SOURCE_DIR if it is not empty, else the
    one of the base configuration. *)
Theorem sourceDir_resolution (V : Type) (str : string -> V)
    (baseConfig fileConfig : JsObject.object V)
    (env : string -> option string) (cliOptions : Cli.CLIOptions) :
  NoDup (map fst fileConfig) ->
  JsObject.get "sourceDir"
    (Cli.mergeConfigs str baseConfig (Cli.loadFromEnv str env) fileConfig
       cliOptions) =
  Cli.or_else (option_map str (Cli.truthy (Cli.cli_sourceDir cliOptions)))
    (Cli.or_else (JsObject.get "sourceDir" fileConfig)
       (Cli.or_else
          (option_map str (Cli.truthy (env "IMG_TO_PDF_SOURCE_DIR")))
          (JsObject.get "sourceDir" baseConfig))).
Proof.
  intros Hf. unfold Cli.mergeConfigs.
  rewrite !get_assign_if by discriminate. cbn [String.eqb Ascii.eqb Bool.eqb].
  assert (Henv : NoDup (map fst (Cli.loadFromEnv str env))).
  { unfold Cli.loadFromEnv, Cli.assign_if.
    destruct (Cli.truthy (env "IMG_TO_PDF_SOURCE_DIR"));
      destruct (Cli.truthy (env "IMG_TO_PDF_OUTPUT_DIR")); cbn;
      repeat constructor; cbn; intuition discriminate. }
  rewrite !get_Object_assign by (assumption || discriminate).
  replace (JsObject.get "sourceDir" (Cli.loadFromEnv str env))
    with (option_map str (Cli.truthy (env "IMG_TO_PDF_SOURCE_DIR")));
    [reflexivity|].
  unfold Cli.loadFromEnv. rewrite !get_assign_if by discriminate.
  cbn. destruct (Cli.truthy (env "IMG_TO_PDF_SOURCE_DIR")); reflexivity.
Qed.

(** ** Sample runs *)

Lemma getImageFiles_lists_supported_witness :
  let h := @Samples.host float _ ["2.jpg"; "notes.txt"; "10.jpg"; "1.jpg"]
             (fun _ => None) (fun _ => None) (fun _ => None) in
  let c := Samples.config "A4" "fit" (Float64.cents 0) in
  let files := ["2.jpg"; "notes.txt"; "10.jpg"; "1.jpg"] in
  (readdirSync h "/photos" = Some files /\
   (forall file, In file files -> supported h c file = true ->
                 statSync h (path_join h "/photos" file) <> None)) /\
  Permutation (filter (supported h c) files)
              (map name (getImageFiles h c "/photos")) /\
  Forall (fun f => fullPath f = path_join h "/photos" (name f) /\
                   originalPath f = None /\ compressed f = None)
         (getImageFiles h c "/photos").
Proof.
  intros h c files. split.
  - split; [reflexivity|]. intros file _ _. discriminate.
  - apply (getImageFiles_lists_supported h c "/photos" (files := files)).
    + reflexivity.
    + intros file _ _. discriminate.
Defined.

Lemma canonicalCompare_trans (a b c : string) :
  Samples.canonicalCompare a b <= 0 -> Samples.canonicalCompare b c <= 0 ->
  Samples.canonicalCompare a c <= 0.
Proof. apply codeUnitCompare_trans. Qed.

Lemma getImageFiles_stable_witness :
  let decomposed := "1-e" ++ Samples.combining_acute ++ ".jpg" in
  let composed := "1-" ++ Samples.e_acute ++ ".jpg" in
  let files := ["10.jpg"; decomposed; "notes.txt"; composed; "1-d.jpg"] in
  let h := host_with_collation
             (@Samples.host float _ files
                (fun _ => None) (fun _ => None) (fun _ => None))
             Samples.canonicalCompare in
  let c := Samples.config "A4" "fit" (Float64.cents 0) in
  let imageFiles :=
    [Samples.image "10.jpg"; Samples.image decomposed;
     Samples.image composed; Samples.image "1-d.jpg"] in
  let x := Samples.image composed in
  ((forall a b c, localeCompare h a b <= 0 -> localeCompare h b c <= 0 ->
                  localeCompare h a c <= 0) /\
   readdirSync h "/photos" = Some files /\
   stat_all h "/photos" (filter (supported h c) files) = Some imageFiles) /\
  filter (same_rank (compareImages h) x) (getImageFiles h c "/photos") =
  filter (same_rank (compareImages h) x) imageFiles /\
  composed <> decomposed /\
  compareImages h (Samples.image composed) (Samples.image decomposed) = 0 /\
  filter (same_rank (compareImages h) x) imageFiles =
    [Samples.image decomposed; Samples.image composed] /\
  map name (getImageFiles h c "/photos") =
    ["1-d.jpg"; decomposed; composed; "10.jpg"].
Proof.
  intros decomposed composed files h c imageFiles x. split; [|split].
  - split; [exact canonicalCompare_trans|]. split; reflexivity.
  - apply (getImageFiles_stable h c "/photos" (files := files)).
    + exact canonicalCompare_trans.
    + reflexivity.
    + reflexivity.
  - split; [discriminate|]. split; [vm_compute; reflexivity|].
    split; vm_compute; reflexivity.
Defined.

Lemma getImageFiles_sorted_again_witness :
  let h := @Samples.host float _ ["2.jpg"; "notes.txt"; "10.jpg"; "1.jpg"]
             (fun _ => None) (fun _ => None) (fun _ => None) in
  let c := Samples.config "A4" "fit" (Float64.cents 0) in
  Ordering.Array_sort (compareImages h) (getImageFiles h c "/photos") =
  getImageFiles h c "/photos".
Proof.
  intros h c.
  apply (getImageFiles_sorted_again h c "/photos").
  - apply codeUnitCompare_total.
  - apply codeUnitCompare_trans.
Defined.

Lemma compressImages_disabled_witness :
  let h := @Samples.host float _ []
             (fun _ => None) (fun _ => None) (fun _ => None) in
  let c := with_preCompressImages false
             (Samples.config "A4" "fit" (Float64.cents 0)) in
  let images := [Samples.image "1.jpg"; Samples.image "2.jpg"] in
  cfg_preCompressImages c = false /\
  compressImages h c images "/app/dist/temp_compressed" Samples.world =
    (inr images, Samples.world).
Proof.
  intros h c images. split; [reflexivity|].
  apply (compressImages_disabled h c images). reflexivity.
Defined.

Lemma createPDF_stream_error_keeps_scratch_witness :
  let h := Tree.host (fun _ => Some 1024) (Some (Error "ENOSPC")) in
  let images := [Samples.image "1.jpg"; Samples.image "2.jpg"] in
  let r := createPDF h Tree.config images "/out/scans.pdf" "scans" Samples.world in
  (stream_error h "/out/scans.pdf" = Some (Error "ENOSPC") /\
   (scratch (@Samples.world float) = None -> mkdirSync_error h = None)) /\
  (fst r = Rejected (Error "ENOSPC") /\ scratch (snd r) <> None) /\
  scratch (snd r) = Some ["1_compressed.jpg"; "2_compressed.jpg"].
Proof.
  intros h images r. split; [|split].
  - split; reflexivity.
  - apply (createPDF_stream_error_keeps_scratch h Tree.config images
             "/out/scans.pdf" "scans" Samples.world); reflexivity.
  - vm_compute. reflexivity.
Defined.

Lemma createPDF_inherited_page_size_witness :
  let h := @Samples.host float _ []
             (fun _ => Some {| dim_width := Float64.cents 80000;
                               dim_height := Float64.cents 60000 |})
             (fun _ => None) (fun _ => None) in
  let c := Samples.config "constructor" "fit" (Float64.cents 0) in
  let images := [Samples.image "1.jpg"; Samples.image "2.jpg"] in
  let r := createPDF h c images "/out/scans.pdf" "scans" Samples.world in
  (In (cfg_pageSize c) Object_prototype /\
   (scratch (@Samples.world float) = None -> mkdirSync_error h = None)) /\
  ((forall imgWidth imgHeight, exists layout,
       calculateOptimalLayout c imgWidth imgHeight (cfg_pageSize c) = inr layout) /\
   document (snd r) = [] /\
   skipped (warnings (snd r)) =
     (skipped (warnings (@Samples.world float)) ++
      map (fun image => (name image, PDFKit.unknown_size)) images)%list) /\
  fst r = Resolved "/out/scans.pdf" /\
  warnings (snd r) =
    [WarnSkip "1.jpg" (Error "Cannot read properties of undefined (reading '0')");
     WarnSkip "2.jpg" (Error "Cannot read properties of undefined (reading '0')")].
Proof.
  intros h c images r.
  assert (Hin : In (cfg_pageSize c) Object_prototype) by (left; reflexivity).
  split; [|split].
  - split; [exact Hin|reflexivity].
  - exact (@createPDF_inherited_page_size float _ h c images "/out/scans.pdf"
             "scans" Samples.world Hin (fun _ => eq_refl)).
  - vm_compute. split; reflexivity.
Defined.

Lemma createPDF_skips_failed_placements_witness :
  let h := @Samples.host float _ []
             (fun _ => None)
             (fun path => if String.eqb path "/app/dist/temp_compressed/2_compressed.jpg"
                          then Some (Error "Unknown image format.") else None)
             (fun _ => None) in
  let c := Samples.config "A4" "fit" (Float64.cents 0) in
  let p := {| pf_width := Float64.cents 59528; pf_height := Float64.cents 84189 |} in
  let images := [Samples.image "1.jpg"; Samples.image "2.jpg"; Samples.image "10.jpg"] in
  let w' := snd (createPDF h c images "/out/scans.pdf" "scans" Samples.world) in
  (own_property (cfg_pageSize c) pageFormats = Some p /\
   (scratch (@Samples.world float) = None -> mkdirSync_error h = None)) /\
  (exists cs,
     Forall2 (working_copy h (tempDir h)) images cs /\
     skipped (warnings w') =
       (skipped (warnings (@Samples.world float)) ++
        flat_map (placement_failure h) cs)%list) /\
  skipped (warnings w') = [("2.jpg", Error "Unknown image format.")].
Proof.
  intros h c p images w'. split; [|split].
  - split; reflexivity.
  - apply (createPDF_skips_failed_placements h c images "/out/scans.pdf" "scans"
             Samples.world (p := p)); reflexivity.
  - vm_compute. reflexivity.
Defined.

Lemma cleanup_stops_at_first_failure_witness :
  let h := @Samples.host float _ []
             (fun _ => None) (fun _ => None)
             (fun path => if String.eqb path "/tmp/scratch/b.jpg"
                          then Some (Error "EBUSY") else None) in
  let files := ["a.jpg"; "b.jpg"; "c.jpg"] in
  let w := {| scratch := Some files; warnings := []; document := [];
                   made := [] |} in
  let w' := snd (try_catch (cleanup h "/tmp/scratch")
                   (fun cleanupError => warn (WarnCleanup cleanupError)) w) in
  scratch w = Some files /\
  (document w' = document w /\
   match cleanup_failure h "/tmp/scratch" files with
   | Some e =>
       scratch w' = Some (undeleted h "/tmp/scratch" files) /\
       warnings w' = (warnings w ++ [WarnCleanup e])%list
   | None => scratch w' = None /\ warnings w' = warnings w
   end) /\
  scratch w' = Some ["b.jpg"; "c.jpg"].
Proof.
  intros h files w w'. split; [reflexivity|]. split.
  - apply (cleanup_stops_at_first_failure h "/tmp/scratch" (files := files) w).
    reflexivity.
  - vm_compute. reflexivity.
Defined.

Lemma createPDF_without_precompression_witness :
  let h := @Samples.host float _ []
             (fun _ => None) (fun _ => None) (fun _ => None) in
  let c := with_preCompressImages false
             (Samples.config "A4" "fit" (Float64.cents 0)) in
  let p := {| pf_width := Float64.cents 59528; pf_height := Float64.cents 84189 |} in
  let images := [Samples.image "1.jpg"; Samples.image "2.jpg"] in
  let w' := snd (createPDF h c images "/out/scans.pdf" "scans" Samples.world) in
  (cfg_preCompressImages c = false /\
   own_property (cfg_pageSize c) pageFormats = Some p /\
   (scratch (@Samples.world float) = None -> mkdirSync_error h = None)) /\
  Forall2 (page_for h c p) images (document w') /\
  map (fun page => option_map (@img_path float) (page_image page)) (document w') =
    [Some "/photos/1.jpg"; Some "/photos/2.jpg"].
Proof.
  intros h c p images w'. split; [|split].
  - repeat split; reflexivity.
  - apply (createPDF_without_precompression h c images "/out/scans.pdf" "scans"
             Samples.world (p := p)); reflexivity.
  - vm_compute. reflexivity.
Defined.

Lemma scanDirectories_interrupted_witness :
  let h := Tree.host (fun path => if String.eqb path "/src/empty"
                                  then None else Some 1024) None in
  let before := ["scans"; "2024"] in
  let after := ["notes.txt"; "cover.png"] in
  (readdirSync h "/src" = Some (before ++ "empty" :: after)%list /\
   (forall item, In item before ->
                 statSync h (path_join h "/src" item) <> None) /\
   statSync h (path_join h "/src" "empty") = None) /\
  (scanDirectories h Tree.config Tree.isDirectory "/src" =
     fst (scanItems h Tree.config Tree.isDirectory "/src" before []) /\
   forall k,
     JsObject.get k (scanDirectories h Tree.config Tree.isDirectory "/src") =
     if (existsb (String.eqb k) before &&
         has_images h Tree.config Tree.isDirectory (path_join h "/src" k) &&
         negb (String.eqb k "__proto__"))%bool
     then Some (group (path_join h "/src" k)
                  (getImageFiles h Tree.config (path_join h "/src" k)))
     else None) /\
  map fst (scanDirectories h Tree.config Tree.isDirectory "/src") =
    ["2024"; "scans"].
Proof.
  intros h before after.
  assert (Hstat : forall item, In item before ->
                    statSync h (path_join h "/src" item) <> None).
  { intros item [<-|[<-|[]]]; discriminate. }
  split; [|split].
  - split; [reflexivity|]. split; [exact Hstat|reflexivity].
  - apply (scanDirectories_interrupted h Tree.config Tree.isDirectory "/src"
             before after "empty").
    + reflexivity.
    + exact Hstat.
    + reflexivity.
  - vm_compute. reflexivity.
Defined.

Lemma scanDirectories_complete_witness :
  let h := Tree.host (fun _ => Some 1024) None in
  let items := ["scans"; "2024"; "empty"; "notes.txt"; "cover.png"] in
  (readdirSync h "/src" = Some items /\
   (forall item, In item items ->
                 statSync h (path_join h "/src" item) <> None)) /\
  ((forall k, k <> "_root" ->
      JsObject.get k (scanDirectories h Tree.config Tree.isDirectory "/src") =
      if (existsb (String.eqb k) items &&
          has_images h Tree.config Tree.isDirectory (path_join h "/src" k) &&
          negb (String.eqb k "__proto__"))%bool
      then Some (group (path_join h "/src" k)
                   (getImageFiles h Tree.config (path_join h "/src" k)))
      else None) /\
   (getImageFiles h Tree.config "/src" <> [] ->
    JsObject.get "_root" (scanDirectories h Tree.config Tree.isDirectory "/src") =
    Some (group "/src" (getImageFiles h Tree.config "/src")))) /\
  map fst (scanDirectories h Tree.config Tree.isDirectory "/src") =
    ["2024"; "scans"; "_root"].
Proof.
  intros h items. split; [|split].
  - split; [reflexivity|]. intros item _. discriminate.
  - apply (scanDirectories_complete h Tree.config Tree.isDirectory "/src"
             (items := items)).
    + reflexivity.
    + intros item _. discriminate.
  - vm_compute. reflexivity.
Defined.

Lemma run_builds_every_group_witness :
  let stream path := if String.eqb path "/out/2024_2026-11-03.pdf"
                     then Some (Error "ENOSPC") else None in
  let missing path := if String.eqb path "/out/scans_2026-11-03.pdf"
                      then None else Some 1024 in
  let h := host_with_output (Tree.host (fun _ => Some 1024) None)
             (fun _ => Some 1024) stream in
  let h' := host_with_output (Tree.host (fun _ => Some 1024) None)
              missing stream in
  let run_on host :=
    fst (run host Tree.config Tree.isDirectory Tree.existsSync None
           "2026-11-03" "/src" "/out" Samples.world) in
  (Tree.existsSync "/src" = true /\
   (Tree.existsSync "/out" = true \/ @None JsError = None) /\
   mkdirSync_error h = None /\
   scanDirectories h Tree.config Tree.isDirectory "/src" <> []) /\
  (Tree.existsSync "/src" = true /\
   (Tree.existsSync "/out" = true \/ @None JsError = None) /\
   mkdirSync_error h' = None /\
   scanDirectories h' Tree.config Tree.isDirectory "/src" <> []) /\
  run_on h =
    inr (Processed
           [("/out/2024_2026-11-03.pdf", Rejected (Error "ENOSPC"));
            ("/out/scans_2026-11-03.pdf", Resolved "/out/scans_2026-11-03.pdf");
            ("/out/root_2026-11-03.pdf", Resolved "/out/root_2026-11-03.pdf")]
           2 3) /\
  run_on h' =
    inr (Interrupted
           [("/out/2024_2026-11-03.pdf", Rejected (Error "ENOSPC"));
            ("/out/scans_2026-11-03.pdf", Unsettled ENOENT)]).
Proof.
  intros stream missing h h' run_on.
  assert (Hgroups : scanDirectories h Tree.config Tree.isDirectory "/src" <> [])
    by (vm_compute; discriminate).
  assert (Hgroups' : scanDirectories h' Tree.config Tree.isDirectory "/src" <> [])
    by (vm_compute; discriminate).
  split; [|split; [|split]].
  - split; [reflexivity|]. split; [left; reflexivity|].
    split; [reflexivity|exact Hgroups].
  - split; [reflexivity|]. split; [left; reflexivity|].
    split; [reflexivity|exact Hgroups'].
  - subst run_on. cbv beta. etransitivity.
    + apply (@run_builds_every_group float _ h Tree.config Tree.isDirectory
               Tree.existsSync None "2026-11-03" "/src" "/out" Samples.world);
        [reflexivity|left; reflexivity|reflexivity|exact Hgroups].
    + vm_compute. reflexivity.
  - subst run_on. cbv beta. etransitivity.
    + apply (@run_builds_every_group float _ h' Tree.config Tree.isDirectory
               Tree.existsSync None "2026-11-03" "/src" "/out" Samples.world);
        [reflexivity|left; reflexivity|reflexivity|exact Hgroups'].
    + vm_compute. reflexivity.
Defined.


Lemma mergeConfigs_precedence_witness :
  let baseConfig := [("sourceDir", Cli.Str "~/Downloads/img-to-pdf");
                     ("outputDir", Cli.Str "~/Downloads");
                     ("pageSize", Cli.Str "A4");
                     ("preCompressImages", Cli.Flag true)] in
  let envConfig := [("sourceDir", Cli.Str "/env/in");
                    ("outputDir", Cli.Str "/env/out")] in
  let fileConfig := [("pageSize", Cli.Str "A3");
                     ("outputDir", Cli.Str "/file/out");
                     ("maxImageWidth", Cli.Num 1200)] in
  let cliOptions := {| Cli.cli_sourceDir := Some EmptyString;
                       Cli.cli_outputDir := Some "/cli/out" |} in
  (NoDup (map fst envConfig) /\ NoDup (map fst fileConfig) /\
   "sourceDir" <> "__proto__") /\
  JsObject.get "sourceDir"
    (Cli.mergeConfigs Cli.Str baseConfig envConfig fileConfig cliOptions) =
  Some (Cli.Str "/env/in") /\
  Cli.mergeConfigs Cli.Str baseConfig envConfig fileConfig cliOptions =
  [("sourceDir", Cli.Str "/env/in");
   ("outputDir", Cli.Str "/cli/out");
   ("pageSize", Cli.Str "A3");
   ("preCompressImages", Cli.Flag true);
   ("maxImageWidth", Cli.Num 1200)].
Proof.
  intros baseConfig envConfig fileConfig cliOptions.
  assert (He : NoDup (map fst envConfig))
    by (repeat constructor; cbn; intuition discriminate).
  assert (Hf : NoDup (map fst fileConfig))
    by (repeat constructor; cbn; intuition discriminate).
  assert (Hk : "sourceDir" <> "__proto__") by discriminate.
  split; [auto|]. split; [|reflexivity].
  rewrite (@mergeConfigs_precedence _ Cli.Str baseConfig envConfig fileConfig
             cliOptions "sourceDir" He Hf Hk).
  reflexivity.
Defined.

Lemma sourceDir_resolution_witness :
  let baseConfig := [("sourceDir", Cli.Str "~/Downloads/img-to-pdf");
                     ("outputDir", Cli.Str "~/Downloads")] in
  let fileConfig := [("pageSize", Cli.Str "A3")] in
  let env := fun name =>
               if String.eqb name "IMG_TO_PDF_SOURCE_DIR"
               then Some "/env/in"
               else if String.eqb name "IMG_TO_PDF_OUTPUT_DIR"
               then Some EmptyString
               else None in
  let cliOptions := {| Cli.cli_sourceDir := None;
                       Cli.cli_outputDir := None |} in
  NoDup (map fst fileConfig) /\
  JsObject.get "sourceDir"
    (Cli.mergeConfigs Cli.Str baseConfig (Cli.loadFromEnv Cli.Str env)
       fileConfig cliOptions) = Some (Cli.Str "/env/in") /\
  Cli.loadFromEnv Cli.Str env = [("sourceDir", Cli.Str "/env/in")].
Proof.
  intros baseConfig fileConfig env cliOptions.
  assert (Hf : NoDup (map fst fileConfig))
    by (repeat constructor; cbn; intuition discriminate).
  split; [exact Hf|]. split; [|reflexivity].
  rewrite (@sourceDir_resolution _ Cli.Str baseConfig fileConfig env cliOptions
             Hf).
  reflexivity.
Defined.
